(** * MBVectorTileDecoder: style parameters, style installation and decoding

    A shallow embedding of [all/native/vectortiles/MBVectorTileDecoder.cpp].
    The C++ object is a record of its fields; methods are functions in a small
    state-and-exception monad over the object, the log/notification trace and
    an allocation counter (for [std::make_shared] identities).  Collaborators
    that live outside the file (the style parsers, the wire-format feature
    decoder, the asset package, Boost's lexical casts on doubles) are type
    classes or records of their methods. *)

From Stdlib Require Import ZArith Floats String Ascii Bool Lia Sorted.
From Stdlib Require Mergesort Orders Permutation.
From Stdlib Require Reals Lra.
From stdpp Require Import gmap strings list.

Local Open Scope string_scope.
Local Open Scope Z_scope.

(** ** Exceptions and outcomes *)

(** The exception classes of [components/Exceptions.h] that the file throws,
    Boost's [bad_lexical_cast], and [std_exception] for whatever a
    collaborator throws (every exception of the libraries in use derives from
    [std::exception]; the payload is [what()]). *)
Inductive Exception : Type :=
| NullArgumentException (msg : string)
| InvalidArgumentException (msg : string)
| GenericException (msg : string)
| ParseException (msg : string) (details : string)
| bad_lexical_cast
| std_exception (what : string).

Definition what (e : Exception) : string :=
  match e with
  | NullArgumentException m | InvalidArgumentException m | GenericException m => m
  | ParseException m _ => m
  | bad_lexical_cast =>
      "bad lexical cast: source type value could not be interpreted as target"
  | std_exception w => w
  end.

Inductive Outcome (A : Type) : Type :=
| Return (a : A)
| Throw (e : Exception).
Arguments Return {A} a.
Arguments Throw {A} e.

Definition returns {A} (o : Outcome A) : bool :=
  match o with Return _ => true | Throw _ => false end.

(** ** mvt::Value *)

(** [boost::variant<boost::blank, bool, long long, double, std::string>]. *)
Inductive Value : Type :=
| blank
| VBool (b : bool)
| VLongLong (n : Z)
| VDouble (d : float)
| VString (s : string).

(** The alternative a variant currently holds ([which()]). *)
Inductive Kind : Type := KBlank | KBool | KLongLong | KDouble | KString.

Definition which (v : Value) : Kind :=
  match v with
  | blank => KBlank
  | VBool _ => KBool
  | VLongLong _ => KLongLong
  | VDouble _ => KDouble
  | VString _ => KString
  end.

#[global] Instance Kind_eq_dec : EqDecision Kind.
Proof. solve_decision. Defined.

(** [operator==] of the variant: same alternative and equal contents, doubles
    compared with IEEE [==]. *)
Definition Value_eqb (a b : Value) : bool :=
  match a, b with
  | blank, blank => true
  | VBool x, VBool y => Bool.eqb x y
  | VLongLong x, VLongLong y => Z.eqb x y
  | VDouble x, VDouble y => PrimFloat.eqb x y
  | VString x, VString y => String.eqb x y
  | _, _ => false
  end.

(** A [long long] is a 64-bit two's complement integer. *)
Definition LLONG_MIN : Z := - 2 ^ 63.
Definition LLONG_MAX : Z := 2 ^ 63 - 1.
Definition is_long_long (n : Z) : Prop := LLONG_MIN <= n <= LLONG_MAX.

Definition Value_wf (v : Value) : Prop :=
  match v with VLongLong n => is_long_long n | _ => True end.

(** ** boost::lexical_cast *)

Module lexical_cast.

(** [lexical_cast<std::string>(bool)]: one character, ['0' + value]. *)
Definition string_of_bool (b : bool) : string := if b then "1" else "0".

(** [lexical_cast<bool>(std::string)]: the text ends in '0' or '1', after
    an optional sign ('-' only before a zero) and any number of leading
    zeros; anything else is [bad_lexical_cast]. *)
Definition to_bool (s : string) : option bool :=
  match rev (list_ascii_of_string s) with
  | [] => None
  | last :: rprefix =>
      let output := Ascii.eqb last "1" in
      if negb output && negb (Ascii.eqb last "0") then None
      else
        match rev rprefix with
        | [] => Some output
        | c :: rest =>
            let body :=
              if Ascii.eqb c "+" || (Ascii.eqb c "-" && negb output)
              then rest else c :: rest in
            if forallb (Ascii.eqb "0") body then Some output else None
        end
  end.

Definition digit_of_ascii (c : ascii) : option Z :=
  let n := Z.of_N (N_of_ascii c) in
  if (48 <=? n) && (n <=? 57) then Some (n - 48) else None.

Definition ascii_of_digit (d : Z) : ascii := ascii_of_N (Z.to_N (48 + d)).

(** [lcast_ret_unsigned]: a non-empty run of decimal digits. *)
Fixpoint parse_digits (acc : Z) (s : string) : option Z :=
  match s with
  | EmptyString => Some acc
  | String c s' =>
      match digit_of_ascii c with
      | Some d => parse_digits (10 * acc + d) s'
      | None => None
      end
  end.

Definition ret_unsigned (s : string) : option Z :=
  match s with
  | EmptyString => None
  | _ => parse_digits 0 s
  end.

(** [lexical_cast<long long>(std::string)]: optional sign, digits, and the
    magnitude checked against the range of the signed type. *)
Definition to_long_long (s : string) : option Z :=
  match s with
  | EmptyString => None
  | String c s' =>
      let has_minus := Ascii.eqb c "-" in
      let digits := if has_minus || Ascii.eqb c "+" then s' else s in
      match ret_unsigned digits with
      | None => None
      | Some out_tmp =>
          if has_minus
          then if out_tmp <=? 2 ^ 63 then Some (- out_tmp) else None
          else if out_tmp <=? LLONG_MAX then Some out_tmp else None
      end
  end.

(** [lcast_put_unsigned]: digits written from the least significant one
    into a buffer with room for the 20 digits of a 64-bit number. *)
Fixpoint put_unsigned (room : nat) (n : Z) (acc : string) : string :=
  match room with
  | O => acc
  | S room' =>
      let acc' := String (ascii_of_digit (n mod 10)) acc in
      if n / 10 =? 0 then acc' else put_unsigned room' (n / 10) acc'
  end.

(** [lexical_cast<std::string>(long long)]. *)
Definition string_of_long_long (n : Z) : string :=
  if n <? 0 then String "-" (put_unsigned 20 (- n) "")
  else put_unsigned 20 n "".

End lexical_cast.


(** [lexical_cast<double>(std::string)] and [lexical_cast<std::string>(double)]
    are Boost's; the decoder is parameterised by them, and
    [boost_lexical_cast] below gives them with Boost's text format (17
    significant digits, "inf", "nan").  [None] is [bad_lexical_cast]. *)
Class LexicalCastDouble : Type := {
  to_double : string -> option float;
  string_of_double : float -> string
}.

(** ** Boost's casts between doubles and text *)

(** [lexical_cast<std::string>(double)] prints "nan", "inf" and "-inf" by
    itself and everything else with [sprintf("%.17g")];
    [lexical_cast<double>(std::string)] reads the same spellings of NaN and
    the infinities and hands everything else to the stream extractor, which
    accepts a decimal literal and converts it with [strtod].  Both are
    modelled on the GNU C and C++ libraries: 17 significant digits rounded
    to nearest-even from the exact value, and the nearest double (ties to
    even) for a literal, with overflow refused.  Rocq's binary64 has one
    NaN, so "-nan" is not printed. *)
Module lexical_cast_double.

(** Positive rationals as numerator and denominator.  [le_pow] compares
    [base ^ x] with [num / den]; [scaled] is [(num / den) / base ^ x] as a
    fraction. *)
Definition le_pow (base num den x : Z) : bool :=
  if 0 <=? x then den * base ^ x <=? num else den <=? num * base ^ (- x).

Definition scaled (base num den x : Z) : Z * Z :=
  if 0 <=? x then (num, den * base ^ x) else (num * base ^ (- x), den).

(** The integer nearest to [a / t], ties to the even one. *)
Definition round_half_even (a t : Z) : Z :=
  let q := a / t in
  let r := a mod t in
  if 2 * r <? t then q
  else if t <? 2 * r then q + 1
       else if Z.even q then q else q + 1.

(** The first [x], counting down from the one given, at which [P] holds;
    [fuel] steps further down if there is none. *)
Fixpoint find_down (P : Z -> bool) (fuel : nat) (x : Z) : Z :=
  match fuel with
  | O => x
  | S fuel' => if P x then x else find_down P fuel' (x - 1)
  end.

(** A finite non-zero binary64 magnitude [m * 2 ^ e] as a fraction. *)
Definition magnitude (m : positive) (e : Z) : Z * Z :=
  if 0 <=? e then (Z.pos m * 2 ^ e, 1) else (Z.pos m, 2 ^ (- e)).

(** *** Printing *)

(** The 17 significant digits [D] and the decimal exponent [X] of a positive
    number: [D * 10 ^ (X - 16)] is the number rounded to 17 digits. *)
Definition decimal_exponent (num den : Z) : Z :=
  find_down (le_pow 10 num den) 633 308.

Definition decimal17 (num den : Z) : Z * Z :=
  let X := decimal_exponent num den in
  let (a, t) := scaled 10 num den (X - 16) in
  let D := round_half_even a t in
  if D =? 10 ^ 17 then (10 ^ 16, X + 1) else (D, X).

(** The [n] low decimal digits of a number, most significant first. *)
Fixpoint digits (n : nat) (D : Z) : list Z :=
  match n with
  | O => []
  | S n' => digits n' (D / 10) ++ [D mod 10]
  end.

Fixpoint strip_zeros (l : list Z) : list Z :=
  match l with
  | [] => []
  | d :: l' =>
      match strip_zeros l' with
      | [] => if d =? 0 then [] else [d]
      | stripped => d :: stripped
      end
  end.

Definition render_digits (l : list Z) : list ascii :=
  List.map lexical_cast.ascii_of_digit l.

(** The fraction of a "%g" conversion: trailing zeros are dropped, and the
    point with them when nothing is left. *)
Definition render_fraction (l : list Z) : list ascii :=
  match strip_zeros l with
  | [] => []
  | fraction => "."%char :: render_digits fraction
  end.

(** The exponent of a "%e" conversion: a sign and at least two digits. *)
Definition render_exponent (X : Z) : list ascii :=
  "e"%char :: (if X <? 0 then "-"%char else "+"%char)
  :: render_digits (digits (if Z.abs X <? 100 then 2 else 3) (Z.abs X)).

(** "%.17g" of a positive number with digits [D] and exponent [X]:
    scientific notation when [X < -4] or [X >= 17], fixed otherwise. *)
Definition render17 (D X : Z) : list ascii :=
  let l := digits 17 D in
  if (X <? -4) || (17 <=? X) then
    render_digits (firstn 1 l) ++ render_fraction (skipn 1 l) ++ render_exponent X
  else if 0 <=? X then
    render_digits (firstn (Z.to_nat (X + 1)) l)
    ++ render_fraction (skipn (Z.to_nat (X + 1)) l)
  else
    "0"%char :: "."%char
    :: render_digits (repeat 0 (Z.to_nat (- X - 1)) ++ strip_zeros l).

Definition render_sign (negative : bool) : list ascii :=
  if negative then ["-"%char] else [].

(** [lexical_cast<std::string>(double)]. *)
Definition string_of_double (d : float) : string :=
  match Prim2SF d with
  | S754_nan => "nan"
  | S754_infinity negative => if negative then "-inf" else "inf"
  | S754_zero negative => if negative then "-0" else "0"
  | S754_finite negative m e =>
      let (num, den) := magnitude m e in
      let (D, X) := decimal17 num den in
      string_of_list_ascii (render_sign negative ++ render17 D X)
  end.

(** *** Parsing *)

Definition read_sign (l : list ascii) : bool * list ascii :=
  match l with
  | c :: l' =>
      if Ascii.eqb c "-" then (true, l')
      else if Ascii.eqb c "+" then (false, l')
           else (false, l)
  | [] => (false, [])
  end.

(** A run of digits: the number they continue from [acc], how many there
    are, and what follows. *)
Fixpoint read_digits (l : list ascii) (acc count : Z) : Z * Z * list ascii :=
  match l with
  | c :: l' =>
      match lexical_cast.digit_of_ascii c with
      | Some d => read_digits l' (10 * acc + d) (count + 1)
      | None => (acc, count, l)
      end
  | [] => (acc, count, [])
  end.

(** A decimal literal, all of the text: sign, digits with at most one point
    among them (at least one digit), and an exponent with at least one digit
    after 'e' or 'E'.  The result is the sign and [N], [k] with the
    magnitude [N * 10 ^ k]. *)
Definition parse_decimal (l : list ascii) : option (bool * Z * Z) :=
  let (negative, l) := read_sign l in
  let '(whole, whole_count, l) := read_digits l 0 0 in
  let '(N, fraction_count, l) :=
    match l with
    | c :: l' =>
        if Ascii.eqb c "." then read_digits l' whole 0 else (whole, 0, l)
    | [] => (whole, 0, l)
    end in
  if whole_count + fraction_count =? 0 then None
  else
    match l with
    | [] => Some (negative, N, - fraction_count)
    | c :: l' =>
        if Ascii.eqb c "e" || Ascii.eqb c "E" then
          let (exponent_negative, l'') := read_sign l' in
          let '(exponent, exponent_count, rest) := read_digits l'' 0 0 in
          if exponent_count =? 0 then None
          else
            match rest with
            | [] =>
                Some (negative, N,
                      (if exponent_negative then - exponent else exponent)
                      - fraction_count)
            | _ :: _ => None
            end
        else None
    end.

Definition lower (c : ascii) : ascii :=
  let n := N_of_ascii c in
  if (65 <=? n)%N && (n <=? 90)%N then ascii_of_N (n + 32) else c.

Definition iequal (l : list ascii) (lowercase : string) : bool :=
  String.eqb (string_of_list_ascii (List.map lower l)) lowercase.

(** [parse_inf_nan]: "nan", "nan(...)", "inf" and "infinity" in either
    case, after an optional sign. *)
Definition parse_inf_nan (l : list ascii) : option spec_float :=
  let (negative, l) := read_sign l in
  if iequal (firstn 3 l) "nan" then
    match skipn 3 l with
    | [] => Some S754_nan
    | c :: rest =>
        match rev rest with
        | last :: _ =>
            if Ascii.eqb c "(" && Ascii.eqb last ")" then Some S754_nan else None
        | [] => None
        end
    end
  else if iequal l "inf" || iequal l "infinity" then Some (S754_infinity negative)
       else None.

(** The binary exponent of the nearest binary64 number: the largest [e] with
    [2 ^ (e + 52) <= num / den], from 972 (too large a number) down to the
    exponent -1074 of the subnormal numbers. *)
Definition binary_exponent (num den : Z) : Z :=
  find_down (fun e => le_pow 2 num den (e + 52)) 2046 972.

(** The binary64 number nearest to [num / den], ties to even; [None] when it
    is out of range. *)
Definition round_binary64 (negative : bool) (num den : Z) : option spec_float :=
  let e := binary_exponent num den in
  if 972 <=? e then None
  else
    let (a, t) := scaled 2 num den e in
    let m := round_half_even a t in
    if m =? 0 then Some (S754_zero negative)
    else if m =? 2 ^ 53 then
           if e + 1 =? 972 then None
           else Some (S754_finite negative (Z.to_pos (2 ^ 52)) (e + 1))
         else Some (S754_finite negative (Z.to_pos m) e).

Definition decimal_magnitude (N k : Z) : Z * Z :=
  if 0 <=? k then (N * 10 ^ k, 1) else (N, 10 ^ (- k)).

(** [lexical_cast<double>(std::string)]; [None] is [bad_lexical_cast]. *)
Definition to_double (s : string) : option float :=
  let l := list_ascii_of_string s in
  match parse_inf_nan l with
  | Some special => Some (SF2Prim special)
  | None =>
      match parse_decimal l with
      | None => None
      | Some (negative, N, k) =>
          if N =? 0 then Some (SF2Prim (S754_zero negative))
          else
            let (num, den) := decimal_magnitude N k in
            match round_binary64 negative num den with
            | Some nearest => Some (SF2Prim nearest)
            | None => None
            end
      end
  end.

(** *** The parts of a printed number *)

(** The number a run of digits continues from [acc]. *)
Definition number_of (l : list Z) (acc : Z) : Z :=
  fold_left (fun a d => 10 * a + d) l acc.

(** A point and the digits after it, or nothing. *)
Definition render_point (fraction : list Z) : list ascii :=
  match fraction with
  | [] => []
  | _ :: _ => "."%char :: render_digits fraction
  end.

(** An exponent, or nothing. *)
Definition render_tail (exponent : option Z) : list ascii :=
  match exponent with
  | Some X => render_exponent X
  | None => []
  end.

Definition exponent_of (exponent : option Z) : Z :=
  match exponent with
  | Some X => X
  | None => 0
  end.

Definition is_digit (d : Z) : Prop := 0 <= d < 10.

End lexical_cast_double.

(** Boost's casts as the decoder's. *)
Definition boost_lexical_cast : LexicalCastDouble :=
  {| to_double := lexical_cast_double.to_double;
     string_of_double := lexical_cast_double.string_of_double |}.

(** ** The style model (mvt::Map) *)

(** [std::map<std::string, Value>] of an enum parameter, as the sequence of
    its entries in iteration order; [find] is by key. *)
Definition EnumMap : Type := list (string * Value).

Fixpoint enum_find (key : string) (m : EnumMap) : option Value :=
  match m with
  | [] => None
  | (k, v) :: m' => if String.eqb k key then Some v else enum_find key m'
  end.

(** A [std::map] iterates its keys in strictly ascending order of
    [std::string::operator<]. *)
Definition EnumMap_wf (m : EnumMap) : Prop :=
  StronglySorted (fun a b => String.ltb a.1 b.1 = true) m.

Record NutiParameter : Type := {
  getDefaultValue : Value;
  getEnumMap : EnumMap
}.

Record MapSettings : Type := {
  backgroundColor : Z;
  backgroundImage : string;
  fontDirectory : string
}.

Record Map : Type := {
  getNutiParameterMap : gmap string NutiParameter;
  getSettings : MapSettings
}.

(** ** Assets and style sets *)

Definition BinaryData : Type := list Byte.byte.

(** [utils/AssetPackage.h], an interface: the two methods the decoder calls. *)
Record AssetPackage : Type := {
  getAssetNames : list string;
  loadAsset : string -> option BinaryData
}.

Record CompiledStyleSet : Type := {
  getStyleAssetName : string;
  compiled_getAssetPackage : option AssetPackage
}.

Record CartoCSSStyleSet : Type := {
  getCartoCSS : string;
  cartocss_getAssetPackage : option AssetPackage
}.

(** [boost::variant<std::shared_ptr<CompiledStyleSet>,
    std::shared_ptr<CartoCSSStyleSet>>]; the pointers stored are non-null
    (constructors and setters check before storing). *)
Inductive StyleSet : Type :=
| Compiled (styleSet : CompiledStyleSet)
| CartoCSS (styleSet : CartoCSSStyleSet).

(** ** Symbolizer context and resource managers *)

Record Settings : Type := {
  tileSize : Z;
  nutiParameterValueMap : gmap string Value
}.

Record FontManager : Type := {
  font_maxGlyphMapWidth : Z;
  font_maxGlyphMapHeight : Z;
  loadedFontData : list BinaryData
}.

Record VTBitmapLoader : Type := {
  bitmap_basePath : string;
  bitmap_assetPackage : option AssetPackage
}.

Record BitmapManager : Type := { bitmapLoader : VTBitmapLoader }.
Record StrokeMap : Type := { stroke_maxWidth : Z }.
Record GlyphMap : Type := { glyph_maxWidth : Z; glyph_maxHeight : Z }.

Record SymbolizerContext : Type := {
  getBitmapManager : BitmapManager;
  getFontManager : FontManager;
  getStrokeMap : StrokeMap;
  getGlyphMap : GlyphMap;
  getSettings_ctx : Settings
}.

Record BitmapPattern : Type := {
  pattern_source : string;
  pattern_widthScale : float;
  pattern_heightScale : float
}.

Definition DEFAULT_TILE_SIZE : Z := 256.
Definition STROKEMAP_SIZE : Z := 512.
Definition GLYPHMAP_SIZE : Z := 2048.

(** ** The decoder object *)

(** A [std::shared_ptr] to a heap object: its address and the object.
    Comparison of shared pointers compares addresses. *)
Record shared_ptr (A : Type) : Type := {
  address : nat;
  pointee : A
}.
Arguments address {A} _.
Arguments pointee {A} _.

(** [mvt::MBVTFeatureDecoder]: the payload it was built from and what its
    setters store ([setTransform], [setBuffer], [setGlobalIdOverride]). *)
Record MBVTFeatureDecoder : Type := {
  decoder_data : BinaryData;
  decoder_transform : list float;
  decoder_buffer : float;
  decoder_globalIdOverride : bool * Z
}.

Record MBVectorTileDecoder : Type := {
  _buffer : float;
  _featureIdOverride : bool;
  _cartoCSSLayerNamesIgnored : bool;
  _layerNameOverride : string;
  _map : Map;
  _parameterValueMap : gmap string Value;
  _backgroundPattern : option BitmapPattern;
  _symbolizerContext : SymbolizerContext;
  _styleSet : StyleSet;
  (** The pair (payload, decoder): both null after construction, both set
      by the only assignment to it, hence one option around the pair. *)
  _cachedFeatureDecoder :
    option (shared_ptr BinaryData * shared_ptr MBVTFeatureDecoder)
}.

(** ** Effects: log lines and the decoder-changed notification *)

Inductive Event : Type :=
| LogInfo (msg : string)
| LogWarn (msg : string)
| LogError (msg : string)
| DecoderChanged.

Record World : Type := {
  this : MBVectorTileDecoder;
  trace : list Event;
  next_address : nat
}.

Definition Eff (A : Type) : Type := World -> Outcome A * World.

Definition ret {A} (a : A) : Eff A := fun w => (Return a, w).
Definition throw {A} (e : Exception) : Eff A := fun w => (Throw e, w).
Definition bind {A B} (m : Eff A) (k : A -> Eff B) : Eff B :=
  fun w =>
    match m w with
    | (Return a, w') => k a w'
    | (Throw e, w') => (Throw e, w')
    end.
Definition try_catch {A} (m : Eff A) (handler : Exception -> Eff A) : Eff A :=
  fun w =>
    match m w with
    | (Return a, w') => (Return a, w')
    | (Throw e, w') => handler e w'
    end.
Definition lift {A} (o : Outcome A) : Eff A := fun w => (o, w).

Declare Scope eff_scope.
Delimit Scope eff_scope with eff.
Notation "'let*' x ':=' m 'in' k" := (bind m (fun x => k))
  (at level 10, x name, m at level 100, k at level 200) : eff_scope.
Notation "'do' m 'then' k" := (bind m (fun _ => k))
  (at level 10, m at level 100, k at level 200) : eff_scope.

Definition emit (e : Event) : Eff unit :=
  fun w => (Return tt,
            {| this := this w; trace := trace w ++ [e];
               next_address := next_address w |}).
Definition get_this : Eff MBVectorTileDecoder := fun w => (Return (this w), w).
Definition put_this (d : MBVectorTileDecoder) : Eff unit :=
  fun w => (Return tt,
            {| this := d; trace := trace w; next_address := next_address w |}).

Definition notifyDecoderChanged : Eff unit := emit DecoderChanged.

Definition set_parameterValueMap (m : gmap string Value)
    (d : MBVectorTileDecoder) : MBVectorTileDecoder :=
  {| _buffer := _buffer d;
     _featureIdOverride := _featureIdOverride d;
     _cartoCSSLayerNamesIgnored := _cartoCSSLayerNamesIgnored d;
     _layerNameOverride := _layerNameOverride d;
     _map := _map d;
     _parameterValueMap := m;
     _backgroundPattern := _backgroundPattern d;
     _symbolizerContext := _symbolizerContext d;
     _styleSet := _styleSet d;
     _cachedFeatureDecoder := _cachedFeatureDecoder d |}.

Definition set_symbolizerContext (c : SymbolizerContext)
    (d : MBVectorTileDecoder) : MBVectorTileDecoder :=
  {| _buffer := _buffer d;
     _featureIdOverride := _featureIdOverride d;
     _cartoCSSLayerNamesIgnored := _cartoCSSLayerNamesIgnored d;
     _layerNameOverride := _layerNameOverride d;
     _map := _map d;
     _parameterValueMap := _parameterValueMap d;
     _backgroundPattern := _backgroundPattern d;
     _symbolizerContext := c;
     _styleSet := _styleSet d;
     _cachedFeatureDecoder := _cachedFeatureDecoder d |}.

(** ** Style parameters *)

(** The scalar branch of [getStyleParameter]: the text of the alternative
    the value holds; nothing matches [boost::blank], which falls through to
    the empty string of the last line. *)
Definition printStyleValue {LC : LexicalCastDouble} (value : Value) : string :=
  match value with
  | VBool val => lexical_cast.string_of_bool val
  | VLongLong val => lexical_cast.string_of_long_long val
  | VDouble val => string_of_double val
  | VString val => val
  | blank => ""
  end.

(** [MBVectorTileDecoder::getStyleParameter] (a const method: no effect on
    the object, so the outcome alone). *)
Definition getStyleParameter {LC : LexicalCastDouble}
    (d : MBVectorTileDecoder) (param : string) : Outcome string :=
  match getNutiParameterMap (_map d) !! param with
  | None => Throw (InvalidArgumentException "Could not find parameter")
  | Some nutiParam =>
      let value :=
        match _parameterValueMap d !! param with
        | Some v => v
        | None => getDefaultValue nutiParam
        end in
      match getEnumMap nutiParam with
      | _ :: _ =>
          match find (fun e => Value_eqb (snd e) value) (getEnumMap nutiParam) with
          | Some e => Return (fst e)
          | None => Return ""
          end
      | [] => Return (printStyleValue value)
      end
  end.

(** The scalar branch of [setStyleParameter]: the text parsed against the
    alternative held by the default value. *)
Definition parseStyleValue {LC : LexicalCastDouble}
    (default : Value) (value : string) : Outcome Value :=
  match default with
  | VBool _ =>
      if String.eqb value "true" then Return (VBool true)
      else if String.eqb value "false" then Return (VBool false)
      else match lexical_cast.to_bool value with
           | Some b => Return (VBool b)
           | None => Throw bad_lexical_cast
           end
  | VLongLong _ =>
      match lexical_cast.to_long_long value with
      | Some n => Return (VLongLong n)
      | None => Throw bad_lexical_cast
      end
  | VDouble _ =>
      match to_double value with
      | Some x => Return (VDouble x)
      | None => Throw bad_lexical_cast
      end
  | VString _ => Return (VString value)
  | blank => Return blank
  end.

(** The tail of the locked block of [setStyleParameter]: store the value and
    rebuild the symbolizer context around the same managers. *)
Definition storeStyleValue (param : string) (val : Value) : Eff unit :=
  (let* d := get_this in
   let values := <[param := val]> (_parameterValueMap d) in
   let settings :=
     {| tileSize := DEFAULT_TILE_SIZE; nutiParameterValueMap := values |} in
   let ctx := _symbolizerContext d in
   put_this
     (set_symbolizerContext
        {| getBitmapManager := getBitmapManager ctx;
           getFontManager := getFontManager ctx;
           getStrokeMap := getStrokeMap ctx;
           getGlyphMap := getGlyphMap ctx;
           getSettings_ctx := settings |}
        (set_parameterValueMap values d)))%eff.

(** [MBVectorTileDecoder::setStyleParameter]. *)
Definition setStyleParameter {LC : LexicalCastDouble}
    (param value : string) : Eff bool :=
  (let* d := get_this in
   match getNutiParameterMap (_map d) !! param with
   | None =>
       do emit (LogInfo ("MBVectorTileDecoder::setStyleParameter: Could not find parameter: "
                         +:+ param)) then
       ret false
   | Some nutiParam =>
       match getEnumMap nutiParam with
       | _ :: _ =>
           match enum_find value (getEnumMap nutiParam) with
           | None =>
               do emit (LogInfo ("MBVectorTileDecoder::setStyleParameter: Illegal enum value for parameter: "
                                 +:+ param +:+ "/" +:+ value)) then
               ret false
           | Some val =>
               do storeStyleValue param val then
               do notifyDecoderChanged then
               ret true
           end
       | [] =>
           let* val := lift (parseStyleValue (getDefaultValue nutiParam) value) in
           do storeStyleValue param val then
           do notifyDecoderChanged then
           ret true
       end
   end)%eff.

(** ** Style installation *)

(** The two style front-ends and the XML reader, which live in libraries
    outside this file.  A front-end either yields a style model or throws. *)
Class StyleFrontEnds : Type := {
  (** [css::CartoCSSMapLoader(assetLoader(basePath, package), logger)] with
      [setIgnoreLayerPredicates(ignore)], then [loadMap(cartoCSS)]. *)
  loadMap : string -> option AssetPackage -> bool -> string -> Outcome Map;
  (** The same loader, then [loadMapProject(fileName)]. *)
  loadMapProject : string -> option AssetPackage -> bool -> string -> Outcome Map;
  (** [pugi::xml_document::load_buffer]: [None] when the result is falsy. *)
  xml_document : Type;
  load_buffer : BinaryData -> option xml_document;
  (** [mvt::MapParser(symbolizerParser, logger).parseMap(doc)]. *)
  parseMap : xml_document -> Outcome Map;
  (** [vt::BitmapManager::loadBitmapPattern(fileName, widthScale, heightScale)]. *)
  loadBitmapPattern : BitmapManager -> string -> float -> float -> option BitmapPattern
}.

(** [utils/FileUtils.h]: path helpers used for the font and bitmap prefixes. *)
Class FileUtils : Type := {
  GetFilePath : string -> string;
  NormalizePath : string -> string
}.

(** [boost::algorithm::ends_with]. *)
Definition ends_with (input test : string) : bool :=
  let n := String.length input in
  let m := String.length test in
  (m <=? n)%nat && String.eqb (substring (n - m) m input) test.

(** The exception a front-end threw, rewrapped as in the [catch] blocks. *)
Definition rethrow_as_parse_error (msg : string) (o : Outcome Map) : Outcome Map :=
  match o with
  | Return m => Return m
  | Throw ex => Throw (ParseException msg (what ex))
  end.

(** The style asset of a precompiled source, as [updateCurrentStyle] fetches
    it: absent without a package or when the package does not have it. *)
Definition styleAsset (styleSet : CompiledStyleSet) : option BinaryData :=
  match compiled_getAssetPackage styleSet with
  | Some package => loadAsset package (getStyleAssetName styleSet)
  | None => None
  end.

(** The first half of [updateCurrentStyle]: from the style set to the style
    model, with the asset name and asset package used for the resources.
    (The last [else] of the C++, for a variant that holds neither
    alternative, cannot be reached.) *)
Definition loadStyleMap {FE : StyleFrontEnds} {FU : FileUtils}
    (cartoCSSLayerNamesIgnored : bool) (styleSet : StyleSet)
    : Outcome (string * option AssetPackage * Map) :=
  match styleSet with
  | CartoCSS cartoCSSStyleSet =>
      let styleAssetName := "" in
      let styleSetData := cartocss_getAssetPackage cartoCSSStyleSet in
      match rethrow_as_parse_error "CartoCSS style parsing failed"
              (loadMap "" (cartocss_getAssetPackage cartoCSSStyleSet)
                 cartoCSSLayerNamesIgnored (getCartoCSS cartoCSSStyleSet)) with
      | Throw e => Throw e
      | Return map => Return (styleAssetName, styleSetData, map)
      end
  | Compiled compiledStyleSet =>
      let styleAssetName := getStyleAssetName compiledStyleSet in
      if String.eqb styleAssetName "" then
        Throw (InvalidArgumentException "Could not find any styles in the style set")
      else
        let styleSetData := compiled_getAssetPackage compiledStyleSet in
        match styleAsset compiledStyleSet with
        | None => Throw (GenericException "Failed to load style description asset")
        | Some styleData =>
            let loaded :=
              if ends_with styleAssetName ".xml" then
                match load_buffer styleData with
                | None => Throw (ParseException "Style element XML parsing failed" "")
                | Some doc =>
                    rethrow_as_parse_error "XML style processing failed" (parseMap doc)
                end
              else if ends_with styleAssetName ".json" then
                rethrow_as_parse_error "CartoCSS style parsing failed"
                  (loadMapProject (GetFilePath styleAssetName) styleSetData
                     cartoCSSLayerNamesIgnored styleAssetName)
              else Throw (GenericException "Failed to detect style asset type") in
            match loaded with
            | Throw e => Throw e
            | Return map => Return (styleAssetName, styleSetData, map)
            end
        end
  end.

(** The loop that fills the parameter value map with the declared defaults. *)
Definition defaultParameterValueMap (map : Map) : gmap string Value :=
  map_fold (fun name nutiParam values => <[name := getDefaultValue nutiParam]> values)
    ∅ (getNutiParameterMap map).

(** The font loop: every asset strictly under the font prefix that loads. *)
Definition loadFonts (fontPrefix : string) (package : AssetPackage)
    (fontManager : FontManager) : FontManager :=
  fold_left
    (fun fm assetName =>
       if (String.length fontPrefix <? String.length assetName)%nat
          && String.eqb (substring 0 (String.length fontPrefix) assetName) fontPrefix
       then match loadAsset package assetName with
            | Some fontData =>
                {| font_maxGlyphMapWidth := font_maxGlyphMapWidth fm;
                   font_maxGlyphMapHeight := font_maxGlyphMapHeight fm;
                   loadedFontData := loadedFontData fm ++ [fontData] |}
            | None => fm
            end
       else fm)
    (getAssetNames package) fontManager.

(** What [updateCurrentStyle] assigns at its end. *)
Record CurrentStyle : Type := {
  cs_map : Map;
  cs_parameterValueMap : gmap string Value;
  cs_backgroundPattern : option BitmapPattern;
  cs_symbolizerContext : SymbolizerContext
}.

(** The body of [updateCurrentStyle] up to the assignments. *)
Definition loadCurrentStyle {FE : StyleFrontEnds} {FU : FileUtils}
    (cartoCSSLayerNamesIgnored : bool) (styleSet : StyleSet) : Outcome CurrentStyle :=
  match loadStyleMap cartoCSSLayerNamesIgnored styleSet with
  | Throw e => Throw e
  | Return (styleAssetName, styleSetData, map) =>
      let parameterValueMap := defaultParameterValueMap map in
      let settings :=
        {| tileSize := DEFAULT_TILE_SIZE; nutiParameterValueMap := parameterValueMap |} in
      let fontManager :=
        {| font_maxGlyphMapWidth := GLYPHMAP_SIZE;
           font_maxGlyphMapHeight := GLYPHMAP_SIZE;
           loadedFontData := [] |} in
      let bitmapManager :=
        {| bitmapLoader :=
             {| bitmap_basePath := GetFilePath styleAssetName;
                bitmap_assetPackage := styleSetData |} |} in
      let strokeMap := {| stroke_maxWidth := STROKEMAP_SIZE |} in
      let glyphMap :=
        {| glyph_maxWidth := GLYPHMAP_SIZE; glyph_maxHeight := GLYPHMAP_SIZE |} in
      let fontManager :=
        match styleSetData with
        | Some package =>
            let fontPrefix :=
              NormalizePath (GetFilePath styleAssetName
                             +:+ fontDirectory (getSettings map) +:+ "/") in
            loadFonts fontPrefix package fontManager
        | None => fontManager
        end in
      let backgroundPattern :=
        if String.eqb (backgroundImage (getSettings map)) "" then None
        else loadBitmapPattern bitmapManager (backgroundImage (getSettings map)) 1 1 in
      Return
        {| cs_map := map;
           cs_parameterValueMap := parameterValueMap;
           cs_backgroundPattern := backgroundPattern;
           cs_symbolizerContext :=
             {| getBitmapManager := bitmapManager;
                getFontManager := fontManager;
                getStrokeMap := strokeMap;
                getGlyphMap := glyphMap;
                getSettings_ctx := settings |} |}
  end.

(** [MBVectorTileDecoder::updateCurrentStyle]: nothing is assigned unless
    the whole style loaded. *)
Definition updateCurrentStyle {FE : StyleFrontEnds} {FU : FileUtils}
    (styleSet : StyleSet) : Eff unit :=
  (let* d := get_this in
   let* cs := lift (loadCurrentStyle (_cartoCSSLayerNamesIgnored d) styleSet) in
   put_this
     {| _buffer := _buffer d;
        _featureIdOverride := _featureIdOverride d;
        _cartoCSSLayerNamesIgnored := _cartoCSSLayerNamesIgnored d;
        _layerNameOverride := _layerNameOverride d;
        _map := cs_map cs;
        _parameterValueMap := cs_parameterValueMap cs;
        _backgroundPattern := cs_backgroundPattern cs;
        _symbolizerContext := cs_symbolizerContext cs;
        _styleSet := styleSet;
        _cachedFeatureDecoder := _cachedFeatureDecoder d |})%eff.

(** The constructors: the member initialisers, the null check, then
    [updateCurrentStyle] on the object under construction. *)
Definition construct {FE : StyleFrontEnds} {FU : FileUtils}
    (styleSet : StyleSet) : Outcome MBVectorTileDecoder :=
  match loadCurrentStyle false styleSet with
  | Throw e => Throw e
  | Return cs =>
      Return
        {| _buffer := 0;
           _featureIdOverride := false;
           _cartoCSSLayerNamesIgnored := false;
           _layerNameOverride := "";
           _map := cs_map cs;
           _parameterValueMap := cs_parameterValueMap cs;
           _backgroundPattern := cs_backgroundPattern cs;
           _symbolizerContext := cs_symbolizerContext cs;
           _styleSet := styleSet;
           _cachedFeatureDecoder := None |}
  end.

Definition new_from_CompiledStyleSet {FE : StyleFrontEnds} {FU : FileUtils}
    (compiledStyleSet : option CompiledStyleSet) : Outcome MBVectorTileDecoder :=
  match compiledStyleSet with
  | None => Throw (NullArgumentException "Null compiledStyleSet")
  | Some styleSet => construct (Compiled styleSet)
  end.

Definition new_from_CartoCSSStyleSet {FE : StyleFrontEnds} {FU : FileUtils}
    (cartoCSSStyleSet : option CartoCSSStyleSet) : Outcome MBVectorTileDecoder :=
  match cartoCSSStyleSet with
  | None => Throw (NullArgumentException "Null cartoCSSStyleSet")
  | Some styleSet => construct (CartoCSS styleSet)
  end.

(** [setCompiledStyleSet] and [setCartoCSSStyleSet]. *)
Definition setCompiledStyleSet {FE : StyleFrontEnds} {FU : FileUtils}
    (styleSet : option CompiledStyleSet) : Eff unit :=
  match styleSet with
  | None => throw (NullArgumentException "Null styleSet")
  | Some styleSet =>
      (do updateCurrentStyle (Compiled styleSet) then notifyDecoderChanged)%eff
  end.

Definition setCartoCSSStyleSet {FE : StyleFrontEnds} {FU : FileUtils}
    (styleSet : option CartoCSSStyleSet) : Eff unit :=
  match styleSet with
  | None => throw (NullArgumentException "Null styleSet")
  | Some styleSet =>
      (do updateCurrentStyle (CartoCSS styleSet) then notifyDecoderChanged)%eff
  end.

(** Either setter, by the kind of the (non-null) style source. *)
Definition setStyleSet {FE : StyleFrontEnds} {FU : FileUtils}
    (styleSet : StyleSet) : Eff unit :=
  match styleSet with
  | Compiled compiled => setCompiledStyleSet (Some compiled)
  | CartoCSS cartoCSS => setCartoCSSStyleSet (Some cartoCSS)
  end.

(** ** Getters and the plain setters *)

(** [getCompiledStyleSet] and [getCartoCSSStyleSet] (const methods): the
    alternative the variant holds, or the null pointer. *)
Definition getCompiledStyleSet (d : MBVectorTileDecoder) : option CompiledStyleSet :=
  match _styleSet d with
  | Compiled compiledStyleSet => Some compiledStyleSet
  | CartoCSS _ => None
  end.

Definition getCartoCSSStyleSet (d : MBVectorTileDecoder) : option CartoCSSStyleSet :=
  match _styleSet d with
  | CartoCSS cartoCSSStyleSet => Some cartoCSSStyleSet
  | Compiled _ => None
  end.

(** [std::string::operator<=], the order in which a [std::map] with string
    keys is iterated. *)
Module StringOrder <: Orders.TotalLeBool.
Definition t : Type := string.
Definition leb : t -> t -> bool := String.leb.
Definition leb_total : forall s1 s2 : t, leb s1 s2 = true \/ leb s2 s1 = true :=
  String.leb_total.
End StringOrder.

Module StringSort := Mergesort.Sort StringOrder.

(** The keys of a [std::map<std::string, _>] from [begin()] to [end()]. *)
Definition keys_in_order {A} (m : gmap string A) : list string :=
  StringSort.sort (map fst (map_to_list m)).

(** [getStyleParameters]: the loop pushes [it->first] for every entry. *)
Definition getStyleParameters (d : MBVectorTileDecoder) : list string :=
  keys_in_order (getNutiParameterMap (_map d)).

Definition set_buffer (buffer : float) (d : MBVectorTileDecoder)
    : MBVectorTileDecoder :=
  {| _buffer := buffer;
     _featureIdOverride := _featureIdOverride d;
     _cartoCSSLayerNamesIgnored := _cartoCSSLayerNamesIgnored d;
     _layerNameOverride := _layerNameOverride d;
     _map := _map d;
     _parameterValueMap := _parameterValueMap d;
     _backgroundPattern := _backgroundPattern d;
     _symbolizerContext := _symbolizerContext d;
     _styleSet := _styleSet d;
     _cachedFeatureDecoder := _cachedFeatureDecoder d |}.

Definition set_featureIdOverride (idOverride : bool) (d : MBVectorTileDecoder)
    : MBVectorTileDecoder :=
  {| _buffer := _buffer d;
     _featureIdOverride := idOverride;
     _cartoCSSLayerNamesIgnored := _cartoCSSLayerNamesIgnored d;
     _layerNameOverride := _layerNameOverride d;
     _map := _map d;
     _parameterValueMap := _parameterValueMap d;
     _backgroundPattern := _backgroundPattern d;
     _symbolizerContext := _symbolizerContext d;
     _styleSet := _styleSet d;
     _cachedFeatureDecoder := _cachedFeatureDecoder d |}.

Definition set_cartoCSSLayerNamesIgnored (ignore : bool) (d : MBVectorTileDecoder)
    : MBVectorTileDecoder :=
  {| _buffer := _buffer d;
     _featureIdOverride := _featureIdOverride d;
     _cartoCSSLayerNamesIgnored := ignore;
     _layerNameOverride := _layerNameOverride d;
     _map := _map d;
     _parameterValueMap := _parameterValueMap d;
     _backgroundPattern := _backgroundPattern d;
     _symbolizerContext := _symbolizerContext d;
     _styleSet := _styleSet d;
     _cachedFeatureDecoder := _cachedFeatureDecoder d |}.

Definition set_layerNameOverride (name : string) (d : MBVectorTileDecoder)
    : MBVectorTileDecoder :=
  {| _buffer := _buffer d;
     _featureIdOverride := _featureIdOverride d;
     _cartoCSSLayerNamesIgnored := _cartoCSSLayerNamesIgnored d;
     _layerNameOverride := name;
     _map := _map d;
     _parameterValueMap := _parameterValueMap d;
     _backgroundPattern := _backgroundPattern d;
     _symbolizerContext := _symbolizerContext d;
     _styleSet := _styleSet d;
     _cachedFeatureDecoder := _cachedFeatureDecoder d |}.

(** [getBuffering] and [setBuffering]. *)
Definition getBuffering (d : MBVectorTileDecoder) : float := _buffer d.

Definition setBuffering (buffer : float) : Eff unit :=
  (let* d := get_this in
   do put_this (set_buffer buffer d) then
   notifyDecoderChanged)%eff.

(** [isFeatureIdOverride] and [setFeatureIdOverride]. *)
Definition isFeatureIdOverride (d : MBVectorTileDecoder) : bool :=
  _featureIdOverride d.

Definition setFeatureIdOverride (idOverride : bool) : Eff unit :=
  (let* d := get_this in
   do put_this (set_featureIdOverride idOverride d) then
   notifyDecoderChanged)%eff.

(** [isCartoCSSLayerNamesIgnored] and [setCartoCSSLayerNamesIgnored]; the
    setter stores the flag and does not reload the style. *)
Definition isCartoCSSLayerNamesIgnored (d : MBVectorTileDecoder) : bool :=
  _cartoCSSLayerNamesIgnored d.

Definition setCartoCSSLayerNamesIgnored (ignore : bool) : Eff unit :=
  (let* d := get_this in
   do put_this (set_cartoCSSLayerNamesIgnored ignore d) then
   notifyDecoderChanged)%eff.

(** [getLayerNameOverride] and [setLayerNameOverride]. *)
Definition getLayerNameOverride (d : MBVectorTileDecoder) : string :=
  _layerNameOverride d.

Definition setLayerNameOverride (name : string) : Eff unit :=
  (let* d := get_this in
   do put_this (set_layerNameOverride name d) then
   notifyDecoderChanged)%eff.

(** [getBackgroundColor] (the colour as its 32-bit value) and
    [getBackgroundPattern]. *)
Definition getBackgroundColor (d : MBVectorTileDecoder) : Z :=
  backgroundColor (getSettings (_map d)).

Definition getBackgroundPattern (d : MBVectorTileDecoder) : option BitmapPattern :=
  _backgroundPattern d.

(** The fields the plain setters write, and the fields they leave alone. *)
Definition plain_settings (d : MBVectorTileDecoder) : float * bool * bool * string :=
  (getBuffering d, isFeatureIdOverride d, isCartoCSSLayerNamesIgnored d,
   getLayerNameOverride d).

Definition style_state (d : MBVectorTileDecoder)
    : Map * gmap string Value * option BitmapPattern * SymbolizerContext * StyleSet :=
  (_map d, _parameterValueMap d, _backgroundPattern d, _symbolizerContext d,
   _styleSet d).

(** The asset package and the asset name [updateCurrentStyle] works with. *)
Definition getAssetPackage (styleSet : StyleSet) : option AssetPackage :=
  match styleSet with
  | Compiled compiledStyleSet => compiled_getAssetPackage compiledStyleSet
  | CartoCSS cartoCSSStyleSet => cartocss_getAssetPackage cartoCSSStyleSet
  end.

Definition styleAssetName (styleSet : StyleSet) : string :=
  match styleSet with
  | Compiled compiledStyleSet => getStyleAssetName compiledStyleSet
  | CartoCSS _ => ""
  end.

(** The prefix of the font loop. *)
Definition fontPrefix {FU : FileUtils} (styleSet : StyleSet) (map : Map) : string :=
  NormalizePath (GetFilePath (styleAssetName styleSet)
                 +:+ fontDirectory (getSettings map) +:+ "/").

(** What the body of the font loop hands to [loadFontData] for one asset
    name, if anything. *)
Definition font_asset (fontPrefix : string) (package : AssetPackage)
    (assetName : string) : option BinaryData :=
  if (String.length fontPrefix <? String.length assetName)%nat
     && String.eqb (substring 0 (String.length fontPrefix) assetName) fontPrefix
  then loadAsset package assetName
  else None.

(** The settings of the symbolizer context are those built from the current
    parameter values. *)
Definition settings_in_sync (d : MBVectorTileDecoder) : Prop :=
  getSettings_ctx (_symbolizerContext d)
  = {| tileSize := DEFAULT_TILE_SIZE;
       nutiParameterValueMap := _parameterValueMap d |}.

(** The object once the locked block of [setStyleParameter] has stored
    [val]. *)
Definition stored (param : string) (val : Value) (d : MBVectorTileDecoder)
    : MBVectorTileDecoder :=
  this (storeStyleValue param val {| this := d; trace := []; next_address := 0 |}).2.

(** What a call of [setStyleParameter] asks to store: nothing for an unknown
    parameter or label, the enum's value for a label, the parsed text for a
    scalar. *)
Definition requestedValue {LC : LexicalCastDouble} (map : Map) (param value : string)
    : Outcome (option Value) :=
  match getNutiParameterMap map !! param with
  | None => Return None
  | Some nutiParam =>
      match getEnumMap nutiParam with
      | _ :: _ => Return (enum_find value (getEnumMap nutiParam))
      | [] =>
          match parseStyleValue (getDefaultValue nutiParam) value with
          | Return val => Return (Some val)
          | Throw ex => Throw ex
          end
      end
  end.

(** ** Geometry *)

(** [cglib::vec2<float>]: two binary32 numbers.  They only ever meet doubles,
    where C++ widens them exactly, so they are kept as the doubles they widen
    to. *)
Definition vec2 : Type := (float * float)%type.

Record MapPos : Type := { getX : float; getY : float; getZ : float }.
Record MapVec : Type := { vec_getX : float; vec_getY : float; vec_getZ : float }.
Record MapBounds : Type := { getMin : MapPos; getMax : MapPos }.

(** Modelled from the spec: [core/MapBounds.h] is not among the sources; the
    extent of the rectangle is its maximum minus its minimum, per axis. *)
Definition getDelta (b : MapBounds) : MapVec :=
  {| vec_getX := (getX (getMax b) - getX (getMin b))%float;
     vec_getY := (getY (getMax b) - getY (getMin b))%float;
     vec_getZ := (getZ (getMax b) - getZ (getMin b))%float |}.

(** The wire geometry ([mvt::Geometry] and its three subclasses; any other
    dynamic type, or a null pointer, is [mvt_NoGeometry]). *)
Inductive mvt_Geometry : Type :=
| mvt_PointGeometry (getVertices : list vec2)
| mvt_LineGeometry (getVerticesList : list (list vec2))
| mvt_PolygonGeometry (getPolygonList : list (list (list vec2)))
| mvt_NoGeometry.

Record PointGeometry : Type := { getPos : MapPos }.
Record LineGeometry : Type := { getPoses : list MapPos }.
Record PolygonGeometry : Type := { getRings : list (list MapPos) }.

Inductive Geometry : Type :=
| Point (g : PointGeometry)
| Line (g : LineGeometry)
| Polygon (g : PolygonGeometry)
| MultiPoint (geometries : list PointGeometry)
| MultiLine (geometries : list LineGeometry)
| MultiPolygon (geometries : list PolygonGeometry).

Definition PointConversionFunction : Type := vec2 -> MapPos.

Definition convertPoints (convertFn : PointConversionFunction)
    (poses : list vec2) : list MapPos :=
  map convertFn poses.

Definition convertPointsList (convertFn : PointConversionFunction)
    (posesList : list (list vec2)) : list (list MapPos) :=
  map (convertPoints convertFn) posesList.

Definition convertPointsLists (convertFn : PointConversionFunction)
    (posesLists : list (list (list vec2))) : list (list (list MapPos)) :=
  map (convertPointsList convertFn) posesLists.

(** [convertGeometry]; [None] is the null pointer of the last line. *)
Definition convertGeometry (convertFn : PointConversionFunction)
    (mvtGeometry : mvt_Geometry) : option Geometry :=
  match mvtGeometry with
  | mvt_PointGeometry vertices =>
      let points := map Build_PointGeometry (convertPoints convertFn vertices) in
      match points with
      | [point] => Some (Point point)
      | _ => Some (MultiPoint points)
      end
  | mvt_LineGeometry verticesList =>
      let lines := map Build_LineGeometry (convertPointsList convertFn verticesList) in
      match lines with
      | [line] => Some (Line line)
      | _ => Some (MultiLine lines)
      end
  | mvt_PolygonGeometry polygonList =>
      let polygons :=
        map Build_PolygonGeometry (convertPointsLists convertFn polygonList) in
      match polygons with
      | [polygon] => Some (Polygon polygon)
      | _ => Some (MultiPolygon polygons)
      end
  | mvt_NoGeometry => None
  end.

(** The lambda of [decodeFeature]. *)
Definition convertFn (tileBounds : MapBounds) : PointConversionFunction :=
  fun pos =>
    {| getX := (getX (getMin tileBounds) + fst pos * vec_getX (getDelta tileBounds))%float;
       getY := (getY (getMax tileBounds) - snd pos * vec_getY (getDelta tileBounds))%float;
       getZ := 0%float |}.

(** ** Features *)

(** [carto::Variant] as far as feature attributes go: the scalar
    alternatives ([ValueConverter] produces no other). *)
Inductive Variant : Type :=
| VariantNull
| VariantBool (b : bool)
| VariantInteger (n : Z)
| VariantDouble (d : float)
| VariantString (s : string).

(** [ValueConverter]. *)
Definition ValueConverter (v : Value) : Variant :=
  match v with
  | blank => VariantNull
  | VBool val => VariantBool val
  | VLongLong val => VariantInteger val
  | VDouble val => VariantDouble val
  | VString val => VariantString val
  end.

(** [mvt::FeatureData]: [getVariable] leaves its out-parameter alone when
    the name is unknown. *)
Record mvt_FeatureData : Type := {
  getVariableNames : list string;
  getVariable : string -> option Value
}.

Record mvt_Feature : Type := {
  mvt_getId : Z;
  mvt_getGeometry : mvt_Geometry;
  mvt_getFeatureData : option mvt_FeatureData
}.

(** [geometry/Feature.h]; the attribute map is the object variant built from
    [featureData]. *)
Record Feature : Type := {
  getGeometry : Geometry;
  getProperties : gmap string Variant
}.

(** Modelled from the spec: [geometry/Feature.h] is not among the sources;
    a feature always carries one of the six geometries, so its constructor
    refuses a null geometry. *)
Definition new_Feature (geometry : option Geometry)
    (properties : gmap string Variant) : Outcome Feature :=
  match geometry with
  | None => Throw (NullArgumentException "Null geometry")
  | Some g => Return {| getGeometry := g; getProperties := properties |}
  end.

Record TileFeature : Type := {
  getId : Z;
  getLayerName : string;
  getFeature_ : Feature
}.

Record TileId : Type := { zoom : Z; x : Z; y : Z }.

(** The wire-format decoder and the tile reader, which live in libraries
    outside this file, and two helpers of this repository's base classes. *)
Class TileCodec : Type := {
  (** [mvt::MBVTFeatureDecoder(data, logger)]: parses the payload. *)
  new_MBVTFeatureDecoder : BinaryData -> Outcome MBVTFeatureDecoder;
  (** [decoder->getFeature(id, layerName)]: the feature and its layer name. *)
  getFeature : MBVTFeatureDecoder -> Z -> Outcome (option (string * mvt_Feature));
  (** [VectorTileDecoder::calculateTileTransform]. *)
  calculateTileTransform : TileId -> TileId -> list float;
  (** [MapTile(x, y, zoom, frame).getTileId()]. *)
  MapTile_getTileId : Z -> Z -> Z -> Z -> Z;
  (** [vt::Tile] and [MBVTTileReader(map, context, decoder)] with
      [setLayerNameOverride(name)], then [readTile(targetTile)]. *)
  vt_Tile : Type;
  readTile : Map -> SymbolizerContext -> MBVTFeatureDecoder -> string -> TileId
             -> Outcome (option vt_Tile)
}.

(** ** The single-slot decoder cache *)

Definition set_cachedFeatureDecoder
    (c : option (shared_ptr BinaryData * shared_ptr MBVTFeatureDecoder))
    (d : MBVectorTileDecoder) : MBVectorTileDecoder :=
  {| _buffer := _buffer d;
     _featureIdOverride := _featureIdOverride d;
     _cartoCSSLayerNamesIgnored := _cartoCSSLayerNamesIgnored d;
     _layerNameOverride := _layerNameOverride d;
     _map := _map d;
     _parameterValueMap := _parameterValueMap d;
     _backgroundPattern := _backgroundPattern d;
     _symbolizerContext := _symbolizerContext d;
     _styleSet := _styleSet d;
     _cachedFeatureDecoder := c |}.

(** [std::make_shared]: a fresh address. *)
Definition make_shared {A} (a : A) : Eff (shared_ptr A) :=
  fun w =>
    (Return {| address := next_address w; pointee := a |},
     {| this := this w; trace := trace w;
        next_address := S (next_address w) |}).

(** The three stretches of the cache block of [decodeFeature]; the mutex is
    held during the first and the third and released during the second. *)

(** Locked: [_cachedFeatureDecoder.first != tileData]; on a hit the cached
    decoder. *)
Definition cache_lookup (tileData : shared_ptr BinaryData)
    : Eff (option (shared_ptr MBVTFeatureDecoder)) :=
  (let* d := get_this in
   match _cachedFeatureDecoder d with
   | Some (data, decoder) =>
       if Nat.eqb (address data) (address tileData) then ret (Some decoder)
       else ret None
   | None => ret None
   end)%eff.

(** Unlocked: [std::make_shared<mvt::MBVTFeatureDecoder>(data, _logger)]. *)
Definition cache_parse {TC : TileCodec} (tileData : shared_ptr BinaryData)
    : Eff (shared_ptr MBVTFeatureDecoder) :=
  (let* parsed := lift (new_MBVTFeatureDecoder (pointee tileData)) in
   make_shared parsed)%eff.

(** Locked again: [_cachedFeatureDecoder = std::make_pair(tileData, decoder)]. *)
Definition cache_install (tileData : shared_ptr BinaryData)
    (decoder : shared_ptr MBVTFeatureDecoder) : Eff unit :=
  (let* d := get_this in
   put_this (set_cachedFeatureDecoder (Some (tileData, decoder)) d))%eff.

(** One caller alone runs the stretches back to back. *)
Definition cachedDecoder {TC : TileCodec} (tileData : shared_ptr BinaryData)
    : Eff (shared_ptr MBVTFeatureDecoder) :=
  (let* hit := cache_lookup tileData in
   match hit with
   | Some decoder => ret decoder
   | None =>
       let* decoder := cache_parse tileData in
       do cache_install tileData decoder then
       ret decoder
   end)%eff.

(** ** decodeFeature and decodeTile *)

(** The attribute loop of [decodeFeature]. *)
Definition convertFeatureData (data : option mvt_FeatureData) : gmap string Variant :=
  match data with
  | Some mvtFeatureData =>
      fold_left
        (fun featureData varName =>
           let mvtValue :=
             match getVariable mvtFeatureData varName with
             | Some v => v
             | None => blank
             end in
           <[varName := ValueConverter mvtValue]> featureData)
        (getVariableNames mvtFeatureData) ∅
  | None => ∅
  end.

(** The [try] block of [decodeFeature]. *)
Definition decodeFeature_try {TC : TileCodec} (id : Z)
    (tileData : shared_ptr BinaryData) (tileBounds : MapBounds)
    : Eff (option TileFeature) :=
  (let* decoder := cachedDecoder tileData in
   let* found := lift (getFeature (pointee decoder) id) in
   match found with
   | None => ret None
   | Some (mvtLayerName, mvtFeature) =>
       let featureData := convertFeatureData (mvt_getFeatureData mvtFeature) in
       let* feature :=
         lift (new_Feature
                 (convertGeometry (convertFn tileBounds) (mvt_getGeometry mvtFeature))
                 featureData) in
       ret (Some {| getId := mvt_getId mvtFeature;
                    getLayerName := mvtLayerName;
                    getFeature_ := feature |})
   end)%eff.

(** [MBVectorTileDecoder::decodeFeature]; [tileData] is [None] for a null
    pointer, and so is the result. *)
Definition decodeFeature {TC : TileCodec} (id : Z) (tile : TileId)
    (tileData : option (shared_ptr BinaryData)) (tileBounds : MapBounds)
    : Eff (option TileFeature) :=
  match tileData with
  | None =>
      (do emit (LogWarn "MBVectorTileDecoder::decodeFeature: Null tile data") then
       ret None)%eff
  | Some tileData =>
      match pointee tileData with
      | [] => ret None
      | _ :: _ =>
          try_catch (decodeFeature_try id tileData tileBounds)
            (fun ex =>
               do emit (LogError ("MBVectorTileDecoder::decodeFeature: Exception while decoding: "
                                  +:+ what ex)) then
               ret None)%eff
      end
  end.

(** The [try] block of [decodeTile], on the values copied under the lock. *)
Definition decodeTile_try {TC : TileCodec} (tile targetTile : TileId)
    (tileData : shared_ptr BinaryData) (map : Map)
    (symbolizerContext : SymbolizerContext) (buffer : float)
    (featureIdOverride : bool) (layerNameOverride : string)
    : Eff (option (gmap Z vt_Tile)) :=
  (let* decoder := lift (new_MBVTFeatureDecoder (pointee tileData)) in
   let decoder :=
     {| decoder_data := decoder_data decoder;
        decoder_transform := calculateTileTransform tile targetTile;
        decoder_buffer := buffer;
        decoder_globalIdOverride :=
          (featureIdOverride, MapTile_getTileId (x tile) (y tile) (zoom tile) 0) |} in
   let* read :=
     lift (readTile map symbolizerContext decoder layerNameOverride targetTile) in
   match read with
   | Some tile => ret (Some {[ 0 := tile ]})
   | None => ret None
   end)%eff.

(** [MBVectorTileDecoder::decodeTile]; the tile map has the one key 0. *)
Definition decodeTile {TC : TileCodec} (tile targetTile : TileId)
    (tileData : option (shared_ptr BinaryData)) : Eff (option (gmap Z vt_Tile)) :=
  match tileData with
  | None =>
      (do emit (LogWarn "MBVectorTileDecoder::decodeTile: Null tile data") then
       ret None)%eff
  | Some tileData =>
      match pointee tileData with
      | [] => ret None
      | _ :: _ =>
          (let* d := get_this in
           try_catch
             (decodeTile_try tile targetTile tileData (_map d) (_symbolizerContext d)
                (_buffer d) (_featureIdOverride d) (_layerNameOverride d))
             (fun ex =>
                do emit (LogError ("MBVectorTileDecoder::decodeTile: Exception while decoding: "
                                   +:+ what ex)) then
                ret None))%eff
      end
  end.

(** ** Concurrent callers of decodeFeature *)

(** Several threads inside the cache block of [decodeFeature].  The mutex
    makes the locked stretches atomic, so a thread advances by one stretch at
    a time and threads interleave between stretches. *)
Inductive Caller : Type :=
| Entering (tileData : shared_ptr BinaryData)
| Parsing (tileData : shared_ptr BinaryData)
| Installing (tileData : shared_ptr BinaryData)
             (decoder : shared_ptr MBVTFeatureDecoder)
| Holding (decoder : shared_ptr MBVTFeatureDecoder)
| Caught (ex : Exception).

Definition caller_step {TC : TileCodec} (c : Caller) : Eff Caller :=
  match c with
  | Entering tileData =>
      (let* hit := cache_lookup tileData in
       match hit with
       | Some decoder => ret (Holding decoder)
       | None => ret (Parsing tileData)
       end)%eff
  | Parsing tileData =>
      try_catch
        (let* decoder := cache_parse tileData in
         ret (Installing tileData decoder))%eff
        (fun ex => ret (Caught ex))
  | Installing tileData decoder =>
      (do cache_install tileData decoder then ret (Holding decoder))%eff
  | Holding decoder => ret (Holding decoder)
  | Caught ex => ret (Caught ex)
  end.

(** The thread with index [i] takes its next step. *)
Definition thread_step {TC : TileCodec} (i : nat) (cfg : list Caller * World)
    : list Caller * World :=
  match cfg.1 !! i with
  | None => cfg
  | Some c =>
      match caller_step c cfg.2 with
      | (Return c', w') => (<[i := c']> cfg.1, w')
      | (Throw _, w') => (cfg.1, w')
      end
  end.

(** A schedule is the sequence of thread indices that get to run. *)
Definition run_schedule {TC : TileCodec} (schedule : list nat)
    (cfg : list Caller * World) : list Caller * World :=
  fold_left (fun cfg i => thread_step i cfg) schedule cfg.

(** ** Classes of doubles *)

Definition not_nan (v : float) : bool :=
  match Prim2SF v with S754_nan => false | _ => true end.

(** Neither NaN nor an infinity. *)
Definition is_finite (v : float) : bool :=
  match Prim2SF v with
  | S754_zero _ | S754_finite _ _ _ => true
  | S754_infinity _ | S754_nan => false
  end.

(** ** Geometry types *)

Inductive WireType : Type := WirePoint | WireLine | WirePolygon.

Inductive GeometryType : Type :=
| PointType | LineType | PolygonType
| MultiPointType | MultiLineType | MultiPolygonType.

Definition wire_type (g : mvt_Geometry) : option WireType :=
  match g with
  | mvt_PointGeometry _ => Some WirePoint
  | mvt_LineGeometry _ => Some WireLine
  | mvt_PolygonGeometry _ => Some WirePolygon
  | mvt_NoGeometry => None
  end.

(** The number of parts of a wire geometry: vertices of a point geometry,
    vertex lists of a line geometry, polygons of a polygon geometry. *)
Definition wire_parts (g : mvt_Geometry) : nat :=
  match g with
  | mvt_PointGeometry vertices => length vertices
  | mvt_LineGeometry verticesList => length verticesList
  | mvt_PolygonGeometry polygonList => length polygonList
  | mvt_NoGeometry => 0
  end.

Definition geometry_type (g : Geometry) : GeometryType :=
  match g with
  | Point _ => PointType
  | Line _ => LineType
  | Polygon _ => PolygonType
  | MultiPoint _ => MultiPointType
  | MultiLine _ => MultiLineType
  | MultiPolygon _ => MultiPolygonType
  end.

Definition singular (t : WireType) : GeometryType :=
  match t with
  | WirePoint => PointType
  | WireLine => LineType
  | WirePolygon => PolygonType
  end.

Definition multi (t : WireType) : GeometryType :=
  match t with
  | WirePoint => MultiPointType
  | WireLine => MultiLineType
  | WirePolygon => MultiPolygonType
  end.

(** ** decodeFeature without its cache *)

(** The [try] block of [decodeFeature] after the cache block, on the decoder
    the cache block yields. *)
Definition decodeFeature_rest {TC : TileCodec} (decoder : MBVTFeatureDecoder)
    (id : Z) (tileBounds : MapBounds) : Outcome (option TileFeature) :=
  match getFeature decoder id with
  | Throw ex => Throw ex
  | Return None => Return None
  | Return (Some (mvtLayerName, mvtFeature)) =>
      match new_Feature
              (convertGeometry (convertFn tileBounds) (mvt_getGeometry mvtFeature))
              (convertFeatureData (mvt_getFeatureData mvtFeature)) with
      | Throw ex => Throw ex
      | Return feature =>
          Return (Some {| getId := mvt_getId mvtFeature;
                          getLayerName := mvtLayerName;
                          getFeature_ := feature |})
      end
  end.

(** What [decodeFeature] returns for a payload when the payload is parsed
    afresh: nothing for an empty payload or when anything throws. *)
Definition decodeFeature_uncached {TC : TileCodec} (id : Z) (tileData : BinaryData)
    (tileBounds : MapBounds) : option TileFeature :=
  match tileData with
  | [] => None
  | _ :: _ =>
      match new_MBVTFeatureDecoder tileData with
      | Throw _ => None
      | Return parsed =>
          match decodeFeature_rest parsed id tileBounds with
          | Throw _ => None
          | Return r => r
          end
      end
  end.

(** The cached decoder is what parsing the cached payload yields. *)
Definition cache_coherent {TC : TileCodec} (d : MBVectorTileDecoder) : Prop :=
  forall data decoder,
    _cachedFeatureDecoder d = Some (data, decoder) ->
    new_MBVTFeatureDecoder (pointee data) = Return (pointee decoder).

(** A payload pointer that compares equal to the cached one points to the
    cached bytes (payload objects are not modified once shared). *)
Definition same_payload_object (d : MBVectorTileDecoder)
    (tileData : shared_ptr BinaryData) : Prop :=
  forall data decoder,
    _cachedFeatureDecoder d = Some (data, decoder) ->
    address data = address tileData -> pointee data = pointee tileData.

(** ** The resources of an installed style *)

(** What [updateCurrentStyle] builds around the style model of [styleSet]:
    the bitmap loader on the style's directory and package, the stroke and
    glyph maps and the font manager at their fixed sizes, the fonts under
    the font prefix, and the background pattern when the style names an
    image. *)
Definition installed_resources {FE : StyleFrontEnds} {FU : FileUtils}
    (styleSet : StyleSet) (d : MBVectorTileDecoder) : Prop :=
  bitmapLoader (getBitmapManager (_symbolizerContext d))
  = {| bitmap_basePath := GetFilePath (styleAssetName styleSet);
       bitmap_assetPackage := getAssetPackage styleSet |}
  /\ getStrokeMap (_symbolizerContext d) = {| stroke_maxWidth := STROKEMAP_SIZE |}
  /\ getGlyphMap (_symbolizerContext d)
     = {| glyph_maxWidth := GLYPHMAP_SIZE; glyph_maxHeight := GLYPHMAP_SIZE |}
  /\ font_maxGlyphMapWidth (getFontManager (_symbolizerContext d)) = GLYPHMAP_SIZE
  /\ font_maxGlyphMapHeight (getFontManager (_symbolizerContext d)) = GLYPHMAP_SIZE
  /\ loadedFontData (getFontManager (_symbolizerContext d))
     = match getAssetPackage styleSet with
       | Some package =>
           omap (font_asset (fontPrefix styleSet (_map d)) package)
             (getAssetNames package)
       | None => []
       end
  /\ getBackgroundPattern d
     = if String.eqb (backgroundImage (getSettings (_map d))) "" then None
       else loadBitmapPattern (getBitmapManager (_symbolizerContext d))
              (backgroundImage (getSettings (_map d))) 1 1.

(** ** The shape of geometries *)

(** A geometry as parts of rings of vertices: a point is a part with one
    ring of one vertex, a line string a part with one ring. *)
Definition wire_structure (g : mvt_Geometry) : list (list (list vec2)) :=
  match g with
  | mvt_PointGeometry vertices => map (fun v => [[v]]) vertices
  | mvt_LineGeometry verticesList => map (fun vs => [vs]) verticesList
  | mvt_PolygonGeometry polygonList => polygonList
  | mvt_NoGeometry => []
  end.

Definition geometry_structure (g : Geometry) : list (list (list MapPos)) :=
  match g with
  | Point p => [[[getPos p]]]
  | Line l => [[getPoses l]]
  | Polygon p => [getRings p]
  | MultiPoint ps => map (fun p => [[getPos p]]) ps
  | MultiLine ls => map (fun l => [getPoses l]) ls
  | MultiPolygon ps => map getRings ps
  end.

Definition geometry_vertices (g : Geometry) : list MapPos :=
  concat (concat (geometry_structure g)).

(** ** Progress of concurrent callers *)

Definition finished (c : Caller) : bool :=
  match c with
  | Holding _ | Caught _ => true
  | Entering _ | Parsing _ | Installing _ _ => false
  end.

(** The number of stretches a caller has still to run, at most. *)
Definition steps_left (c : Caller) : nat :=
  match c with
  | Entering _ => 3
  | Parsing _ => 2
  | Installing _ _ => 1
  | Holding _ | Caught _ => 0
  end.

(** Every caller about to install holds the parse of its payload. *)
Definition callers_coherent {TC : TileCodec} (callers : list Caller) : Prop :=
  forall i tileData decoder,
    callers !! i = Some (Installing tileData decoder) ->
    new_MBVTFeatureDecoder (pointee tileData) = Return (pointee decoder).

(** ** Well-formed decoders *)

(** A value fits a parameter when it holds the alternative of the declared
    default (the declared scalar kind) or is one of the enum's values. *)
Definition fits (nutiParam : NutiParameter) (v : Value) : Prop :=
  which v = which (getDefaultValue nutiParam)
  \/ In v (map snd (getEnumMap nutiParam)).

(** The invariant of the parameter value map. *)
Definition parameter_values_ok (d : MBVectorTileDecoder) : Prop :=
  forall name v,
    _parameterValueMap d !! name = Some v ->
    exists nutiParam,
      getNutiParameterMap (_map d) !! name = Some nutiParam /\ fits nutiParam v.

(** What the C++ types give for free: integers are [long long]s and enum
    maps are [std::map]s. *)
Definition Map_wf (map : Map) : Prop :=
  forall name nutiParam,
    getNutiParameterMap map !! name = Some nutiParam ->
    Value_wf (getDefaultValue nutiParam)
    /\ EnumMap_wf (getEnumMap nutiParam)
    /\ (forall label v, In (label, v) (getEnumMap nutiParam) -> Value_wf v).

Definition decoder_wf (d : MBVectorTileDecoder) : Prop :=
  Map_wf (_map d)
  /\ parameter_values_ok d
  /\ (forall name v, _parameterValueMap d !! name = Some v -> Value_wf v).

(** Boost's two casts on doubles agree on the texts Boost itself prints:
    a printed double parses, and to a double that prints the same. *)
Definition double_cast_stable (LC : LexicalCastDouble) : Prop :=
  forall d : float,
    exists d', to_double (string_of_double d) = Some d'
               /\ string_of_double d' = string_of_double d.

(** ** Worlds that the methods end in *)

Definition log_event (e : Event) (w : World) : World :=
  {| this := this w; trace := trace w ++ [e]; next_address := next_address w |}.

(** The world after a successful assignment of [val] to [param]. *)
Definition assigned (param : string) (val : Value) (w : World) : World :=
  match storeStyleValue param val w with
  | (_, w') => log_event DecoderChanged w'
  end.

(** The value [getStyleParameter] reads for a declared parameter. *)
Definition currentValue (d : MBVectorTileDecoder) (param : string)
    (nutiParam : NutiParameter) : Value :=
  match _parameterValueMap d !! param with
  | Some v => v
  | None => getDefaultValue nutiParam
  end.

(** The decoder a miss builds from [parsed], and the world once it is
    installed for [tileData]. *)
Definition fresh_decoder (parsed : MBVTFeatureDecoder) (w : World)
    : shared_ptr MBVTFeatureDecoder :=
  {| address := next_address w; pointee := parsed |}.

Definition installed (tileData : shared_ptr BinaryData)
    (decoder : shared_ptr MBVTFeatureDecoder) (w : World) : World :=
  {| this := set_cachedFeatureDecoder (Some (tileData, decoder)) (this w);
     trace := trace w;
     next_address := next_address w |}.

Definition allocated (w : World) : World :=
  {| this := this w; trace := trace w; next_address := S (next_address w) |}.

(** Two decoders that differ in no field but the cache. *)
Definition same_but_cache (d d' : MBVectorTileDecoder) : Prop :=
  set_cachedFeatureDecoder None d = set_cachedFeatureDecoder None d'.

(** IEEE equality on specification floats, spelled out. *)
Definition SF_equal (a b : spec_float) : Prop :=
  match a, b with
  | S754_zero _, S754_zero _ => True
  | S754_infinity s1, S754_infinity s2 => s1 = s2
  | S754_finite s1 m1 e1, S754_finite s2 m2 e2 => s1 = s2 /\ m1 = m2 /\ e1 = e2
  | _, _ => False
  end.

(** ** The error taxonomy of style installation *)

(** The four kinds of error the specification names; a parse error carries
    the parser's message. *)
Inductive ErrorKind : Type :=
| InvalidConfigError
| ParseError (parserMessage : string)
| AssetError
| UnsupportedFormatError.

(** How the exceptions thrown by this file fall under the taxonomy.  The
    asset and format errors are both [GenericException]s and differ in
    their message only. *)
Definition taxonomy (e : Exception) : option ErrorKind :=
  match e with
  | NullArgumentException _ | InvalidArgumentException _ => Some InvalidConfigError
  | ParseException _ details => Some (ParseError details)
  | GenericException msg =>
      if String.eqb msg "Failed to load style description asset" then Some AssetError
      else if String.eqb msg "Failed to detect style asset type"
           then Some UnsupportedFormatError
           else None
  | bad_lexical_cast | std_exception _ => None
  end.

(** Which installation fails with which kind of error, in the order the
    checks are made: a check applies only when the earlier ones passed. *)
Inductive installation_error {FE : StyleFrontEnds} {FU : FileUtils}
    (ignored : bool) : StyleSet -> ErrorKind -> Exception -> Prop :=
| cartocss_text_malformed styleSet ex :
    loadMap "" (cartocss_getAssetPackage styleSet) ignored (getCartoCSS styleSet)
    = Throw ex ->
    installation_error ignored (CartoCSS styleSet) (ParseError (what ex))
      (ParseException "CartoCSS style parsing failed" (what ex))
| compiled_without_asset_name styleSet :
    getStyleAssetName styleSet = "" ->
    installation_error ignored (Compiled styleSet) InvalidConfigError
      (InvalidArgumentException "Could not find any styles in the style set")
| compiled_asset_missing styleSet :
    getStyleAssetName styleSet <> "" ->
    styleAsset styleSet = None ->
    installation_error ignored (Compiled styleSet) AssetError
      (GenericException "Failed to load style description asset")
| xml_document_unreadable styleSet styleData :
    getStyleAssetName styleSet <> "" ->
    styleAsset styleSet = Some styleData ->
    ends_with (getStyleAssetName styleSet) ".xml" = true ->
    load_buffer styleData = None ->
    installation_error ignored (Compiled styleSet) (ParseError "")
      (ParseException "Style element XML parsing failed" "")
| xml_style_malformed styleSet styleData doc ex :
    getStyleAssetName styleSet <> "" ->
    styleAsset styleSet = Some styleData ->
    ends_with (getStyleAssetName styleSet) ".xml" = true ->
    load_buffer styleData = Some doc ->
    parseMap doc = Throw ex ->
    installation_error ignored (Compiled styleSet) (ParseError (what ex))
      (ParseException "XML style processing failed" (what ex))
| project_malformed styleSet styleData ex :
    getStyleAssetName styleSet <> "" ->
    styleAsset styleSet = Some styleData ->
    ends_with (getStyleAssetName styleSet) ".xml" = false ->
    ends_with (getStyleAssetName styleSet) ".json" = true ->
    loadMapProject (GetFilePath (getStyleAssetName styleSet))
      (compiled_getAssetPackage styleSet) ignored (getStyleAssetName styleSet)
    = Throw ex ->
    installation_error ignored (Compiled styleSet) (ParseError (what ex))
      (ParseException "CartoCSS style parsing failed" (what ex))
| suffix_unsupported styleSet styleData :
    getStyleAssetName styleSet <> "" ->
    styleAsset styleSet = Some styleData ->
    ends_with (getStyleAssetName styleSet) ".xml" = false ->
    ends_with (getStyleAssetName styleSet) ".json" = false ->
    installation_error ignored (Compiled styleSet) UnsupportedFormatError
      (GenericException "Failed to detect style asset type").

(** ** Sample styles and collaborators, for closed examples *)

Module Fixture.

(** A stand-in for Boost's casts on doubles, for examples in which no double
    is printed or parsed: it keeps only the sign class of a number ("nan",
    "-1", "0", "1"). *)
Definition coarse_double_codec : LexicalCastDouble :=
  {| to_double := fun s =>
       if String.eqb s "nan" then Some nan
       else if String.eqb s "-1" then Some (-1)%float
       else if String.eqb s "0" then Some 0%float
       else if String.eqb s "1" then Some 1%float
       else None;
     string_of_double := fun d =>
       if PrimFloat.eqb d d then
         if PrimFloat.ltb d 0 then "-1"
         else if PrimFloat.ltb 0 d then "1" else "0"
       else "nan" |}.

Definition show_labels : NutiParameter :=
  {| getDefaultValue := VBool true; getEnumMap := [] |}.

Definition theme : NutiParameter :=
  {| getDefaultValue := VLongLong 0;
     getEnumMap := [("dark", VLongLong 1); ("light", VLongLong 0)] |}.

Definition label_size : NutiParameter :=
  {| getDefaultValue := VDouble 1; getEnumMap := [] |}.

Definition style_map : Map :=
  {| getNutiParameterMap :=
       {[ "show_labels" := show_labels; "theme" := theme;
          "label_size" := label_size ]};
     getSettings := {| backgroundColor := 0; backgroundImage := "";
                       fontDirectory := "fonts" |} |}.

(** Front-ends that accept any non-empty text, and any document that
    starts with '<', and yield [style_map]. *)
Definition front_ends : StyleFrontEnds :=
  {| loadMap := fun _ _ _ cartoCSS =>
       if String.eqb cartoCSS "" then Throw (std_exception "unexpected end of input")
       else Return style_map;
     loadMapProject := fun _ _ _ _ => Return style_map;
     xml_document := BinaryData;
     load_buffer := fun data =>
       match data with Byte.x3c :: _ => Some data | _ => None end;
     parseMap := fun _ => Return style_map;
     loadBitmapPattern := fun _ source w h =>
       Some {| pattern_source := source; pattern_widthScale := w;
               pattern_heightScale := h |} |}.

Definition file_utils : FileUtils :=
  {| GetFilePath := fun _ => ""; NormalizePath := fun path => path |}.

(** A package with one asset, "style.xml", whose bytes read "oops". *)
Definition broken_xml_package : AssetPackage :=
  {| getAssetNames := ["style.xml"];
     loadAsset := fun name =>
       if String.eqb name "style.xml"
       then Some [Byte.x6f; Byte.x6f; Byte.x70; Byte.x73]
       else None |}.

Definition broken_xml_style : CompiledStyleSet :=
  {| getStyleAssetName := "style.xml";
     compiled_getAssetPackage := Some broken_xml_package |}.

(** A style set that names "style.txt", which its package does not have. *)
Definition missing_txt_style : CompiledStyleSet :=
  {| getStyleAssetName := "style.txt";
     compiled_getAssetPackage := Some broken_xml_package |}.

Definition cartocss_style : CartoCSSStyleSet :=
  {| getCartoCSS := "#layer { line-width: 1; }"; cartocss_getAssetPackage := None |}.

(** The decoder that [construct] builds from [cartocss_style]. *)
Definition decoder : MBVectorTileDecoder :=
  let values : gmap string Value :=
    {[ "show_labels" := VBool true; "theme" := VLongLong 0;
       "label_size" := VDouble 1 ]} in
  {| _buffer := 0;
     _featureIdOverride := false;
     _cartoCSSLayerNamesIgnored := false;
     _layerNameOverride := "";
     _map := style_map;
     _parameterValueMap := values;
     _backgroundPattern := None;
     _symbolizerContext :=
       {| getBitmapManager :=
            {| bitmapLoader := {| bitmap_basePath := "";
                                  bitmap_assetPackage := None |} |};
          getFontManager :=
            {| font_maxGlyphMapWidth := GLYPHMAP_SIZE;
               font_maxGlyphMapHeight := GLYPHMAP_SIZE;
               loadedFontData := [] |};
          getStrokeMap := {| stroke_maxWidth := STROKEMAP_SIZE |};
          getGlyphMap := {| glyph_maxWidth := GLYPHMAP_SIZE;
                            glyph_maxHeight := GLYPHMAP_SIZE |};
          getSettings_ctx := {| tileSize := DEFAULT_TILE_SIZE;
                                nutiParameterValueMap := values |} |};
     _styleSet := CartoCSS cartocss_style;
     _cachedFeatureDecoder := None |}.

Definition world : World :=
  {| this := decoder; trace := []; next_address := 0 |}.

(** [world] after "label_size" was set to the text "0.1". *)
Definition world_tenth : World :=
  (setStyleParameter (LC := boost_lexical_cast) "label_size" "0.1" world).2.

(** A wire format in which a payload must start with the byte 0x1a, and
    which has three features: 1 (one point), 2 (two lines) and 3 (whose
    geometry does not decode). *)
Definition codec : TileCodec :=
  {| new_MBVTFeatureDecoder := fun data =>
       match data with
       | Byte.x1a :: _ =>
           Return {| decoder_data := data;
                     decoder_transform := [];
                     decoder_buffer := 0;
                     decoder_globalIdOverride := (false, 0) |}
       | _ => Throw (std_exception "invalid wire type")
       end;
     getFeature := fun decoder id =>
       if id =? 1 then
         Return (Some ("places",
                       {| mvt_getId := 1;
                          mvt_getGeometry := mvt_PointGeometry [(0.5, 0.25)%float];
                          mvt_getFeatureData :=
                            Some {| getVariableNames := ["name"];
                                    getVariable := fun name =>
                                      if String.eqb name "name"
                                      then Some (VString "Tartu") else None |} |}))
       else if id =? 2 then
         Return (Some ("roads",
                       {| mvt_getId := 2;
                          mvt_getGeometry :=
                            mvt_LineGeometry
                              [[(0, 0); (1, 1)]; [(0, 1); (1, 0)]]%float;
                          mvt_getFeatureData := None |}))
       else if id =? 3 then Throw (std_exception "truncated geometry")
       else Return None;
     calculateTileTransform := fun _ _ => [];
     MapTile_getTileId := fun x y zoom frame => x + y + zoom + frame;
     vt_Tile := unit;
     readTile := fun _ _ _ _ _ => Return (Some tt) |}.

(** A payload at address 100; bounds from -1 to 0.1 (the nearest double,
    0x1.999999999999ap-4) on both axes. *)
Definition payload : shared_ptr BinaryData :=
  {| address := 100; pointee := [Byte.x1a; Byte.x00] |}.

Definition tile : TileId := {| zoom := 0; x := 0; y := 0 |}.

(** The decoder object that parsing [payload] allocates at [address]. *)
Definition decoder_at (address : nat) : shared_ptr MBVTFeatureDecoder :=
  {| address := address;
     pointee := {| decoder_data := pointee payload;
                   decoder_transform := [];
                   decoder_buffer := 0;
                   decoder_globalIdOverride := (false, 0) |} |}.

(** [world] once [allocations] decoders have been allocated and [cached] is
    the decoder in the cache, for [payload]. *)
Definition world_caching (allocations : nat)
    (cached : shared_ptr MBVTFeatureDecoder) : World :=
  {| this :=
       {| _buffer := _buffer decoder;
          _featureIdOverride := _featureIdOverride decoder;
          _cartoCSSLayerNamesIgnored := _cartoCSSLayerNamesIgnored decoder;
          _layerNameOverride := _layerNameOverride decoder;
          _map := _map decoder;
          _parameterValueMap := _parameterValueMap decoder;
          _backgroundPattern := _backgroundPattern decoder;
          _symbolizerContext := _symbolizerContext decoder;
          _styleSet := _styleSet decoder;
          _cachedFeatureDecoder := Some (payload, cached) |};
     trace := [];
     next_address := allocations |}.

Definition bounds : MapBounds :=
  {| getMin := {| getX := -1; getY := -1; getZ := 0 |};
     getMax := {| getX := 0x1.999999999999ap-4; getY := 0x1.999999999999ap-4;
                  getZ := 0 |} |}.

(** Bounds from the least to the greatest finite double. *)
Definition wide_bounds : MapBounds :=
  {| getMin := {| getX := -0x1.fffffffffffffp+1023; getY := -0x1.fffffffffffffp+1023;
                  getZ := 0 |};
     getMax := {| getX := 0x1.fffffffffffffp+1023; getY := 0x1.fffffffffffffp+1023;
                  getZ := 0 |} |}.

End Fixture.

(** A precompiled style with fonts, and a style model with a text
    parameter. *)
Module Bundle.

(** A package with an XML style, a font directory entry, two fonts of which
    one fails to load, an image, and a name that only resembles the font
    directory. *)
Definition package : AssetPackage :=
  {| getAssetNames :=
       ["style.xml"; "fonts/"; "fonts/regular.ttf"; "fonts/broken.ttf";
        "images/bg.png"; "fonts.txt"];
     loadAsset := fun name =>
       if String.eqb name "style.xml" then Some [Byte.x3c; Byte.x2f; Byte.x3e]
       else if String.eqb name "fonts/" then Some []
       else if String.eqb name "fonts/regular.ttf" then Some [Byte.x00; Byte.x01]
       else if String.eqb name "images/bg.png" then Some [Byte.x89]
       else if String.eqb name "fonts.txt" then Some [Byte.x61]
       else None |}.

Definition style : CompiledStyleSet :=
  {| getStyleAssetName := "style.xml"; compiled_getAssetPackage := Some package |}.

Definition lang : NutiParameter :=
  {| getDefaultValue := VString "en"; getEnumMap := [] |}.

(** An enum in which two labels stand for the same value. *)
Definition units : NutiParameter :=
  {| getDefaultValue := VLongLong 0;
     getEnumMap := [("imperial", VLongLong 1); ("metric", VLongLong 0);
                    ("si", VLongLong 0)] |}.

(** An enum whose default is the value of none of its labels. *)
Definition mode : NutiParameter :=
  {| getDefaultValue := VLongLong 7;
     getEnumMap := [("day", VLongLong 0); ("night", VLongLong 1)] |}.

Definition style_map : Map :=
  {| getNutiParameterMap :=
       {[ "lang" := lang; "units" := units; "mode" := mode;
          "show_labels" := Fixture.show_labels ]};
     getSettings := {| backgroundColor := 4278190080; backgroundImage := "";
                       fontDirectory := "fonts" |} |}.

(** The sample decoder with [style_map] installed, at its defaults. *)
Definition decoder : MBVectorTileDecoder :=
  let values := defaultParameterValueMap style_map in
  {| _buffer := _buffer Fixture.decoder;
     _featureIdOverride := _featureIdOverride Fixture.decoder;
     _cartoCSSLayerNamesIgnored := _cartoCSSLayerNamesIgnored Fixture.decoder;
     _layerNameOverride := _layerNameOverride Fixture.decoder;
     _map := style_map;
     _parameterValueMap := values;
     _backgroundPattern := None;
     _symbolizerContext :=
       {| getBitmapManager := getBitmapManager (_symbolizerContext Fixture.decoder);
          getFontManager := getFontManager (_symbolizerContext Fixture.decoder);
          getStrokeMap := getStrokeMap (_symbolizerContext Fixture.decoder);
          getGlyphMap := getGlyphMap (_symbolizerContext Fixture.decoder);
          getSettings_ctx := {| tileSize := DEFAULT_TILE_SIZE;
                                nutiParameterValueMap := values |} |};
     _styleSet := _styleSet Fixture.decoder;
     _cachedFeatureDecoder := None |}.

Definition world : World :=
  {| this := decoder; trace := []; next_address := 0 |}.

(** A wire format whose features depend on the payload: the payload
    [0x1a; n] holds the one feature with id n, a point geometry of n
    vertices. *)
Definition codec : TileCodec :=
  {| new_MBVTFeatureDecoder := new_MBVTFeatureDecoder (TileCodec := Fixture.codec);
     getFeature := fun decoder id =>
       match decoder_data decoder with
       | [Byte.x1a; b] =>
           if id =? Z.of_N (Byte.to_N b) then
             Return (Some ("points",
                           {| mvt_getId := id;
                              mvt_getGeometry :=
                                mvt_PointGeometry
                                  (repeat (0.5, 0.5)%float (N.to_nat (Byte.to_N b)));
                              mvt_getFeatureData := None |}))
           else Return None
       | _ => Return None
       end;
     calculateTileTransform := calculateTileTransform (TileCodec := Fixture.codec);
     MapTile_getTileId := MapTile_getTileId (TileCodec := Fixture.codec);
     vt_Tile := unit;
     readTile := fun _ _ _ _ _ => Return (Some tt) |}.

Definition one_point : shared_ptr BinaryData :=
  {| address := 101; pointee := [Byte.x1a; Byte.x01] |}.

Definition two_points : shared_ptr BinaryData :=
  {| address := 102; pointee := [Byte.x1a; Byte.x02] |}.

(** The sample world after a lookup in [one_point]: its decoder is cached. *)
Definition world_after_one_point : World :=
  (decodeFeature (TC := codec) 1 Fixture.tile (Some one_point) Fixture.bounds world).2.

End Bundle.

(** * Properties *)

(** ** Boost's casts on sample texts *)

Example to_bool_1 : lexical_cast.to_bool "1" = Some true.
Proof. reflexivity. Qed.

Example to_bool_true : lexical_cast.to_bool "true" = None.
Proof. reflexivity. Qed.

Example to_bool_minus_0 : lexical_cast.to_bool "-0" = Some false.
Proof. reflexivity. Qed.

Example to_bool_minus_1 : lexical_cast.to_bool "-1" = None.
Proof. reflexivity. Qed.

Example to_long_long_min :
  lexical_cast.to_long_long "-9223372036854775808" = Some LLONG_MIN.
Proof. reflexivity. Qed.

Example to_long_long_overflow :
  lexical_cast.to_long_long "9223372036854775808" = None.
Proof. reflexivity. Qed.

Example to_long_long_plus : lexical_cast.to_long_long "+007" = Some 7.
Proof. reflexivity. Qed.

Example string_of_long_long_neg : lexical_cast.string_of_long_long (-1205) = "-1205".
Proof. reflexivity. Qed.

Example string_of_long_long_zero : lexical_cast.string_of_long_long 0 = "0".
Proof. reflexivity. Qed.

Example ends_with_xml : ends_with "styles/voyager.xml" ".xml" = true.
Proof. reflexivity. Qed.

Example ends_with_short : ends_with "xml" ".xml" = false.
Proof. reflexivity. Qed.

(** ** The sample decoder is the one the constructor builds *)

Lemma fixture_decoder_constructed :
  new_from_CartoCSSStyleSet (FE := Fixture.front_ends) (FU := Fixture.file_utils)
    (Some Fixture.cartocss_style) = Return Fixture.decoder.
Proof. vm_compute. reflexivity. Qed.

(** ** setStyleParameter, case by case *)

Section StyleParameters.
Context {LC : LexicalCastDouble}.

Lemma assigned_values param val w :
  _parameterValueMap (this (assigned param val w))
  = <[param := val]> (_parameterValueMap (this w)).
Proof. reflexivity. Qed.

Lemma assigned_map param val w : _map (this (assigned param val w)) = _map (this w).
Proof. reflexivity. Qed.

Lemma assigned_trace param val w :
  trace (assigned param val w) = (trace w ++ [DecoderChanged])%list.
Proof. reflexivity. Qed.

Lemma setStyleParameter_unknown param value w :
  getNutiParameterMap (_map (this w)) !! param = None ->
  setStyleParameter param value w
  = (Return false,
     log_event
       (LogInfo ("MBVectorTileDecoder::setStyleParameter: Could not find parameter: "
                 +:+ param)) w).
Proof.
  intros Hnone. unfold setStyleParameter, bind, get_this. simpl.
  rewrite Hnone. reflexivity.
Qed.

Lemma setStyleParameter_enum_miss param value nutiParam w :
  getNutiParameterMap (_map (this w)) !! param = Some nutiParam ->
  getEnumMap nutiParam <> [] ->
  enum_find value (getEnumMap nutiParam) = None ->
  setStyleParameter param value w
  = (Return false,
     log_event
       (LogInfo ("MBVectorTileDecoder::setStyleParameter: Illegal enum value for parameter: "
                 +:+ param +:+ "/" +:+ value)) w).
Proof.
  intros Hsome Hne Hfind. unfold setStyleParameter, bind, get_this. simpl.
  rewrite Hsome. destruct (getEnumMap nutiParam) as [|e m] eqn:He; [done|].
  rewrite Hfind. reflexivity.
Qed.

Lemma setStyleParameter_enum_hit param value nutiParam val w :
  getNutiParameterMap (_map (this w)) !! param = Some nutiParam ->
  getEnumMap nutiParam <> [] ->
  enum_find value (getEnumMap nutiParam) = Some val ->
  setStyleParameter param value w = (Return true, assigned param val w).
Proof.
  intros Hsome Hne Hfind. unfold setStyleParameter, bind, get_this. simpl.
  rewrite Hsome. destruct (getEnumMap nutiParam) as [|e m] eqn:He; [done|].
  rewrite Hfind. reflexivity.
Qed.

Lemma setStyleParameter_scalar param value nutiParam val w :
  getNutiParameterMap (_map (this w)) !! param = Some nutiParam ->
  getEnumMap nutiParam = [] ->
  parseStyleValue (getDefaultValue nutiParam) value = Return val ->
  setStyleParameter param value w = (Return true, assigned param val w).
Proof.
  intros Hsome He Hparse. unfold setStyleParameter, bind, get_this, lift. simpl.
  rewrite Hsome, He, Hparse. reflexivity.
Qed.

Lemma setStyleParameter_scalar_throws param value nutiParam ex w :
  getNutiParameterMap (_map (this w)) !! param = Some nutiParam ->
  getEnumMap nutiParam = [] ->
  parseStyleValue (getDefaultValue nutiParam) value = Throw ex ->
  setStyleParameter param value w = (Throw ex, w).
Proof.
  intros Hsome He Hparse. unfold setStyleParameter, bind, get_this, lift. simpl.
  rewrite Hsome, He, Hparse. reflexivity.
Qed.

(** C10: for a name the style does not declare, [getStyleParameter] throws
    [InvalidArgumentException] (no empty or default string comes back),
    while [setStyleParameter] returns false for the same name. *)
Theorem getStyleParameter_unknown_throws (w : World) (name value : string) :
  getNutiParameterMap (_map (this w)) !! name = None ->
  getStyleParameter (this w) name
  = Throw (InvalidArgumentException "Could not find parameter")
  /\ (setStyleParameter name value w).1 = Return false.
Proof.
  intros Hnone. split.
  - unfold getStyleParameter. rewrite Hnone. reflexivity.
  - rewrite setStyleParameter_unknown by assumption. reflexivity.
Qed.

End StyleParameters.

Lemma getStyleParameter_unknown_throws_witness :
  getStyleParameter (LC := Fixture.coarse_double_codec) (this Fixture.world) "contours"
  = Throw (InvalidArgumentException "Could not find parameter")
  /\ (setStyleParameter (LC := Fixture.coarse_double_codec) "contours" "on"
        Fixture.world).1 = Return false.
Proof.
  apply (getStyleParameter_unknown_throws (LC := Fixture.coarse_double_codec)
           Fixture.world "contours" "on").
  vm_compute. reflexivity.
Defined.

(** C1 (the failing input): a boolean parameter given a text that is neither
    "true"/"false" nor a Boost boolean: the cast throws and nothing catches
    it; the object and the trace are as before. *)
Lemma setStyleParameter_bad_boolean_throws :
  setStyleParameter (LC := Fixture.coarse_double_codec) "show_labels" "maybe"
    Fixture.world
  = (Throw bad_lexical_cast, Fixture.world).
Proof. vm_compute. reflexivity. Qed.

(** The same for an integer parameter. *)
Lemma parseStyleValue_bad_integer_throws :
  parseStyleValue (LC := Fixture.coarse_double_codec) (VLongLong 0) "12px"
  = Throw bad_lexical_cast.
Proof. vm_compute. reflexivity. Qed.

(** ** What installation leaves in the parameter value map *)

Lemma defaultParameterValueMap_lookup (map : Map) (name : string) :
  defaultParameterValueMap map !! name
  = getDefaultValue <$> getNutiParameterMap map !! name.
Proof.
  unfold defaultParameterValueMap.
  apply (map_fold_weak_ind
           (fun (values : gmap string Value) (m : gmap string NutiParameter) =>
              values !! name = getDefaultValue <$> m !! name)).
  - rewrite !lookup_empty. reflexivity.
  - intros i p m r _ IH.
    destruct (decide (i = name)) as [->|Hne].
    + rewrite !lookup_insert_eq. reflexivity.
    + rewrite !lookup_insert_ne by assumption. exact IH.
Qed.

Section Installation.
Context {FE : StyleFrontEnds} {FU : FileUtils}.

Lemma loadCurrentStyle_values ignored styleSet cs :
  loadCurrentStyle ignored styleSet = Return cs ->
  cs_parameterValueMap cs = defaultParameterValueMap (cs_map cs).
Proof.
  unfold loadCurrentStyle.
  destruct (loadStyleMap ignored styleSet) as [[[name data] map]|e]; [|discriminate].
  intros [= <-]. reflexivity.
Qed.

Lemma construct_values styleSet d :
  construct styleSet = Return d ->
  _parameterValueMap d = defaultParameterValueMap (_map d).
Proof.
  unfold construct.
  destruct (loadCurrentStyle false styleSet) as [cs|e] eqn:Hload; [|discriminate].
  intros [= <-]. simpl. eapply loadCurrentStyle_values, Hload.
Qed.

(** [updateCurrentStyle] either assigns the loaded style or throws and
    leaves the world as it was. *)
Lemma updateCurrentStyle_cases styleSet w :
  (exists cs,
      loadCurrentStyle (_cartoCSSLayerNamesIgnored (this w)) styleSet = Return cs
      /\ exists w', updateCurrentStyle styleSet w = (Return tt, w')
         /\ _map (this w') = cs_map cs
         /\ _parameterValueMap (this w') = cs_parameterValueMap cs
         /\ trace w' = trace w)
  \/ (exists e,
      loadCurrentStyle (_cartoCSSLayerNamesIgnored (this w)) styleSet = Throw e
      /\ updateCurrentStyle styleSet w = (Throw e, w)).
Proof.
  unfold updateCurrentStyle, bind, get_this, lift, put_this. simpl.
  destruct (loadCurrentStyle _ styleSet) as [cs|e].
  - left. exists cs. split; [reflexivity|]. eexists. split; [reflexivity|]. auto.
  - right. exists e. auto.
Qed.

End Installation.

(** ** The boolean scenario *)

(** C2 (as the code has it): right after installation the boolean parameter
    reads "1", Boost's text for [true]. *)
Lemma show_labels_reads_1 :
  getStyleParameter (LC := Fixture.coarse_double_codec) Fixture.decoder "show_labels"
  = Return "1".
Proof. vm_compute. reflexivity. Qed.

Section ShowLabels.
Context {LC : LexicalCastDouble} {FE : StyleFrontEnds} {FU : FileUtils}.

(** C2, amended: for a style that declares the boolean parameter
    "show_labels" with default true, the freshly constructed decoder reads
    it as "1"; setting it to "false" returns true and fires exactly one
    decoder-changed notification (and logs nothing); it then reads "0". *)
Theorem show_labels_scenario (styleSet : StyleSet) (w : World) :
  construct styleSet = Return (this w) ->
  getNutiParameterMap (_map (this w)) !! "show_labels"
  = Some {| getDefaultValue := VBool true; getEnumMap := [] |} ->
  getStyleParameter (this w) "show_labels" = Return "1"
  /\ exists w',
      setStyleParameter "show_labels" "false" w = (Return true, w')
      /\ trace w' = (trace w ++ [DecoderChanged])%list
      /\ getStyleParameter (this w') "show_labels" = Return "0".
Proof.
  intros Hnew Hdecl. split.
  - unfold getStyleParameter. rewrite Hdecl.
    rewrite (construct_values _ _ Hnew), defaultParameterValueMap_lookup, Hdecl.
    reflexivity.
  - exists (assigned "show_labels" (VBool false) w). split; [|split].
    + eapply setStyleParameter_scalar; [exact Hdecl|reflexivity|reflexivity].
    + apply assigned_trace.
    + unfold getStyleParameter. rewrite assigned_map, Hdecl, assigned_values.
      rewrite lookup_insert_eq. reflexivity.
Qed.

End ShowLabels.

Lemma show_labels_scenario_witness :
  getStyleParameter (LC := Fixture.coarse_double_codec) (this Fixture.world)
    "show_labels" = Return "1"
  /\ exists w',
      setStyleParameter (LC := Fixture.coarse_double_codec) "show_labels" "false"
        Fixture.world = (Return true, w')
      /\ trace w' = (trace Fixture.world ++ [DecoderChanged])%list
      /\ getStyleParameter (LC := Fixture.coarse_double_codec) (this w')
           "show_labels" = Return "0".
Proof.
  apply (show_labels_scenario (FE := Fixture.front_ends) (FU := Fixture.file_utils)
           (CartoCSS Fixture.cartocss_style) Fixture.world).
  - vm_compute. reflexivity.
  - vm_compute. reflexivity.
Defined.

(** ** The invariant of the parameter value map *)

Lemma enum_find_In key (m : EnumMap) v :
  enum_find key m = Some v -> In (key, v) m.
Proof.
  induction m as [|[k v'] m IH]; simpl; [discriminate|].
  destruct (String.eqb k key) eqn:Hk.
  - apply String.eqb_eq in Hk. intros [= ->]. subst. auto.
  - auto.
Qed.

Section Invariant.
Context {LC : LexicalCastDouble} {FE : StyleFrontEnds} {FU : FileUtils}.

Lemma parseStyleValue_kind default value val :
  parseStyleValue default value = Return val -> which val = which default.
Proof.
  unfold parseStyleValue. destruct default; simpl.
  - intros [= <-]. reflexivity.
  - destruct (String.eqb value "true"); [intros [= <-]; reflexivity|].
    destruct (String.eqb value "false"); [intros [= <-]; reflexivity|].
    destruct (lexical_cast.to_bool value); [intros [= <-]; reflexivity|discriminate].
  - destruct (lexical_cast.to_long_long value); [intros [= <-]; reflexivity|discriminate].
  - destruct (to_double value); [intros [= <-]; reflexivity|discriminate].
  - intros [= <-]. reflexivity.
Qed.

(** Every outcome of [setStyleParameter]: the world is untouched but for a
    log line, or untouched with an exception in flight, or the parameter was
    assigned a value that fits it. *)
Lemma setStyleParameter_cases param value w :
  (exists msg, setStyleParameter param value w = (Return false, log_event (LogInfo msg) w))
  \/ (exists ex, setStyleParameter param value w = (Throw ex, w))
  \/ (exists nutiParam val,
        getNutiParameterMap (_map (this w)) !! param = Some nutiParam
        /\ fits nutiParam val
        /\ setStyleParameter param value w = (Return true, assigned param val w)).
Proof.
  destruct (getNutiParameterMap (_map (this w)) !! param) as [nutiParam|] eqn:Hdecl.
  - destruct (getEnumMap nutiParam) as [|e m] eqn:Henum.
    + destruct (parseStyleValue (getDefaultValue nutiParam) value) as [val|ex] eqn:Hparse.
      * right. right. exists nutiParam, val. split; [reflexivity|]. split.
        -- left. eapply parseStyleValue_kind, Hparse.
        -- eapply setStyleParameter_scalar; eassumption.
      * right. left. exists ex. eapply setStyleParameter_scalar_throws; eassumption.
    + destruct (enum_find value (getEnumMap nutiParam)) as [val|] eqn:Hfind.
      * right. right. exists nutiParam, val. split; [reflexivity|]. split.
        -- right. apply in_map_iff. exists (value, val). split; [reflexivity|].
           apply enum_find_In, Hfind.
        -- eapply setStyleParameter_enum_hit; [eassumption|congruence|assumption].
      * left. eexists. eapply setStyleParameter_enum_miss; [eassumption|congruence|assumption].
  - left. eexists. apply setStyleParameter_unknown, Hdecl.
Qed.

Lemma defaults_ok (map : Map) d :
  _map d = map -> _parameterValueMap d = defaultParameterValueMap map ->
  parameter_values_ok d.
Proof.
  intros Hmap Hvalues name v. rewrite Hvalues, Hmap, defaultParameterValueMap_lookup.
  destruct (getNutiParameterMap map !! name) as [nutiParam|]; [|discriminate].
  intros [= <-]. exists nutiParam. split; [reflexivity|]. left. reflexivity.
Qed.

Lemma construct_ok styleSet d : construct styleSet = Return d -> parameter_values_ok d.
Proof.
  intros Hnew. eapply defaults_ok; [reflexivity|]. eapply construct_values, Hnew.
Qed.

Lemma updateCurrentStyle_ok styleSet w :
  parameter_values_ok (this w) ->
  parameter_values_ok (this (updateCurrentStyle styleSet w).2).
Proof.
  intros Hok.
  destruct (updateCurrentStyle_cases styleSet w)
    as [(cs & Hload & w' & -> & Hmap & Hvalues & _)|(e & _ & ->)]; [|exact Hok].
  simpl. eapply defaults_ok; [exact Hmap|].
  rewrite Hvalues. eapply loadCurrentStyle_values, Hload.
Qed.

Lemma setStyleParameter_ok param value w :
  parameter_values_ok (this w) ->
  parameter_values_ok (this (setStyleParameter param value w).2).
Proof.
  intros Hok.
  destruct (setStyleParameter_cases param value w)
    as [[msg ->]|[[ex ->]|(nutiParam & val & Hdecl & Hfits & ->)]];
    [exact Hok|exact Hok|].
  cbn [snd]. intros name v. rewrite assigned_values, assigned_map.
  destruct (decide (param = name)) as [<-|Hne].
  - rewrite lookup_insert_eq. intros [= <-]. eauto.
  - rewrite lookup_insert_ne by assumption. apply Hok.
Qed.

(** C8: every key of the parameter value map is a declared parameter name and
    every stored value is of that parameter's declared kind or a member of
    its enum domain: the constructors establish this, and both style
    setters and [setStyleParameter] preserve it, whatever their outcome. *)
Theorem parameter_value_map_invariant (w : World) :
  parameter_values_ok (this w) ->
  (forall compiled d,
      new_from_CompiledStyleSet compiled = Return d -> parameter_values_ok d)
  /\ (forall cartoCSS d,
      new_from_CartoCSSStyleSet cartoCSS = Return d -> parameter_values_ok d)
  /\ (forall compiled, parameter_values_ok (this (setCompiledStyleSet compiled w).2))
  /\ (forall cartoCSS, parameter_values_ok (this (setCartoCSSStyleSet cartoCSS w).2))
  /\ (forall param value, parameter_values_ok (this (setStyleParameter param value w).2)).
Proof.
  intros Hok. repeat split.
  - intros [styleSet|] d; simpl; [apply construct_ok|discriminate].
  - intros [styleSet|] d; simpl; [apply construct_ok|discriminate].
  - intros [styleSet|]; simpl; [|exact Hok].
    pose proof (updateCurrentStyle_ok (Compiled styleSet) w Hok) as Hupd.
    unfold bind. destruct (updateCurrentStyle (Compiled styleSet) w) as [[[]|e] w']; exact Hupd.
  - intros [styleSet|]; simpl; [|exact Hok].
    pose proof (updateCurrentStyle_ok (CartoCSS styleSet) w Hok) as Hupd.
    unfold bind. destruct (updateCurrentStyle (CartoCSS styleSet) w) as [[[]|e] w']; exact Hupd.
  - intros param value. apply setStyleParameter_ok, Hok.
Qed.

End Invariant.

Lemma parameter_value_map_invariant_witness :
  parameter_values_ok (this Fixture.world)
  /\ (forall param value,
        parameter_values_ok
          (this (setStyleParameter (LC := Fixture.coarse_double_codec) param value
                   Fixture.world).2)).
Proof.
  assert (Hok : parameter_values_ok (this Fixture.world)).
  { apply (construct_ok (FE := Fixture.front_ends) (FU := Fixture.file_utils)
             (CartoCSS Fixture.cartocss_style)).
    vm_compute. reflexivity. }
  split; [exact Hok|].
  apply (parameter_value_map_invariant (LC := Fixture.coarse_double_codec)
           (FE := Fixture.front_ends) (FU := Fixture.file_utils) Fixture.world Hok).
Defined.

(** ** Boost's integer and boolean casts undo each other *)

Module lexical_cast_facts.
Import lexical_cast.

Lemma digit_cases (d : Z) :
  0 <= d < 10 ->
  d = 0 \/ d = 1 \/ d = 2 \/ d = 3 \/ d = 4 \/ d = 5 \/ d = 6 \/ d = 7 \/ d = 8 \/ d = 9.
Proof. lia. Qed.

Lemma digit_of_ascii_of_digit (d : Z) :
  0 <= d < 10 -> digit_of_ascii (ascii_of_digit d) = Some d.
Proof.
  intros Hd. destruct (digit_cases d Hd) as [->|[->|[->|[->|[->|[->|[->|[->|[->| ->]]]]]]]]];
    reflexivity.
Qed.

Lemma ascii_of_digit_not_sign (d : Z) :
  0 <= d < 10 ->
  Ascii.eqb (ascii_of_digit d) "-" = false /\ Ascii.eqb (ascii_of_digit d) "+" = false.
Proof.
  intros Hd. destruct (digit_cases d Hd) as [->|[->|[->|[->|[->|[->|[->|[->|[->| ->]]]]]]]]];
    split; reflexivity.
Qed.

Lemma parse_digits_step (a d : Z) (s : string) :
  0 <= d < 10 ->
  parse_digits a (String (ascii_of_digit d) s) = parse_digits (10 * a + d) s.
Proof. intros Hd. simpl. rewrite digit_of_ascii_of_digit by assumption. reflexivity. Qed.

(** Parsing what [put_unsigned] wrote in front of [acc] shifts the
    accumulator by the digits written and then goes on with [acc]. *)
Lemma parse_put_unsigned (room : nat) :
  forall (n : Z) (acc : string),
    0 <= n < 10 ^ Z.of_nat room ->
    exists k, 0 <= k /\ forall a,
      parse_digits a (put_unsigned room n acc) = parse_digits (a * 10 ^ k + n) acc.
Proof.
  induction room as [|room IH]; intros n acc Hn.
  - change (10 ^ Z.of_nat 0) with 1 in Hn. exists 0. split; [lia|]. intros a.
    cbn [put_unsigned]. f_equal. lia.
  - cbn [put_unsigned].
    assert (Hmod : 0 <= n mod 10 < 10) by (apply Z.mod_pos_bound; lia).
    destruct (n / 10 =? 0) eqn:Hdiv.
    + apply Z.eqb_eq in Hdiv. exists 1. split; [lia|]. intros a.
      rewrite parse_digits_step by assumption.
      f_equal. pose proof (Z.div_mod n 10). lia.
    + apply Z.eqb_neq in Hdiv.
      assert (Hq : 0 <= n / 10 < 10 ^ Z.of_nat room).
      { rewrite Nat2Z.inj_succ, Z.pow_succ_r in Hn by lia.
        split; [apply Z.div_pos; lia|].
        apply Z.div_lt_upper_bound; lia. }
      destruct (IH (n / 10) (String (ascii_of_digit (n mod 10)) acc) Hq)
        as (k & Hk & Hparse).
      exists (k + 1). split; [lia|]. intros a.
      rewrite Hparse, parse_digits_step by assumption.
      f_equal. rewrite Z.pow_add_r by lia.
      pose proof (Z.div_mod n 10). lia.
Qed.

(** [put_unsigned] with room to write starts with a digit. *)
Lemma put_unsigned_head (room : nat) :
  forall (n : Z) (acc : string),
    exists d rest, 0 <= d < 10
                   /\ put_unsigned (S room) n acc = String (ascii_of_digit d) rest.
Proof.
  induction room as [|room IH]; intros n acc.
  - exists (n mod 10), acc. split; [apply Z.mod_pos_bound; lia|].
    simpl. destruct (n / 10 =? 0); reflexivity.
  - cbn [put_unsigned]. destruct (n / 10 =? 0).
    + exists (n mod 10), acc. split; [apply Z.mod_pos_bound; lia|reflexivity].
    + apply IH.
Qed.

Lemma ret_unsigned_put_unsigned (n : Z) :
  0 <= n < 10 ^ 20 -> ret_unsigned (put_unsigned 20 n "") = Some n.
Proof.
  intros Hn.
  destruct (put_unsigned_head 19 n "") as (d & rest & Hd & Hhead).
  unfold ret_unsigned. rewrite Hhead, <- Hhead.
  destruct (parse_put_unsigned 20 n "") as (k & Hk & Hparse); [exact Hn|].
  rewrite Hparse. simpl. reflexivity.
Qed.

Lemma to_long_long_string_of_long_long (n : Z) :
  is_long_long n -> to_long_long (string_of_long_long n) = Some n.
Proof.
  unfold is_long_long, LLONG_MIN, LLONG_MAX, string_of_long_long. intros Hn.
  destruct (n <? 0) eqn:Hneg.
  - apply Z.ltb_lt in Hneg. unfold to_long_long.
    change (Ascii.eqb "-" "-") with true. cbn [orb].
    rewrite ret_unsigned_put_unsigned by lia.
    replace (- n <=? 2 ^ 63) with true by (symmetry; apply Z.leb_le; lia).
    f_equal. lia.
  - apply Z.ltb_ge in Hneg.
    destruct (put_unsigned_head 19 n "") as (d & rest & Hd & Hhead).
    destruct (ascii_of_digit_not_sign d Hd) as [Hminus Hplus].
    unfold to_long_long. rewrite Hhead, Hminus, Hplus. cbn [orb]. rewrite <- Hhead.
    rewrite ret_unsigned_put_unsigned by lia.
    unfold LLONG_MAX.
    replace (n <=? 2 ^ 63 - 1) with true by (symmetry; apply Z.leb_le; lia).
    reflexivity.
Qed.

Lemma parse_digits_nonneg (t : string) :
  forall a r, 0 <= a -> parse_digits a t = Some r -> 0 <= r.
Proof.
  induction t as [|c t IH]; simpl; intros a r Ha.
  - intros [= <-]. exact Ha.
  - unfold digit_of_ascii.
    destruct ((48 <=? Z.of_N (N_of_ascii c)) && (Z.of_N (N_of_ascii c) <=? 57)) eqn:Hc;
      [|discriminate].
    apply andb_true_iff in Hc. destruct Hc as [H1 H2].
    apply Z.leb_le in H1. apply IH. lia.
Qed.

Lemma ret_unsigned_nonneg (t : string) (r : Z) : ret_unsigned t = Some r -> 0 <= r.
Proof.
  unfold ret_unsigned. destruct t; [discriminate|].
  apply parse_digits_nonneg. lia.
Qed.

Lemma to_long_long_range (s : string) (n : Z) :
  to_long_long s = Some n -> is_long_long n.
Proof.
  unfold to_long_long, is_long_long, LLONG_MIN, LLONG_MAX.
  destruct s as [|c s']; [discriminate|].
  destruct (ret_unsigned _) as [m|] eqn:Hm; [|discriminate].
  apply ret_unsigned_nonneg in Hm.
  destruct (Ascii.eqb c "-").
  - destruct (m <=? 2 ^ 63) eqn:Hle; [|discriminate].
    apply Z.leb_le in Hle. intros [= <-]. lia.
  - destruct (m <=? 2 ^ 63 - 1) eqn:Hle; [|discriminate].
    apply Z.leb_le in Hle. intros [= <-]. lia.
Qed.

Lemma to_bool_string_of_bool (b : bool) : to_bool (string_of_bool b) = Some b.
Proof. destruct b; reflexivity. Qed.

End lexical_cast_facts.

(** ** Equality of values *)

Module Value_facts.

Lemma finite_compare_eq (e1 e2 : Z) (m1 m2 : positive) :
  match Z.compare e1 e2 with
  | Eq => Pos.compare_cont Eq m1 m2
  | Lt => Lt
  | Gt => Gt
  end = Eq <-> m1 = m2 /\ e1 = e2.
Proof.
  fold (Pos.compare m1 m2).
  destruct (Z.compare_spec e1 e2) as [He|He|He].
  - rewrite Pos.compare_eq_iff. intuition.
  - split; [discriminate|]. lia.
  - split; [discriminate|]. lia.
Qed.

Lemma finite_compare_opp_eq (e1 e2 : Z) (m1 m2 : positive) :
  match Z.compare e1 e2 with
  | Eq => CompOpp (Pos.compare_cont Eq m1 m2)
  | Lt => Gt
  | Gt => Lt
  end = Eq <-> m1 = m2 /\ e1 = e2.
Proof.
  fold (Pos.compare m1 m2).
  destruct (Z.compare_spec e1 e2) as [He|He|He].
  - destruct (Pos.compare_spec m1 m2); simpl; split; try discriminate; try lia; intuition.
  - split; [discriminate|]. lia.
  - split; [discriminate|]. lia.
Qed.

Lemma SFeqb_true_iff (a b : spec_float) : SFeqb a b = true <-> SF_equal a b.
Proof.
  destruct a as [s1|s1| |s1 m1 e1], b as [s2|s2| |s2 m2 e2]; unfold SFeqb; simpl;
    try (destruct s1; try destruct s2; simpl; intuition congruence);
    try (intuition congruence).
  destruct s1, s2; simpl.
  - pose proof (finite_compare_opp_eq e1 e2 m1 m2) as H.
    destruct (match (e1 ?= e2)%Z with
              | Eq => CompOpp (Pos.compare_cont Eq m1 m2) | Lt => Gt | Gt => Lt
              end);
      intuition congruence.
  - intuition congruence.
  - intuition congruence.
  - pose proof (finite_compare_eq e1 e2 m1 m2) as H.
    destruct (match (e1 ?= e2)%Z with
              | Eq => Pos.compare_cont Eq m1 m2 | Lt => Lt | Gt => Gt
              end);
      intuition congruence.
Qed.

Lemma SF_equal_sym a b : SF_equal a b -> SF_equal b a.
Proof. destruct a, b; simpl; intuition congruence. Qed.

Lemma SF_equal_trans a b c : SF_equal a b -> SF_equal b c -> SF_equal a c.
Proof. destruct a, b, c; simpl; intuition congruence. Qed.

Lemma float_eqb_sym (a b : float) : PrimFloat.eqb a b = true -> PrimFloat.eqb b a = true.
Proof. rewrite !FloatAxioms.eqb_spec, !SFeqb_true_iff. apply SF_equal_sym. Qed.

Lemma float_eqb_trans (a b c : float) :
  PrimFloat.eqb a b = true -> PrimFloat.eqb b c = true -> PrimFloat.eqb a c = true.
Proof. rewrite !FloatAxioms.eqb_spec, !SFeqb_true_iff. apply SF_equal_trans. Qed.

Lemma Value_eqb_sym (a b : Value) : Value_eqb a b = true -> Value_eqb b a = true.
Proof.
  destruct a, b; simpl; try discriminate; try reflexivity.
  - rewrite !Bool.eqb_true_iff. congruence.
  - rewrite !Z.eqb_eq. congruence.
  - apply float_eqb_sym.
  - rewrite !String.eqb_eq. congruence.
Qed.

Lemma Value_eqb_trans (a b c : Value) :
  Value_eqb a b = true -> Value_eqb b c = true -> Value_eqb a c = true.
Proof.
  destruct a, b, c; simpl; try discriminate; try reflexivity.
  - rewrite !Bool.eqb_true_iff. congruence.
  - rewrite !Z.eqb_eq. congruence.
  - apply float_eqb_trans.
  - rewrite !String.eqb_eq. congruence.
Qed.

(** Values equal to each other compare alike with any third value. *)
Lemma Value_eqb_congr (a b c : Value) :
  Value_eqb a b = true -> Value_eqb c a = Value_eqb c b.
Proof.
  intros Hab.
  destruct (Value_eqb c a) eqn:Hca, (Value_eqb c b) eqn:Hcb; try reflexivity.
  - rewrite (Value_eqb_trans c a b Hca Hab) in Hcb. discriminate.
  - rewrite (Value_eqb_trans c b a Hcb (Value_eqb_sym a b Hab)) in Hca. discriminate.
Qed.

End Value_facts.

(** ** Enum maps *)

Module EnumMap_facts.

Lemma compare_refl (s : string) : String.compare s s = Eq.
Proof.
  pose proof (String.compare_antisym s s) as H.
  destruct (String.compare s s); simpl in H; congruence.
Qed.

Lemma ltb_irrefl (s : string) : String.ltb s s = false.
Proof. unfold String.ltb. rewrite compare_refl. reflexivity. Qed.

Lemma ltb_empty (s : string) : String.ltb s "" = false.
Proof. destruct s; reflexivity. Qed.

Lemma find_agree {A} (f g : A -> bool) (l : list A) :
  (forall a, In a l -> f a = g a) -> find f l = find g l.
Proof.
  induction l as [|a l IH]; intros Hfg; simpl; [reflexivity|].
  rewrite <- (Hfg a) by (left; reflexivity).
  destruct (f a); [reflexivity|]. apply IH. intros b Hb. apply Hfg. right. exact Hb.
Qed.

(** [find] by key returns the value of the entry with that key. *)
Lemma enum_find_entry (m : EnumMap) (key : string) (v : Value) :
  EnumMap_wf m -> In (key, v) m -> enum_find key m = Some v.
Proof.
  unfold EnumMap_wf. induction 1 as [|[k v'] m Hsorted IH Hhead]; intros Hin; [destruct Hin|].
  simpl. destruct (String.eqb k key) eqn:Hk.
  - apply String.eqb_eq in Hk. subst k.
    destruct Hin as [[= ->]|Hin]; [reflexivity|].
    rewrite List.Forall_forall in Hhead. specialize (Hhead _ Hin). simpl in Hhead.
    rewrite ltb_irrefl in Hhead. discriminate.
  - destruct Hin as [[= -> ->]|Hin]; [|auto].
    rewrite String.eqb_refl in Hk. discriminate.
Qed.

(** The empty label, when present, is the first entry. *)
Lemma empty_label_first (m : EnumMap) (v : Value) :
  EnumMap_wf m -> In ("", v) m -> exists rest, m = ("", v) :: rest.
Proof.
  unfold EnumMap_wf. intros Hsorted Hin.
  destruct Hsorted as [|[k v'] m Hsorted Hhead]; [destruct Hin|].
  destruct Hin as [[= -> ->]|Hin]; [eauto|].
  rewrite List.Forall_forall in Hhead. specialize (Hhead _ Hin). simpl in Hhead.
  rewrite ltb_empty in Hhead. discriminate.
Qed.

End EnumMap_facts.

(** ** A printed double parses back to itself *)

Module double_cast_facts.
Import lexical_cast_double.

(** *** Searching downwards *)

Lemma find_down_spec (P : Z -> bool) (fuel : nat) (x : Z) :
  x - Z.of_nat fuel <= find_down P fuel x <= x
  /\ (forall z, find_down P fuel x < z <= x -> P z = false)
  /\ (x - Z.of_nat fuel < find_down P fuel x -> P (find_down P fuel x) = true).
Proof.
  revert x. induction fuel as [|fuel IH]; intros x.
  - cbn [find_down]. repeat split; lia.
  - cbn [find_down]. destruct (P x) eqn:HP.
    + repeat split; try lia. intros _. exact HP.
    + destruct (IH (x - 1)) as (Hrange & Hfalse & Htrue).
      split; [lia|]. split.
      * intros z Hz. destruct (Z.eq_dec z x) as [->|Hne]; [exact HP|].
        apply Hfalse. lia.
      * intros Hlt. apply Htrue. lia.
Qed.

(** The search finds the largest point at which [P] holds, when there is
    one in its range. *)
Lemma find_down_largest (P : Z -> bool) (fuel : nat) (x lo : Z) :
  x - Z.of_nat fuel < lo <= x -> P lo = true ->
  P (find_down P fuel x) = true
  /\ lo <= find_down P fuel x <= x
  /\ (forall z, find_down P fuel x < z <= x -> P z = false).
Proof.
  intros Hlo HP. destruct (find_down_spec P fuel x) as (Hrange & Hfalse & Htrue).
  assert (Hge : lo <= find_down P fuel x).
  { destruct (Z_lt_le_dec (find_down P fuel x) lo) as [Hlt|]; [|assumption].
    rewrite Hfalse in HP by lia. discriminate. }
  split; [apply Htrue; lia|]. split; [lia|exact Hfalse].
Qed.

(** *** Rounding to the nearest integer *)

Lemma round_half_even_near (a t : Z) :
  0 < t -> Z.abs (2 * a - 2 * round_half_even a t * t) <= t.
Proof.
  intros Ht. unfold round_half_even.
  pose proof (Z.div_mod a t ltac:(lia)) as Hdiv.
  pose proof (Z.mod_pos_bound a t Ht) as Hmod.
  destruct (2 * (a mod t) <? t) eqn:H1; [apply Z.ltb_lt in H1; nia|].
  apply Z.ltb_ge in H1.
  destruct (t <? 2 * (a mod t)) eqn:H2; [apply Z.ltb_lt in H2; nia|].
  apply Z.ltb_ge in H2.
  destruct (Z.even (a / t)); nia.
Qed.

Lemma round_half_even_unique (a t m : Z) :
  0 < t -> Z.abs (2 * a - 2 * m * t) < t -> round_half_even a t = m.
Proof.
  intros Ht Hm. unfold round_half_even.
  pose proof (Z.div_mod a t ltac:(lia)) as Hdiv.
  pose proof (Z.mod_pos_bound a t Ht) as Hmod.
  assert (Hq : a / t = m \/ a / t = m - 1) by nia.
  destruct (2 * (a mod t) <? t) eqn:H1.
  - apply Z.ltb_lt in H1. nia.
  - apply Z.ltb_ge in H1.
    destruct (t <? 2 * (a mod t)) eqn:H2.
    + apply Z.ltb_lt in H2. nia.
    + apply Z.ltb_ge in H2. nia.
Qed.

(** *** Binary64 numbers in canonical form *)

Lemma digits2_pos_bounds (m : positive) :
  2 ^ (Z.pos (digits2_pos m) - 1) <= Z.pos m < 2 ^ Z.pos (digits2_pos m).
Proof.
  induction m as [m IH|m IH|]; cbn [digits2_pos].
  - rewrite Pos2Z.inj_succ, Z.pow_succ_r by lia.
    replace (Z.succ (Z.pos (digits2_pos m)) - 1) with (Z.succ (Z.pos (digits2_pos m) - 1)) by lia.
    rewrite Z.pow_succ_r by lia. lia.
  - rewrite Pos2Z.inj_succ, Z.pow_succ_r by lia.
    replace (Z.succ (Z.pos (digits2_pos m)) - 1) with (Z.succ (Z.pos (digits2_pos m) - 1)) by lia.
    rewrite Z.pow_succ_r by lia. lia.
  - cbn. lia.
Qed.

Lemma bounded_canonical (m : positive) (e : Z) :
  bounded prec emax m e = true ->
  -1074 <= e <= 971
  /\ Z.pos m < 2 ^ 53
  /\ (-1074 < e -> 2 ^ 52 <= Z.pos m).
Proof.
  unfold bounded, canonical_mantissa, fexp, emin, prec, emax.
  intros Hb. apply andb_true_iff in Hb as [Hcanon Hmax].
  apply Z.eqb_eq in Hcanon. apply Z.leb_le in Hmax.
  pose proof (digits2_pos_bounds m) as [Hlow Hhigh].
  assert (Hdigits : Z.pos (digits2_pos m) <= 53) by lia.
  split; [lia|]. split.
  - eapply Z.lt_le_trans; [exact Hhigh|]. apply Z.pow_le_mono_r; lia.
  - intros He. assert (Z.pos (digits2_pos m) = 53) as Heq by lia.
    rewrite Heq in Hlow. exact Hlow.
Qed.


(** *** Fractions and powers as real numbers *)

Import Reals Lra.

Definition pw (b x : Z) : R := powerRZ (IZR b) x.
Definition val (num den : Z) : R := (IZR num / IZR den)%R.

Lemma IZR_pos (z : Z) : 0 < z -> (0 < IZR z)%R.
Proof. intros H. apply (IZR_lt 0). exact H. Qed.

Lemma pw_pos (b x : Z) : 0 < b -> (0 < pw b x)%R.
Proof. intros Hb. apply powerRZ_lt, IZR_pos, Hb. Qed.

Lemma pw_add (b x y : Z) : 0 < b -> pw b (x + y) = (pw b x * pw b y)%R.
Proof.
  intros Hb. apply powerRZ_add. apply Rgt_not_eq, IZR_pos, Hb.
Qed.

Lemma pw_neg (b x : Z) : pw b (- x) = (/ pw b x)%R.
Proof. apply powerRZ_neg'. Qed.

Lemma pw_IZR (b x : Z) : 0 <= x -> pw b x = IZR (b ^ x).
Proof.
  intros Hx. unfold pw. rewrite <- (Z2Nat.id x Hx) at 1 2.
  rewrite <- pow_powerRZ, pow_IZR. reflexivity.
Qed.

Lemma pw_0 (b : Z) : pw b 0 = 1%R.
Proof. reflexivity. Qed.

Lemma pw_1 (b : Z) : pw b 1 = IZR b.
Proof. apply powerRZ_1. Qed.

Lemma pw_succ (b x : Z) : 0 < b -> pw b (x + 1) = (pw b x * IZR b)%R.
Proof. intros Hb. rewrite pw_add, pw_1 by exact Hb. reflexivity. Qed.

Lemma pw_ge_1 (b x : Z) : 0 < b -> 0 <= x -> (1 <= pw b x)%R.
Proof.
  intros Hb Hx. rewrite pw_IZR by exact Hx. apply (IZR_le 1).
  assert (0 < b ^ x) by (apply Z.pow_pos_nonneg; lia). lia.
Qed.

Lemma pw_mono (b x y : Z) : 0 < b -> x <= y -> (pw b x <= pw b y)%R.
Proof.
  intros Hb Hxy. replace y with (x + (y - x)) by lia. rewrite pw_add by exact Hb.
  pose proof (pw_pos b x Hb). pose proof (pw_ge_1 b (y - x) Hb ltac:(lia)). nra.
Qed.

Lemma pw_lt_inv (b x y : Z) : 0 < b -> (pw b x < pw b y)%R -> x < y.
Proof.
  intros Hb Hlt. destruct (Z_lt_le_dec x y) as [|Hge]; [assumption|].
  pose proof (pw_mono b y x Hb Hge). lra.
Qed.

Lemma val_pos (num den : Z) : 0 < num -> 0 < den -> (0 < val num den)%R.
Proof.
  intros Hn Hd. unfold val. apply Rdiv_lt_0_compat; apply IZR_pos; assumption.
Qed.

Lemma le_div_iff (p n d : R) : (0 < d)%R -> (p <= n / d)%R <-> (p * d <= n)%R.
Proof.
  intros Hd. split; intros H.
  - apply (Rmult_le_compat_r d) in H; [|lra].
    replace (n / d * d)%R with n in H by (field; lra). exact H.
  - apply (Rmult_le_reg_r d); [exact Hd|].
    replace (n / d * d)%R with n by (field; lra). exact H.
Qed.

(** [le_pow] and [scaled] are what they stand for. *)
Lemma le_pow_spec (b num den x : Z) :
  0 < b -> 0 < den ->
  le_pow b num den x = true <-> (pw b x <= val num den)%R.
Proof.
  intros Hb Hden. unfold le_pow, val.
  pose proof (IZR_pos den Hden) as Hd.
  rewrite le_div_iff by exact Hd.
  destruct (0 <=? x) eqn:Hx.
  - apply Z.leb_le in Hx. rewrite pw_IZR by exact Hx. rewrite Z.leb_le.
    rewrite <- mult_IZR. split.
    + intros H. apply IZR_le. lia.
    + intros H. apply le_IZR in H. lia.
  - apply Z.leb_gt in Hx.
    replace x with (- (- x)) at 2 by lia. rewrite pw_neg, pw_IZR by lia.
    assert (Hp : (0 < IZR (b ^ (- x)))%R)
      by (apply IZR_pos, Z.pow_pos_nonneg; lia).
    rewrite Z.leb_le. split.
    + intros H. apply IZR_le in H. rewrite mult_IZR in H.
      apply (Rmult_le_reg_r (IZR (b ^ (- x)))); [exact Hp|].
      replace (/ IZR (b ^ (- x)) * IZR den * IZR (b ^ (- x)))%R with (IZR den)
        by (field; lra). exact H.
    + intros H. apply le_IZR. rewrite mult_IZR.
      apply (Rmult_le_compat_r (IZR (b ^ (- x)))) in H; [|lra].
      replace (/ IZR (b ^ (- x)) * IZR den * IZR (b ^ (- x)))%R with (IZR den) in H
        by (field; lra). exact H.
Qed.

Lemma scaled_spec (b num den x a t : Z) :
  0 < b -> 0 < den ->
  scaled b num den x = (a, t) ->
  0 < t /\ val a t = (val num den / pw b x)%R /\ (0 < num -> 0 < a).
Proof.
  intros Hb Hden. unfold scaled, val.
  pose proof (IZR_pos den Hden) as Hd.
  destruct (0 <=? x) eqn:Hx; intros [= <- <-].
  - apply Z.leb_le in Hx. rewrite pw_IZR by exact Hx.
    assert (Hpz : 0 < b ^ x) by (apply Z.pow_pos_nonneg; lia).
    pose proof (IZR_pos _ Hpz) as Hp.
    split; [lia|]. split; [|auto].
    rewrite mult_IZR. field. lra.
  - apply Z.leb_gt in Hx.
    replace x with (- (- x)) at 2 by lia. rewrite pw_neg, pw_IZR by lia.
    assert (Hpz : 0 < b ^ (- x)) by (apply Z.pow_pos_nonneg; lia).
    pose proof (IZR_pos _ Hpz) as Hp.
    split; [lia|]. split; [|intros; lia].
    rewrite mult_IZR. field. lra.
Qed.

Lemma times_pos_le (a b u : R) : (0 < u)%R -> (a * u <= b * u)%R -> (a <= b)%R.
Proof. intros Hu H. exact (Rmult_le_reg_r u a b Hu H). Qed.

Lemma times_pos_lt (a b u : R) : (0 < u)%R -> (a * u < b * u)%R -> (a < b)%R.
Proof. intros Hu H. exact (Rmult_lt_reg_r u a b Hu H). Qed.

Lemma val_times (a t : Z) : 0 < t -> (val a t * IZR t)%R = IZR a.
Proof. intros Ht. pose proof (IZR_pos t Ht). unfold val. field. lra. Qed.

Lemma round_half_even_near_R (a t : Z) :
  0 < t ->
  (IZR (round_half_even a t) - 1 / 2 <= val a t <= IZR (round_half_even a t) + 1 / 2)%R.
Proof.
  intros Ht. pose proof (round_half_even_near a t Ht) as H.
  pose proof (IZR_pos t Ht) as Hp. pose proof (val_times a t Ht) as Hval.
  set (n := round_half_even a t) in *.
  assert (H1 : 2 * a - 2 * n * t <= t) by lia.
  assert (H2 : - t <= 2 * a - 2 * n * t) by lia.
  apply IZR_le in H1, H2.
  rewrite minus_IZR, !mult_IZR in H1. rewrite opp_IZR, minus_IZR, !mult_IZR in H2.
  rewrite <- Hval in H1, H2.
  split; apply (times_pos_le _ _ (IZR t) Hp); lra.
Qed.

Lemma round_half_even_unique_R (a t m : Z) :
  0 < t -> (IZR m - 1 / 2 < val a t < IZR m + 1 / 2)%R -> round_half_even a t = m.
Proof.
  intros Ht [Hlow Hhigh]. apply round_half_even_unique; [exact Ht|].
  pose proof (IZR_pos t Ht) as Hp. pose proof (val_times a t Ht) as Hval.
  assert (H1 : (2 * IZR a - 2 * IZR m * IZR t < IZR t)%R).
  { rewrite <- Hval. apply (Rmult_lt_compat_r _ _ _ Hp) in Hhigh. lra. }
  assert (H2 : (- IZR t < 2 * IZR a - 2 * IZR m * IZR t)%R).
  { rewrite <- Hval. apply (Rmult_lt_compat_r _ _ _ Hp) in Hlow. lra. }
  rewrite <- opp_IZR, <- !mult_IZR, <- minus_IZR in H2.
  rewrite <- !mult_IZR, <- minus_IZR in H1.
  apply lt_IZR in H1, H2. lia.
Qed.

(** *** Binary64 magnitudes and their range *)

Lemma magnitude_spec (m : positive) (e num den : Z) :
  magnitude m e = (num, den) ->
  0 < num /\ 0 < den /\ val num den = (IZR (Z.pos m) * pw 2 e)%R.
Proof.
  unfold magnitude, val. destruct (0 <=? e) eqn:He; intros [= <- <-].
  - apply Z.leb_le in He. assert (0 < 2 ^ e) by (apply Z.pow_pos_nonneg; lia).
    split; [lia|]. split; [lia|]. rewrite mult_IZR, pw_IZR by lia. field.
  - apply Z.leb_gt in He. assert (0 < 2 ^ (- e)) by (apply Z.pow_pos_nonneg; lia).
    split; [lia|]. split; [lia|].
    replace e with (- (- e)) at 2 by lia. rewrite pw_neg, pw_IZR by lia. reflexivity.
Qed.

Lemma pw_2_52 : pw 2 52 = 4503599627370496%R.
Proof. rewrite pw_IZR by lia. reflexivity. Qed.

Lemma pw_2_53 : pw 2 53 = 9007199254740992%R.
Proof. rewrite pw_IZR by lia. reflexivity. Qed.

Lemma pw_10_16 : pw 10 16 = 10000000000000000%R.
Proof. rewrite pw_IZR by lia. reflexivity. Qed.

Lemma pw_10_17 : pw 10 17 = 100000000000000000%R.
Proof. rewrite pw_IZR by lia. reflexivity. Qed.

Lemma mantissa_range (m : positive) :
  Z.pos m < 2 ^ 53 -> (1 <= IZR (Z.pos m) <= 9007199254740991)%R.
Proof.
  intros Hm. split; [apply (IZR_le 1); lia|]. apply IZR_le.
  change (2 ^ 53) with 9007199254740992 in Hm. lia.
Qed.

Lemma magnitude_range (m : positive) (e : Z) :
  SpecFloat.bounded prec emax m e = true ->
  (pw 10 (-324) <= IZR (Z.pos m) * pw 2 e < pw 10 309)%R.
Proof.
  intros Hb. destruct (bounded_canonical m e Hb) as (He & Hm & _).
  destruct (mantissa_range m Hm) as [Hlow Hhigh].
  pose proof (pw_pos 2 e ltac:(lia)) as Hu.
  pose proof (pw_mono 2 (-1074) e ltac:(lia) ltac:(lia)) as Hmin.
  pose proof (pw_mono 2 e 971 ltac:(lia) ltac:(lia)) as Hmax.
  assert (Hsmall : (pw 10 (-324) <= pw 2 (-1074))%R).
  { change (-324) with (- (324)). change (-1074) with (- (1074)).
    rewrite !pw_neg, !pw_IZR by lia.
    apply Rinv_le_contravar.
    - apply IZR_pos. apply Z.pow_pos_nonneg; lia.
    - apply IZR_le. apply Z.leb_le. vm_compute. reflexivity. }
  assert (Hlarge : (9007199254740992 * pw 2 971 <= pw 10 309)%R).
  { rewrite <- pw_2_53, <- pw_add by lia. rewrite !pw_IZR by lia.
    apply IZR_le. apply Z.leb_le. vm_compute. reflexivity. }
  split.
  - apply Rle_trans with (1 := Hsmall). apply Rle_trans with (1 := Hmin). nra.
  - apply Rlt_le_trans with (2 := Hlarge).
    apply Rle_lt_trans with (9007199254740991 * pw 2 971)%R; [|lra].
    apply Rmult_le_compat; lra.
Qed.

(** *** Seventeen digits are within half a unit of the seventeenth *)

Lemma decimal17_spec (num den D X : Z) :
  0 < num -> 0 < den ->
  (pw 10 (-324) <= val num den < pw 10 309)%R ->
  decimal17 num den = (D, X) ->
  10 ^ 16 <= D < 10 ^ 17
  /\ -324 <= X <= 309
  /\ ((val num den - IZR D * pw 10 (X - 16)) * 20000000000000000 <= val num den
      /\ (IZR D * pw 10 (X - 16) - val num den) * 20000000000000000 <= val num den)%R.
Proof.
  intros Hnum Hden [Hlow Hhigh]. unfold decimal17, decimal_exponent.
  destruct (find_down_largest (le_pow 10 num den) 633 308 (-324)) as (HP & HX & Hfalse).
  { lia. }
  { apply le_pow_spec; [lia|exact Hden|exact Hlow]. }
  set (X0 := find_down (le_pow 10 num den) 633 308) in *.
  apply le_pow_spec in HP; [|lia|exact Hden].
  assert (Hnext : (val num den < pw 10 (X0 + 1))%R).
  { destruct (Z.eq_dec X0 308) as [->|Hne]; [exact Hhigh|].
    apply Rnot_le_lt. intros Hle. apply le_pow_spec in Hle; [|lia|exact Hden].
    rewrite Hfalse in Hle by lia. discriminate. }
  destruct (scaled 10 num den (X0 - 16)) as [a t] eqn:Hscaled.
  destruct (scaled_spec 10 _ _ _ _ _ ltac:(lia) Hden Hscaled) as (Ht & Hval & _).
  pose proof (pw_pos 10 (X0 - 16) ltac:(lia)) as Hp.
  set (p := pw 10 (X0 - 16)) in *. set (v := val num den) in *.
  assert (Hv : v = (val a t * p)%R) by (rewrite Hval; field; lra).
  replace X0 with (X0 - 16 + 16) in HP by lia.
  replace (X0 + 1) with (X0 - 16 + 17) in Hnext by lia.
  rewrite pw_add in HP, Hnext by lia. fold p in HP, Hnext.
  rewrite pw_10_16 in HP. rewrite pw_10_17 in Hnext.
  pose proof (round_half_even_near_R a t Ht) as [Hn1 Hn2].
  set (D0 := round_half_even a t) in *. set (s := val a t) in *.
  assert (Hs : (10000000000000000 <= s < 100000000000000000)%R).
  { split; [apply (times_pos_le _ _ p Hp)|apply (times_pos_lt _ _ p Hp)]; lra. }
  assert (HD0 : 10 ^ 16 <= D0 <= 10 ^ 17).
  { change (10 ^ 16) with 10000000000000000. change (10 ^ 17) with 100000000000000000.
    assert (H1 : (IZR (10000000000000000 - 1) < IZR D0)%R) by (rewrite minus_IZR; lra).
    assert (H2 : (IZR D0 < IZR (100000000000000000 + 1))%R) by (rewrite plus_IZR; lra).
    apply lt_IZR in H1, H2. lia. }
  destruct (D0 =? 10 ^ 17) eqn:Hcarry; intros [= <- <-].
  - apply Z.eqb_eq in Hcarry. split; [vm_compute; split; [discriminate|reflexivity]|].
    split; [lia|].
    replace (X0 + 1 - 16) with (X0 - 16 + 1) by lia. rewrite pw_add, pw_1 by lia. fold p.
    rewrite Hcarry in Hn1, Hn2. change (10 ^ 17) with 100000000000000000 in Hn1, Hn2.
    change (10 ^ 16) with 10000000000000000.
    rewrite Hv. split; nra.
  - apply Z.eqb_neq in Hcarry. split; [lia|]. split; [lia|].
    assert (H1 : ((s - IZR D0) * p <= 1 / 2 * p)%R) by (apply Rmult_le_compat_r; lra).
    assert (H2 : ((IZR D0 - s) * p <= 1 / 2 * p)%R) by (apply Rmult_le_compat_r; lra).
    fold p. rewrite Hv. split; nra.
Qed.

(** *** The nearest binary64 number *)

Lemma binary_exponent_eq (num den e : Z) (s : R) :
  0 < den -> -1074 <= e <= 971 ->
  val num den = (s * pw 2 e)%R ->
  (s < 9007199254740992)%R ->
  (4503599627370496 <= s)%R \/ e = -1074 ->
  binary_exponent num den = e.
Proof.
  intros Hden He Hval Hhigh Hlow. unfold binary_exponent.
  destruct (find_down_spec (fun e => le_pow 2 num den (e + 52)) 2046 972)
    as (Hrange & Hfalse & Htrue).
  set (E := find_down _ 2046 972) in *.
  pose proof (pw_pos 2 e ltac:(lia)) as Hu.
  assert (HEe : E <= e).
  { destruct (Z_lt_le_dec e E) as [Hlt|]; [|assumption].
    specialize (Htrue ltac:(lia)). apply le_pow_spec in Htrue; [|lia|exact Hden].
    assert (Hlt' : (pw 2 (E + 52) < pw 2 (e + 53))%R).
    { apply Rle_lt_trans with (1 := Htrue). rewrite Hval, pw_add, pw_2_53 by lia. nra. }
    apply pw_lt_inv in Hlt'; lia. }
  destruct Hlow as [Hlow | Hsub]; [|lia].
  destruct (Z_lt_le_dec E e) as [Hlt|]; [|lia].
  assert (Hle : le_pow 2 num den (e + 52) = true).
  { apply le_pow_spec; [lia|exact Hden|]. rewrite Hval, pw_add, pw_2_52 by lia. nra. }
  rewrite Hfalse in Hle by lia. discriminate.
Qed.

(** A number within [1 / (2 * 10 ^ 16)] of a binary64 number, relatively,
    rounds to it. *)
Lemma round_binary64_nearest (negative : bool) (m : positive) (e num den : Z) :
  SpecFloat.bounded prec emax m e = true ->
  0 < num -> 0 < den ->
  ((IZR (Z.pos m) * pw 2 e - val num den) * 20000000000000000 <= IZR (Z.pos m) * pw 2 e
   /\ (val num den - IZR (Z.pos m) * pw 2 e) * 20000000000000000 <= IZR (Z.pos m) * pw 2 e)%R ->
  round_binary64 negative num den = Some (S754_finite negative m e).
Proof.
  intros Hb Hnum Hden [Herr1 Herr2].
  destruct (bounded_canonical m e Hb) as (He & Hm & Hnormal).
  destruct (mantissa_range m Hm) as [HM1 HM2].
  pose proof (pw_pos 2 e ltac:(lia)) as Hu.
  set (M := IZR (Z.pos m)) in *. set (u := pw 2 e) in *.
  set (s := (val num den / u)%R).
  assert (Hval : val num den = (s * u)%R) by (unfold s; field; lra).
  rewrite Hval in Herr1, Herr2.
  assert (Hs1 : ((M - s) * 20000000000000000 <= M)%R)
    by (apply (times_pos_le _ _ u Hu); lra).
  assert (Hs2 : ((s - M) * 20000000000000000 <= M)%R)
    by (apply (times_pos_le _ _ u Hu); lra).
  clear Herr1 Herr2.
  destruct (Rle_dec 4503599627370496 s) as [Hge|Hlt];
    [|destruct (Z.eq_dec e (-1074)) as [Hsub|Hnot]].
  1, 2: assert (HE : binary_exponent num den = e)
          by (apply (binary_exponent_eq num den e s); auto; lra).
  1, 2: unfold round_binary64; rewrite HE;
        destruct (972 <=? e) eqn:Hover; [apply Z.leb_le in Hover; lia|];
        destruct (scaled 2 num den e) as [a t] eqn:Hscaled;
        destruct (scaled_spec 2 _ _ _ _ _ ltac:(lia) Hden Hscaled) as (Ht & Hat & _);
        rewrite (round_half_even_unique_R a t (Z.pos m) Ht)
          by (rewrite Hat; fold u; fold s; fold M; lra);
        destruct (Z.pos m =? 2 ^ 53) eqn:Htop; [apply Z.eqb_eq in Htop; lia|];
        reflexivity.
  (* the text is just below the power of two that the number is *)
  apply Rnot_le_lt in Hlt.
  assert (Hm52 : Z.pos m = 2 ^ 52).
  { specialize (Hnormal ltac:(lia)).
    destruct (Z.eq_dec (Z.pos m) (2 ^ 52)) as [|Hne]; [assumption|].
    assert (Hmore : (IZR (4503599627370496 + 1) <= M)%R).
    { apply IZR_le. change (2 ^ 52) with 4503599627370496 in Hnormal, Hne. lia. }
    rewrite plus_IZR in Hmore. lra. }
  assert (HM : M = 4503599627370496%R) by (unfold M; rewrite Hm52; reflexivity).
  assert (Hhalf : pw 2 (e - 1) = (u / 2)%R).
  { unfold Z.sub. rewrite pw_add by lia. change (- (1)) with (- 1).
    replace (pw 2 (-1)) with (/ 2)%R; [reflexivity|].
    change (-1) with (- (1)). rewrite pw_neg, pw_1. reflexivity. }
  assert (HE : binary_exponent num den = e - 1).
  { apply (binary_exponent_eq num den (e - 1) (2 * s)%R); auto; try lia; try lra.
    rewrite Hhalf, Hval. field. }
  unfold round_binary64. rewrite HE.
  destruct (972 <=? e - 1) eqn:Hover; [apply Z.leb_le in Hover; lia|].
  destruct (scaled 2 num den (e - 1)) as [a t] eqn:Hscaled.
  destruct (scaled_spec 2 _ _ _ _ _ ltac:(lia) Hden Hscaled) as (Ht & Hat & _).
  rewrite (round_half_even_unique_R a t (2 ^ 53) Ht).
  - change (2 ^ 53 =? 0) with false. rewrite Z.eqb_refl.
    destruct (e - 1 + 1 =? 972) eqn:Hlast; [apply Z.eqb_eq in Hlast; lia|].
    rewrite <- Hm52. replace (e - 1 + 1) with e by lia. reflexivity.
  - rewrite Hat, Hhalf, Hval. change (2 ^ 53) with 9007199254740992.
    replace (s * u / (u / 2))%R with (2 * s)%R by (field; lra). lra.
Qed.

(** *** Digit runs *)

Lemma number_of_app (l1 l2 : list Z) (acc : Z) :
  number_of (l1 ++ l2)%list acc = number_of l2 (number_of l1 acc).
Proof. apply fold_left_app. Qed.

Lemma number_of_zeros (z : nat) (acc : Z) :
  number_of (repeat 0 z) acc = acc * 10 ^ Z.of_nat z.
Proof.
  revert acc. induction z as [|z IH]; intros acc.
  - cbn. lia.
  - cbn [repeat number_of fold_left]. fold (number_of (repeat 0 z) (10 * acc + 0)).
    rewrite IH, Nat2Z.inj_succ, Z.pow_succ_r by lia. lia.
Qed.

Lemma number_of_scale (l : list Z) (acc : Z) :
  number_of l acc = acc * 10 ^ Z.of_nat (length l) + number_of l 0.
Proof.
  revert acc. induction l as [|d l IH]; intros acc.
  - cbn. lia.
  - cbn [number_of fold_left length]. fold (number_of l (10 * acc + d)).
    fold (number_of l (10 * 0 + d)).
    rewrite (IH (10 * acc + d)), (IH (10 * 0 + d)), Nat2Z.inj_succ, Z.pow_succ_r by lia.
    lia.
Qed.

Lemma length_digits (n : nat) (D : Z) : length (digits n D) = n.
Proof.
  revert D. induction n as [|n IH]; intros D; [reflexivity|].
  cbn [digits]. rewrite length_app, IH. cbn. lia.
Qed.

Lemma digits_are_digits (n : nat) (D : Z) : Forall is_digit (digits n D).
Proof.
  revert D. induction n as [|n IH]; intros D; [constructor|].
  cbn [digits]. apply Forall_app. split; [apply IH|].
  constructor; [|constructor]. unfold is_digit. apply Z.mod_pos_bound. lia.
Qed.

Lemma number_of_digits (n : nat) (D acc : Z) :
  0 <= D < 10 ^ Z.of_nat n ->
  number_of (digits n D) acc = acc * 10 ^ Z.of_nat n + D.
Proof.
  revert D. induction n as [|n IH]; intros D HD.
  - cbn in *. lia.
  - rewrite Nat2Z.inj_succ, Z.pow_succ_r in * by lia.
    cbn [digits]. rewrite number_of_app. cbn [number_of fold_left].
    fold (number_of (digits n (D / 10)) acc).
    rewrite IH.
    + pose proof (Z.div_mod D 10 ltac:(lia)). lia.
    + split; [apply Z.div_pos; lia|].
      apply Z.div_lt_upper_bound; lia.
Qed.

Lemma strip_zeros_spec (l : list Z) :
  exists z : nat, l = (strip_zeros l ++ repeat 0 z)%list.
Proof.
  induction l as [|d l [z IH]].
  - exists 0%nat. reflexivity.
  - cbn [strip_zeros]. destruct (strip_zeros l) as [|d' stripped] eqn:Hstrip.
    + destruct (d =? 0) eqn:Hd.
      * apply Z.eqb_eq in Hd. subst d. exists (S z). rewrite IH at 1. reflexivity.
      * exists z. rewrite IH at 1. reflexivity.
    + exists z. rewrite IH at 1. reflexivity.
Qed.

(** *** Reading what was rendered *)

Lemma read_digits_render (l : list Z) (rest : list ascii) (acc count : Z) :
  Forall is_digit l ->
  (forall c rest', rest = c :: rest' -> lexical_cast.digit_of_ascii c = None) ->
  read_digits (render_digits l ++ rest)%list acc count
  = (number_of l acc, count + Z.of_nat (length l), rest).
Proof.
  intros Hl Hrest. revert acc count.
  induction Hl as [|d l Hd Hl IH]; intros acc count.
  - cbn [render_digits List.map app number_of fold_left length].
    rewrite Z.add_0_r. destruct rest as [|c rest']; [reflexivity|].
    cbn [read_digits]. rewrite (Hrest c rest' eq_refl). reflexivity.
  - cbn [render_digits List.map app read_digits].
    rewrite lexical_cast_facts.digit_of_ascii_of_digit by exact Hd.
    fold (render_digits l). rewrite IH. cbn [number_of fold_left length].
    rewrite Nat2Z.inj_succ. f_equal. f_equal. lia.
Qed.

Lemma read_sign_render (negative : bool) (d : Z) (rest : list ascii) :
  is_digit d ->
  read_sign (render_sign negative ++ lexical_cast.ascii_of_digit d :: rest)%list
  = (negative, lexical_cast.ascii_of_digit d :: rest).
Proof.
  intros Hd. destruct negative; [reflexivity|].
  cbn [render_sign app read_sign].
  destruct (lexical_cast_facts.ascii_of_digit_not_sign d Hd) as [-> ->]. reflexivity.
Qed.

Lemma render_exponent_reads (X : Z) :
  -1000 < X < 1000 ->
  exists sign text count,
    render_exponent X = ("e"%char :: sign ++ text)%list
    /\ read_sign (sign ++ text)%list = (X <? 0, text)
    /\ read_digits text 0 0 = (Z.abs X, count, [])
    /\ count <> 0.
Proof.
  intros HX. unfold render_exponent.
  set (n := if Z.abs X <? 100 then 2%nat else 3%nat).
  exists [if X <? 0 then "-"%char else "+"%char], (render_digits (digits n (Z.abs X))),
    (Z.of_nat n).
  assert (Hn : 0 <= Z.abs X < 10 ^ Z.of_nat n).
  { unfold n. destruct (Z.abs X <? 100) eqn:Hsmall.
    - apply Z.ltb_lt in Hsmall. change (10 ^ Z.of_nat 2) with 100. lia.
    - change (10 ^ Z.of_nat 3) with 1000. lia. }
  split; [reflexivity|]. split; [|split].
  - destruct (X <? 0); reflexivity.
  - rewrite <- (app_nil_r (render_digits _)).
    rewrite read_digits_render.
    + rewrite length_digits, number_of_digits by exact Hn. reflexivity.
    + apply digits_are_digits.
    + discriminate.
  - unfold n. destruct (Z.abs X <? 100); discriminate.
Qed.

(** Sign, digits, an optional point with digits and an optional exponent
    read back as they were written. *)
Lemma parse_decimal_render (negative : bool) (W F : list Z) (exponent : option Z) :
  W <> [] -> Forall is_digit W -> Forall is_digit F ->
  (forall X, exponent = Some X -> -1000 < X < 1000) ->
  parse_decimal (render_sign negative ++ render_digits W ++ render_point F
                 ++ render_tail exponent)%list
  = Some (negative, number_of (W ++ F)%list 0,
          exponent_of exponent - Z.of_nat (length F)).
Proof.
  intros HW HdW HdF HX. rewrite number_of_app. unfold parse_decimal.
  destruct W as [|w W']; [contradiction|].
  assert (Hw : is_digit w) by (inversion HdW; assumption).
  change (render_digits (w :: W')) with (lexical_cast.ascii_of_digit w :: render_digits W').
  cbn [app]. rewrite read_sign_render by exact Hw.
  change (lexical_cast.ascii_of_digit w
          :: render_digits W' ++ render_point F ++ render_tail exponent)%list
    with (render_digits (w :: W') ++ render_point F ++ render_tail exponent)%list.
  assert (Htail : forall c rest', render_tail exponent = c :: rest' ->
                                  c = "e"%char).
  { destruct exponent as [X|]; [|discriminate]. intros c rest' [= <- _]. reflexivity. }
  rewrite read_digits_render; [|exact HdW|].
  2:{ intros c rest' Hrest. destruct F as [|f F'].
      - apply Htail in Hrest. subst c. reflexivity.
      - injection Hrest as <- _. reflexivity. }
  set (whole := number_of (w :: W') 0).
  assert (Hfraction :
    match (render_point F ++ render_tail exponent)%list with
    | [] => (whole, 0, (render_point F ++ render_tail exponent)%list)
    | c :: l' =>
        if Ascii.eqb c "." then read_digits l' whole 0
        else (whole, 0, (render_point F ++ render_tail exponent)%list)
    end = (number_of F whole, Z.of_nat (length F), render_tail exponent)).
  { destruct F as [|f F'].
    - cbn [render_point app number_of fold_left length].
      destruct (render_tail exponent) as [|c rest'] eqn:Hrest; [reflexivity|].
      rewrite (Htail c rest' eq_refl). reflexivity.
    - cbn [render_point app]. change (Ascii.eqb "." ".") with true. cbv iota.
      rewrite read_digits_render; [reflexivity|exact HdF|].
      intros c rest' Hrest. apply Htail in Hrest. subst c. reflexivity. }
  rewrite Hfraction.
  destruct (0 + Z.of_nat (length (w :: W')) + Z.of_nat (length F) =? 0) eqn:Hcount.
  { apply Z.eqb_eq in Hcount. cbn [length] in Hcount. lia. }
  destruct exponent as [X|]; cbn [render_tail exponent_of].
  - destruct (render_exponent_reads X (HX X eq_refl))
      as (sign & text & count & -> & Hsign & Hdigits & Hcount').
    change (Ascii.eqb "e" "e" || Ascii.eqb "e" "E") with true. cbv iota.
    rewrite Hsign, Hdigits.
    destruct (count =? 0) eqn:Hzero; [apply Z.eqb_eq in Hzero; contradiction|].
    destruct (X <? 0) eqn:Hneg;
      [apply Z.ltb_lt in Hneg|apply Z.ltb_ge in Hneg]; do 3 f_equal; lia.
  - do 3 f_equal.
Qed.

(** *** The text of seventeen digits *)

Lemma zeros_are_digits (z : nat) : Forall is_digit (repeat 0 z).
Proof. induction z; constructor; [unfold is_digit; lia|assumption]. Qed.

Lemma render_fraction_point (l : list Z) :
  render_fraction l = render_point (strip_zeros l).
Proof. unfold render_fraction, render_point. destruct (strip_zeros l); reflexivity. Qed.

Lemma digits17 (D : Z) :
  10 ^ 16 <= D < 10 ^ 17 ->
  length (digits 17 D) = 17%nat
  /\ Forall is_digit (digits 17 D)
  /\ number_of (digits 17 D) 0 = D.
Proof.
  intros HD. split; [apply length_digits|]. split; [apply digits_are_digits|].
  rewrite number_of_digits; [lia|].
  change (10 ^ 16) with 10000000000000000 in HD.
  change (10 ^ 17) with 100000000000000000 in HD.
  change (10 ^ Z.of_nat 17) with 100000000000000000. lia.
Qed.

(** The digits cut after the first [i]: the fraction loses its trailing
    zeros, which scale the number read. *)
Lemma digits_cut (l : list Z) (i : nat) :
  length l = 17%nat -> Forall is_digit l -> (1 <= i <= 17)%nat ->
  exists z : nat,
    firstn i l <> []
    /\ Forall is_digit (firstn i l)
    /\ Forall is_digit (strip_zeros (skipn i l))
    /\ number_of l 0
       = number_of (firstn i l ++ strip_zeros (skipn i l))%list 0 * 10 ^ Z.of_nat z
    /\ Z.of_nat (length (strip_zeros (skipn i l))) = 17 - Z.of_nat i - Z.of_nat z.
Proof.
  intros Hlen Hl Hi.
  destruct (strip_zeros_spec (skipn i l)) as [z Hz]. exists z.
  pose proof (firstn_skipn i l) as Hsplit.
  assert (Hfirst : length (firstn i l) = i) by (rewrite length_firstn; lia).
  assert (Hskip : length (skipn i l) = (17 - i)%nat) by (rewrite length_skipn; lia).
  rewrite <- Hsplit in Hl. apply Forall_app in Hl as [HW HF].
  split; [|split; [exact HW|split; [|split]]].
  - intros Hnil. rewrite Hnil in Hfirst. cbn in Hfirst. lia.
  - rewrite Hz in HF. apply Forall_app in HF as [HF _]. exact HF.
  - rewrite <- Hsplit at 1. rewrite Hz at 1.
    rewrite app_assoc, number_of_app, number_of_zeros. reflexivity.
  - rewrite Hz in Hskip. rewrite length_app, repeat_length in Hskip. lia.
Qed.

Lemma render17_shape (D X : Z) :
  10 ^ 16 <= D < 10 ^ 17 -> -1000 < X < 1000 ->
  exists (W F : list Z) (exponent : option Z) (z : nat),
    render17 D X = (render_digits W ++ render_point F ++ render_tail exponent)%list
    /\ W <> [] /\ Forall is_digit W /\ Forall is_digit F
    /\ (forall X', exponent = Some X' -> -1000 < X' < 1000)
    /\ D = number_of (W ++ F)%list 0 * 10 ^ Z.of_nat z
    /\ exponent_of exponent - Z.of_nat (length F) = X - 16 + Z.of_nat z.
Proof.
  intros HD HX. destruct (digits17 D HD) as (Hlen & Hl & Hnumber).
  unfold render17. set (l := digits 17 D) in *.
  destruct ((X <? -4) || (17 <=? X)) eqn:Hscientific.
  - destruct (digits_cut l 1 Hlen Hl ltac:(lia)) as (z & HW & HdW & HdF & Hn & Hlength).
    exists (firstn 1 l), (strip_zeros (skipn 1 l)), (Some X), z.
    rewrite render_fraction_point.
    split; [reflexivity|]. split; [exact HW|]. split; [exact HdW|]. split; [exact HdF|].
    split; [intros X' [= <-]; exact HX|]. split; [rewrite <- Hn; auto|].
    cbn [exponent_of]. lia.
  - apply orb_false_iff in Hscientific as [Hlow Hhigh].
    apply Z.ltb_ge in Hlow. apply Z.leb_gt in Hhigh.
    destruct (0 <=? X) eqn:Hfixed.
    + apply Z.leb_le in Hfixed.
      destruct (digits_cut l (Z.to_nat (X + 1)) Hlen Hl ltac:(lia))
        as (z & HW & HdW & HdF & Hn & Hlength).
      exists (firstn (Z.to_nat (X + 1)) l), (strip_zeros (skipn (Z.to_nat (X + 1)) l)),
        None, z.
      rewrite render_fraction_point. cbn [render_tail]. rewrite app_nil_r.
      split; [reflexivity|]. split; [exact HW|]. split; [exact HdW|]. split; [exact HdF|].
      split; [discriminate|]. split; [rewrite <- Hn; auto|].
      cbn [exponent_of]. lia.
    + apply Z.leb_gt in Hfixed.
      destruct (strip_zeros_spec l) as [z Hz].
      set (stripped := strip_zeros l) in *.
      set (k := Z.to_nat (- X - 1)).
      assert (Hstripped : stripped <> []).
      { intros Hnil. rewrite Hnil in Hz. cbn [app] in Hz.
        rewrite Hz, number_of_zeros in Hnumber.
        change (10 ^ 16) with 10000000000000000 in HD. lia. }
      assert (Hdigits : Forall is_digit stripped).
      { rewrite Hz in Hl. apply Forall_app in Hl as [Hl _]. exact Hl. }
      exists [0], (repeat 0 k ++ stripped)%list, None, z.
      split; [|split; [discriminate|split; [|split; [|split; [discriminate|split]]]]].
      * cbn [render_tail]. rewrite app_nil_r. unfold render_point.
        destruct (repeat 0 k ++ stripped)%list as [|f F'] eqn:HF; [|reflexivity].
        apply app_eq_nil in HF as [_ HF]. contradiction.
      * constructor; [unfold is_digit; lia|constructor].
      * apply Forall_app. split; [apply zeros_are_digits|exact Hdigits].
      * rewrite !number_of_app. cbn [number_of fold_left].
        fold (number_of (repeat 0 k) (10 * 0 + 0)). rewrite number_of_zeros.
        rewrite <- Hnumber. rewrite Hz at 1. rewrite number_of_app, number_of_zeros.
        reflexivity.
      * cbn [exponent_of]. rewrite length_app, repeat_length.
        rewrite Hz, length_app, repeat_length in Hlen. unfold k. lia.
Qed.

Lemma parse_decimal_render17 (negative : bool) (D X : Z) :
  10 ^ 16 <= D < 10 ^ 17 -> -1000 < X < 1000 ->
  exists (N k : Z) (z : nat),
    parse_decimal (render_sign negative ++ render17 D X)%list = Some (negative, N, k)
    /\ D = N * 10 ^ Z.of_nat z
    /\ k = X - 16 + Z.of_nat z.
Proof.
  intros HD HX.
  destruct (render17_shape D X HD HX)
    as (W & F & exponent & z & -> & HW & HdW & HdF & Hexp & HN & Hk).
  exists (number_of (W ++ F)%list 0), (exponent_of exponent - Z.of_nat (length F)), z.
  split; [|split; assumption].
  apply parse_decimal_render; assumption.
Qed.

(** A rendered number is not one of the spellings of NaN and infinity. *)
Lemma parse_inf_nan_render17 (negative : bool) (D X : Z) :
  10 ^ 16 <= D < 10 ^ 17 -> -1000 < X < 1000 ->
  parse_inf_nan (render_sign negative ++ render17 D X)%list = None.
Proof.
  intros HD HX.
  destruct (render17_shape D X HD HX)
    as (W & F & exponent & z & -> & HW & HdW & _).
  destruct W as [|w W']; [contradiction|].
  assert (Hw : is_digit w) by (inversion HdW; assumption).
  unfold parse_inf_nan.
  change (render_digits (w :: W')) with (lexical_cast.ascii_of_digit w :: render_digits W').
  cbn [app]. rewrite read_sign_render by exact Hw.
  set (rest := (render_digits W' ++ render_point F ++ render_tail exponent)%list).
  unfold is_digit in Hw.
  destruct (lexical_cast_facts.digit_cases w Hw)
    as [->|[->|[->|[->|[->|[->|[->|[->|[->| ->]]]]]]]]]; reflexivity.
Qed.

(** *** Printing and parsing back *)

Lemma decimal_magnitude_spec (N k num den : Z) :
  0 < N -> decimal_magnitude N k = (num, den) ->
  0 < num /\ 0 < den /\ val num den = (IZR N * pw 10 k)%R.
Proof.
  unfold decimal_magnitude, val. intros HN.
  destruct (0 <=? k) eqn:Hk; intros [= <- <-].
  - apply Z.leb_le in Hk. assert (0 < 10 ^ k) by (apply Z.pow_pos_nonneg; lia).
    split; [lia|]. split; [lia|]. rewrite mult_IZR, pw_IZR by lia. field.
  - apply Z.leb_gt in Hk. assert (0 < 10 ^ (- k)) by (apply Z.pow_pos_nonneg; lia).
    split; [lia|]. split; [lia|].
    replace k with (- (- k)) at 2 by lia. rewrite pw_neg, pw_IZR by lia. reflexivity.
Qed.

Lemma to_double_string_of_double_finite (negative : bool) (m : positive) (e : Z) :
  SpecFloat.bounded prec emax m e = true ->
  exists text,
    (let (num, den) := magnitude m e in
     let (D, X) := decimal17 num den in
     string_of_list_ascii (render_sign negative ++ render17 D X)%list) = text
    /\ lexical_cast_double.to_double text = Some (SF2Prim (S754_finite negative m e)).
Proof.
  intros Hb. eexists. split; [reflexivity|].
  destruct (magnitude m e) as [num den] eqn:Hmagnitude.
  destruct (magnitude_spec _ _ _ _ Hmagnitude) as (Hnum & Hden & Hval).
  pose proof (magnitude_range m e Hb) as Hrange. rewrite <- Hval in Hrange.
  destruct (decimal17 num den) as [D X] eqn:Hdecimal.
  destruct (decimal17_spec _ _ _ _ Hnum Hden Hrange Hdecimal) as (HD & HX & Herr1 & Herr2).
  destruct (parse_decimal_render17 negative D X HD ltac:(lia)) as (N & k & z & Hparse & HN & Hk).
  unfold lexical_cast_double.to_double.
  rewrite list_ascii_of_string_of_list_ascii.
  rewrite (parse_inf_nan_render17 negative D X HD ltac:(lia)), Hparse.
  assert (HNpos : 0 < N).
  { assert (0 < 10 ^ Z.of_nat z) by (apply Z.pow_pos_nonneg; lia).
    change (10 ^ 16) with 10000000000000000 in HD. nia. }
  destruct (N =? 0) eqn:Hzero; [apply Z.eqb_eq in Hzero; lia|].
  destruct (decimal_magnitude N k) as [num' den'] eqn:Hdm.
  destruct (decimal_magnitude_spec _ _ _ _ HNpos Hdm) as (Hnum' & Hden' & Hval').
  assert (Hsame : val num' den' = (IZR D * pw 10 (X - 16))%R).
  { rewrite Hval', HN, Hk, mult_IZR, <- pw_IZR by lia.
    rewrite (pw_add 10 (X - 16)) by lia. ring. }
  rewrite (round_binary64_nearest negative m e num' den' Hb Hnum' Hden').
  - reflexivity.
  - rewrite Hsame, <- Hval. split; assumption.
Qed.

Lemma to_double_string_of_double (d : float) :
  lexical_cast_double.to_double (lexical_cast_double.string_of_double d) = Some d.
Proof.
  rewrite <- (SF2Prim_Prim2SF d) at 2.
  pose proof (Prim2SF_valid d) as Hvalid.
  unfold lexical_cast_double.string_of_double.
  destruct (Prim2SF d) as [negative|negative| |negative m e].
  - destruct negative; reflexivity.
  - destruct negative; reflexivity.
  - reflexivity.
  - destruct (to_double_string_of_double_finite negative m e Hvalid) as (text & <- & Hread).
    exact Hread.
Qed.

Lemma boost_lexical_cast_stable : double_cast_stable boost_lexical_cast.
Proof.
  intros d. exists d. split; [|reflexivity].
  apply to_double_string_of_double.
Qed.

End double_cast_facts.

(** What the two casts do on samples. *)
Example boost_prints :
  lexical_cast_double.string_of_double 0x1.999999999999ap-4 = "0.10000000000000001"
  /\ lexical_cast_double.string_of_double 100 = "100"
  /\ lexical_cast_double.string_of_double (-2.5) = "-2.5"
  /\ lexical_cast_double.string_of_double 1e16 = "10000000000000000"
  /\ lexical_cast_double.string_of_double 1e17 = "1e+17"
  /\ lexical_cast_double.string_of_double 0.0001220703125 = "0.0001220703125"
  /\ lexical_cast_double.string_of_double 0x1.4f8b588e368f1p-17 = "1.0000000000000001e-05"
  /\ lexical_cast_double.string_of_double 0x1p-1074 = "4.9406564584124654e-324"
  /\ lexical_cast_double.string_of_double 0x1.fffffffffffffp+1023
     = "1.7976931348623157e+308"
  /\ lexical_cast_double.string_of_double (-0) = "-0"
  /\ lexical_cast_double.string_of_double infinity = "inf"
  /\ lexical_cast_double.string_of_double nan = "nan".
Proof. vm_compute. repeat split. Qed.

Example boost_parses :
  lexical_cast_double.to_double "0.1" = Some 0x1.999999999999ap-4%float
  /\ lexical_cast_double.to_double "+12.50" = Some 12.5%float
  /\ lexical_cast_double.to_double ".5" = Some 0.5%float
  /\ lexical_cast_double.to_double "1E2" = Some 100%float
  /\ lexical_cast_double.to_double "-INF" = Some neg_infinity
  /\ lexical_cast_double.to_double "1e309" = None
  /\ lexical_cast_double.to_double "1e" = None
  /\ lexical_cast_double.to_double "0x10" = None
  /\ lexical_cast_double.to_double " 1" = None
  /\ lexical_cast_double.to_double "1.5x" = None
  /\ lexical_cast_double.to_double "" = None.
Proof. vm_compute. repeat split. Qed.

(** ** Reading a parameter and writing the text back *)

Section RoundTrip.
Context {LC : LexicalCastDouble}.

Lemma getStyleParameter_declared d param nutiParam :
  getNutiParameterMap (_map d) !! param = Some nutiParam ->
  getStyleParameter d param
  = match getEnumMap nutiParam with
    | _ :: _ =>
        match find (fun e => Value_eqb (snd e) (currentValue d param nutiParam))
                (getEnumMap nutiParam) with
        | Some e => Return (fst e)
        | None => Return ""
        end
    | [] => Return (printStyleValue (currentValue d param nutiParam))
    end.
Proof. intros Hdecl. unfold getStyleParameter, currentValue. rewrite Hdecl. reflexivity. Qed.

Lemma currentValue_assigned param val nutiParam w :
  currentValue (this (assigned param val w)) param nutiParam = val.
Proof. unfold currentValue. rewrite assigned_values, lookup_insert_eq. reflexivity. Qed.

(** A scalar value printed and parsed back against a default of its own
    kind prints the same again, when the two casts on doubles agree on the
    text of the value, should it be a double. *)
Lemma parseStyleValue_printStyleValue (default v : Value) :
  (forall x, v = VDouble x ->
             exists x', to_double (string_of_double x) = Some x'
                        /\ string_of_double x' = string_of_double x) ->
  which v = which default -> Value_wf v ->
  exists v', parseStyleValue default (printStyleValue v) = Return v'
             /\ printStyleValue v' = printStyleValue v.
Proof.
  intros Hstable Hkind Hwf.
  destruct v as [|b|n|x|t], default; try discriminate Hkind; simpl.
  - exists blank. auto.
  - exists (VBool b). destruct b; auto.
  - exists (VLongLong n).
    rewrite lexical_cast_facts.to_long_long_string_of_long_long by exact Hwf. auto.
  - destruct (Hstable x eq_refl) as (x' & Hparse & Hprint).
    exists (VDouble x'). rewrite Hparse. auto.
  - exists (VString t). auto.
Qed.

(** The value of a scalar parameter has the kind of its default. *)
Lemma currentValue_kind (d : MBVectorTileDecoder) (param : string)
    (nutiParam : NutiParameter) :
  decoder_wf d ->
  getNutiParameterMap (_map d) !! param = Some nutiParam ->
  getEnumMap nutiParam = [] ->
  which (currentValue d param nutiParam) = which (getDefaultValue nutiParam)
  /\ Value_wf (currentValue d param nutiParam).
Proof.
  intros (Hmap & Hok & Hrange) Hdecl Henum.
  destruct (Hmap _ _ Hdecl) as (Hdefault & _).
  unfold currentValue.
  destruct (_parameterValueMap d !! param) as [v|] eqn:Hv; [|auto].
  split; [|eauto].
  destruct (Hok _ _ Hv) as (nutiParam' & Hdecl' & Hfits).
  rewrite Hdecl in Hdecl'. injection Hdecl' as <-.
  destruct Hfits as [Hkind|Hin]; [exact Hkind|].
  rewrite Henum in Hin. destruct Hin.
Qed.

(** Writing back the text read: it is accepted or refused without an
    exception, and reads the same afterwards.  For a scalar parameter that
    holds a double, the two casts have to agree on the text of that double. *)
Lemma round_trip_of_current_value (w : World) (param : string)
    (nutiParam : NutiParameter) :
  (forall x, getEnumMap nutiParam = [] ->
             currentValue (this w) param nutiParam = VDouble x ->
             exists x', to_double (string_of_double x) = Some x'
                        /\ string_of_double x' = string_of_double x) ->
  decoder_wf (this w) ->
  getNutiParameterMap (_map (this w)) !! param = Some nutiParam ->
  exists text,
    getStyleParameter (this w) param = Return text
    /\ exists ok w',
        setStyleParameter param text w = (Return ok, w')
        /\ getStyleParameter (this w') param = Return text.
Proof.
  intros Hstable Hwf Hdecl.
  pose proof (currentValue_kind _ _ _ Hwf Hdecl) as Hvalue.
  destruct Hwf as (Hmap & Hok & Hrange).
  destruct (Hmap _ _ Hdecl) as (Hdefault & Hsorted & _).
  rewrite (getStyleParameter_declared _ _ _ Hdecl).
  set (value := currentValue (this w) param nutiParam) in *.
  destruct (getEnumMap nutiParam) as [|e0 m0] eqn:Henum.
  - (* scalar *)
    destruct (Hvalue eq_refl) as [Hkind Hwf].
    destruct (parseStyleValue_printStyleValue _ _ (fun x => Hstable x eq_refl) Hkind Hwf)
      as (v' & Hparse & Hprint).
    exists (printStyleValue value). split; [reflexivity|].
    exists true, (assigned param v' w). split.
    + eapply setStyleParameter_scalar; eassumption.
    + rewrite (getStyleParameter_declared _ _ nutiParam)
        by (rewrite assigned_map; exact Hdecl).
      rewrite Henum, currentValue_assigned, Hprint. reflexivity.
  - (* enum *)
    clear Hstable Hvalue.
    rewrite <- Henum in *.
    assert (Hne : getEnumMap nutiParam <> []) by (rewrite Henum; discriminate).
    assert (Hread : forall w' val,
               _map (this w') = _map (this w) ->
               currentValue (this w') param nutiParam = val ->
               getStyleParameter (this w') param
               = match find (fun e => Value_eqb (snd e) val) (getEnumMap nutiParam) with
                 | Some e => Return (fst e)
                 | None => Return ""
                 end).
    { intros w' val Hsame Hval.
      rewrite (getStyleParameter_declared _ _ nutiParam) by (rewrite Hsame; exact Hdecl).
      rewrite Hval, Henum. reflexivity. }
    replace (match getEnumMap nutiParam with
             | [] => Return (printStyleValue value)
             | _ :: _ =>
                 match find (fun e => Value_eqb (snd e) value) (getEnumMap nutiParam) with
                 | Some e => Return (fst e)
                 | None => Return ""
                 end
             end)
      with (match find (fun e => Value_eqb (snd e) value) (getEnumMap nutiParam) with
            | Some e => Return (fst e)
            | None => Return ""
            end : Outcome string)
      by (rewrite Henum; reflexivity).
    destruct (find (fun e => Value_eqb (snd e) value) (getEnumMap nutiParam))
      as [[label val]|] eqn:Hfind.
    + (* the value carries a label *)
      destruct (find_some _ _ Hfind) as [Hin Heq]. simpl in Heq.
      exists label. split; [reflexivity|].
      exists true, (assigned param val w). split.
      * eapply setStyleParameter_enum_hit; [exact Hdecl|exact Hne|].
        apply EnumMap_facts.enum_find_entry; assumption.
      * rewrite (Hread _ val) by (try apply assigned_map; apply currentValue_assigned).
        rewrite (EnumMap_facts.find_agree _ (fun e => Value_eqb (snd e) value)).
        -- rewrite Hfind. reflexivity.
        -- intros a _. apply Value_facts.Value_eqb_congr. exact Heq.
    + (* no label carries the value: the text is empty *)
      exists "". split; [reflexivity|].
      destruct (enum_find "" (getEnumMap nutiParam)) as [v0|] eqn:Hempty.
      * exists true, (assigned param v0 w). split.
        -- eapply setStyleParameter_enum_hit; eassumption.
        -- rewrite (Hread _ v0) by (try apply assigned_map; apply currentValue_assigned).
           destruct (EnumMap_facts.empty_label_first _ v0 Hsorted
                       (enum_find_In _ _ _ Hempty)) as [rest Hrest].
           rewrite Hrest. simpl.
           destruct (Value_eqb v0 v0) eqn:Hself; [reflexivity|].
           destruct (find (fun e => Value_eqb (snd e) v0) rest) as [e|] eqn:Hrestfind;
             [|reflexivity].
           destruct (find_some _ _ Hrestfind) as [_ He]. simpl in He.
           rewrite (Value_facts.Value_eqb_trans v0 (snd e) v0) in Hself;
             [discriminate|apply Value_facts.Value_eqb_sym; exact He|exact He].
      * eexists false, _. split.
        -- eapply setStyleParameter_enum_miss; eassumption.
        -- rewrite (Hread _ value) by reflexivity. rewrite Hfind. reflexivity.
Qed.

End RoundTrip.

(** C9: with Boost's casts, for every declared parameter of a well-formed
    decoder (boolean, integer, float or string kind, enum-valued or not),
    writing back the text that [getStyleParameter] returned succeeds or is
    refused without an exception, and [getStyleParameter] then returns the
    same text.  For a float parameter the text is the 17 significant digits
    (or "inf", "-inf", "nan") that Boost prints, which Boost parses back to
    the double it printed. *)
Theorem style_parameter_round_trip (w : World) (param : string)
    (nutiParam : NutiParameter) :
  decoder_wf (this w) ->
  getNutiParameterMap (_map (this w)) !! param = Some nutiParam ->
  exists text,
    getStyleParameter (LC := boost_lexical_cast) (this w) param = Return text
    /\ exists ok w',
        setStyleParameter (LC := boost_lexical_cast) param text w = (Return ok, w')
        /\ getStyleParameter (LC := boost_lexical_cast) (this w') param = Return text.
Proof.
  apply (round_trip_of_current_value (LC := boost_lexical_cast)).
  intros x _ _. exists x. split; [|reflexivity].
  apply double_cast_facts.to_double_string_of_double.
Qed.

(** X29: whatever the two casts on doubles are, for every declared
    parameter of a well-formed decoder that is enum-valued or whose kind is
    not float (boolean, integer or string), writing back the text that
    [getStyleParameter] returned succeeds or is refused without an
    exception, and [getStyleParameter] then returns the same text. *)
Theorem round_trip_without_double_casts {LC : LexicalCastDouble} (w : World)
    (param : string) (nutiParam : NutiParameter) :
  decoder_wf (this w) ->
  getNutiParameterMap (_map (this w)) !! param = Some nutiParam ->
  getEnumMap nutiParam <> [] \/ which (getDefaultValue nutiParam) <> KDouble ->
  exists text,
    getStyleParameter (this w) param = Return text
    /\ exists ok w',
        setStyleParameter param text w = (Return ok, w')
        /\ getStyleParameter (this w') param = Return text.
Proof.
  intros Hwf Hdecl Hkind.
  apply (round_trip_of_current_value w param nutiParam); [|exact Hwf|exact Hdecl].
  intros x Henum Hcurrent. exfalso.
  destruct Hkind as [Hne|Hnot]; [contradiction|].
  destruct (currentValue_kind _ _ _ Hwf Hdecl Henum) as [Hsame _].
  rewrite Hcurrent in Hsame. apply Hnot. symmetry. exact Hsame.
Qed.

(** ** Well-formedness is established and kept *)

Section WellFormed.
Context {LC : LexicalCastDouble} {FE : StyleFrontEnds} {FU : FileUtils}.

Lemma defaults_wf (d : MBVectorTileDecoder) :
  Map_wf (_map d) ->
  _parameterValueMap d = defaultParameterValueMap (_map d) ->
  decoder_wf d.
Proof.
  intros Hmap Hvalues. split; [exact Hmap|]. split.
  - eapply defaults_ok; [reflexivity|exact Hvalues].
  - intros name v. rewrite Hvalues, defaultParameterValueMap_lookup.
    destruct (getNutiParameterMap (_map d) !! name) as [nutiParam|] eqn:Hdecl;
      [|discriminate].
    intros [= <-]. apply (Hmap _ _ Hdecl).
Qed.

Lemma construct_wf styleSet d :
  construct styleSet = Return d -> Map_wf (_map d) -> decoder_wf d.
Proof. intros Hnew Hmap. apply defaults_wf; [exact Hmap|]. eapply construct_values, Hnew. Qed.

Lemma parseStyleValue_wf default value val :
  parseStyleValue default value = Return val -> Value_wf val.
Proof.
  unfold parseStyleValue. destruct default; simpl.
  - intros [= <-]. exact I.
  - destruct (String.eqb value "true"); [intros [= <-]; exact I|].
    destruct (String.eqb value "false"); [intros [= <-]; exact I|].
    destruct (lexical_cast.to_bool value); [intros [= <-]; exact I|discriminate].
  - destruct (lexical_cast.to_long_long value) as [parsed|] eqn:Hparsed; [|discriminate].
    intros [= <-]. simpl. eapply lexical_cast_facts.to_long_long_range, Hparsed.
  - destruct (to_double value); [intros [= <-]; exact I|discriminate].
  - intros [= <-]. exact I.
Qed.

Lemma setStyleParameter_wf param value w :
  decoder_wf (this w) -> decoder_wf (this (setStyleParameter param value w).2).
Proof.
  intros (Hmap & Hok & Hrange).
  pose proof (setStyleParameter_ok param value w Hok) as Hok'.
  split; [|split; [exact Hok'|]].
  - destruct (setStyleParameter_cases param value w)
      as [[msg ->]|[[ex ->]|(nutiParam & val & _ & _ & ->)]]; exact Hmap.
  - destruct (getNutiParameterMap (_map (this w)) !! param) as [nutiParam|] eqn:Hdecl.
    + destruct (getEnumMap nutiParam) as [|e m] eqn:Henum.
      * destruct (parseStyleValue (getDefaultValue nutiParam) value) as [val|ex] eqn:Hparse.
        -- rewrite (setStyleParameter_scalar _ _ _ _ _ Hdecl Henum Hparse). cbn [snd].
           intros name v. rewrite assigned_values.
           destruct (decide (param = name)) as [<-|Hne].
           ++ rewrite lookup_insert_eq. intros [= <-]. eapply parseStyleValue_wf, Hparse.
           ++ rewrite lookup_insert_ne by assumption. apply Hrange.
        -- rewrite (setStyleParameter_scalar_throws _ _ _ _ _ Hdecl Henum Hparse).
           exact Hrange.
      * assert (Hne : getEnumMap nutiParam <> []) by (rewrite Henum; discriminate).
        destruct (enum_find value (getEnumMap nutiParam)) as [val|] eqn:Hfind.
        -- rewrite (setStyleParameter_enum_hit _ _ _ _ _ Hdecl Hne Hfind). cbn [snd].
           intros name v. rewrite assigned_values.
           destruct (decide (param = name)) as [<-|Hneq].
           ++ rewrite lookup_insert_eq. intros [= <-].
              destruct (Hmap _ _ Hdecl) as (_ & _ & Henumwf).
              eapply Henumwf, enum_find_In, Hfind.
           ++ rewrite lookup_insert_ne by assumption. apply Hrange.
        -- rewrite (setStyleParameter_enum_miss _ _ _ _ Hdecl Hne Hfind). exact Hrange.
    + rewrite (setStyleParameter_unknown _ _ _ Hdecl). exact Hrange.
Qed.

End WellFormed.

(** The sample decoders are well-formed. *)

Lemma fixture_map_wf : Map_wf Fixture.style_map.
Proof.
  intros name nutiParam Hdecl. simpl in Hdecl.
  apply lookup_insert_Some in Hdecl.
  destruct Hdecl as [[_ <-]|[_ Hdecl]].
  { repeat split; [constructor|]. intros label v []. }
  apply lookup_insert_Some in Hdecl.
  destruct Hdecl as [[_ <-]|[_ Hdecl]].
  - split; [vm_compute; split; discriminate|]. split.
    + repeat constructor.
    + intros label v [[= _ <-]|[[= _ <-]|[]]]; vm_compute; split; discriminate.
  - apply lookup_singleton_Some in Hdecl. destruct Hdecl as [_ <-].
    repeat split; [constructor|]. intros label v [].
Qed.

Lemma fixture_decoder_wf : decoder_wf Fixture.decoder.
Proof.
  apply (construct_wf (FE := Fixture.front_ends) (FU := Fixture.file_utils)
           (CartoCSS Fixture.cartocss_style)).
  - vm_compute. reflexivity.
  - exact fixture_map_wf.
Qed.

Lemma tenth_decoder_wf : decoder_wf (this Fixture.world_tenth).
Proof.
  apply (setStyleParameter_wf (LC := boost_lexical_cast)). exact fixture_decoder_wf.
Qed.

Lemma style_parameter_round_trip_witness :
  getStyleParameter (LC := boost_lexical_cast) (this Fixture.world_tenth) "label_size"
  = Return "0.10000000000000001"
  /\ exists ok w',
      setStyleParameter (LC := boost_lexical_cast) "label_size" "0.10000000000000001"
        Fixture.world_tenth = (Return ok, w')
      /\ getStyleParameter (LC := boost_lexical_cast) (this w') "label_size"
         = Return "0.10000000000000001".
Proof.
  destruct (style_parameter_round_trip Fixture.world_tenth "label_size" Fixture.label_size)
    as (text & Hget & ok & w' & Hset & Hget').
  - exact tenth_decoder_wf.
  - vm_compute. reflexivity.
  - assert (Htext : text = "0.10000000000000001").
    { vm_compute in Hget. injection Hget as <-. reflexivity. }
    subst text. split; [exact Hget|]. exists ok, w'. split; assumption.
Defined.

Lemma round_trip_without_double_casts_witness :
  getStyleParameter (LC := Fixture.coarse_double_codec) (this Fixture.world) "show_labels"
  = Return "1"
  /\ exists ok w',
      setStyleParameter (LC := Fixture.coarse_double_codec) "show_labels" "1"
        Fixture.world = (Return ok, w')
      /\ getStyleParameter (LC := Fixture.coarse_double_codec) (this w') "show_labels"
         = Return "1".
Proof.
  destruct (round_trip_without_double_casts (LC := Fixture.coarse_double_codec)
              Fixture.world "show_labels" Fixture.show_labels)
    as (text & Hget & ok & w' & Hset & Hget').
  - exact fixture_decoder_wf.
  - vm_compute. reflexivity.
  - right. discriminate.
  - assert (Htext : text = "1").
    { vm_compute in Hget. injection Hget as <-. reflexivity. }
    subst text. split; [exact Hget|]. exists ok, w'. split; assumption.
Defined.

(** ** Errors of style installation *)

Section InstallationErrors.
Context {FE : StyleFrontEnds} {FU : FileUtils}.

Lemma installation_error_taxonomy ignored styleSet kind e :
  installation_error ignored styleSet kind e -> taxonomy e = Some kind.
Proof. destruct 1; reflexivity. Qed.

Lemma installation_error_thrown ignored styleSet kind e :
  installation_error ignored styleSet kind e ->
  loadStyleMap ignored styleSet = Throw e.
Proof.
  unfold loadStyleMap.
  destruct 1 as [s ex Hload|s Hname|s Hname Hasset|s data Hname Hasset Hxml Hdoc
                 |s data doc ex Hname Hasset Hxml Hdoc Hparse
                 |s data ex Hname Hasset Hxml Hjson Hload
                 |s data Hname Hasset Hxml Hjson].
  - rewrite Hload. reflexivity.
  - rewrite Hname. reflexivity.
  - apply String.eqb_neq in Hname. rewrite Hname, Hasset. reflexivity.
  - apply String.eqb_neq in Hname. rewrite Hname, Hasset, Hxml, Hdoc. reflexivity.
  - apply String.eqb_neq in Hname. rewrite Hname, Hasset, Hxml, Hdoc, Hparse. reflexivity.
  - apply String.eqb_neq in Hname. rewrite Hname, Hasset, Hxml, Hjson, Hload. reflexivity.
  - apply String.eqb_neq in Hname. rewrite Hname, Hasset, Hxml, Hjson. reflexivity.
Qed.

Lemma thrown_installation_error ignored styleSet e :
  loadStyleMap ignored styleSet = Throw e ->
  exists kind, installation_error ignored styleSet kind e.
Proof.
  unfold loadStyleMap. destruct styleSet as [s|s].
  - destruct (String.eqb (getStyleAssetName s) "") eqn:Hname.
    { apply String.eqb_eq in Hname. intros [= <-]. eexists.
      apply compiled_without_asset_name, Hname. }
    apply String.eqb_neq in Hname.
    destruct (styleAsset s) as [data|] eqn:Hasset.
    2:{ intros [= <-]. eexists. apply compiled_asset_missing; assumption. }
    destruct (ends_with (getStyleAssetName s) ".xml") eqn:Hxml.
    + destruct (load_buffer data) as [doc|] eqn:Hdoc.
      * destruct (parseMap doc) as [map|ex] eqn:Hparse; simpl; [discriminate|].
        intros [= <-]. eexists. eapply xml_style_malformed; eassumption.
      * intros [= <-]. eexists. eapply xml_document_unreadable; eassumption.
    + destruct (ends_with (getStyleAssetName s) ".json") eqn:Hjson.
      * destruct (loadMapProject _ _ _ _) as [map|ex] eqn:Hload; simpl; [discriminate|].
        intros [= <-]. eexists. eapply project_malformed; eassumption.
      * intros [= <-]. eexists. eapply suffix_unsupported; eassumption.
  - destruct (loadMap _ _ _ _) as [map|ex] eqn:Hload; simpl; [discriminate|].
    intros [= <-]. eexists. apply cartocss_text_malformed, Hload.
Qed.

Lemma loadCurrentStyle_throws ignored styleSet e :
  loadCurrentStyle ignored styleSet = Throw e <-> loadStyleMap ignored styleSet = Throw e.
Proof.
  unfold loadCurrentStyle.
  destruct (loadStyleMap ignored styleSet) as [[[name data] map]|e'];
    split; intros H; congruence.
Qed.

Lemma construct_throws styleSet e :
  construct styleSet = Throw e <-> loadStyleMap false styleSet = Throw e.
Proof.
  rewrite <- loadCurrentStyle_throws. unfold construct.
  destruct (loadCurrentStyle false styleSet); split; intros H; congruence.
Qed.

Lemma updateCurrentStyle_throws styleSet w e w' :
  updateCurrentStyle styleSet w = (Throw e, w') <->
  loadStyleMap (_cartoCSSLayerNamesIgnored (this w)) styleSet = Throw e /\ w' = w.
Proof.
  rewrite <- loadCurrentStyle_throws.
  destruct (updateCurrentStyle_cases styleSet w)
    as [(cs & Hload & w'' & -> & _)|(e' & Hload & ->)]; rewrite Hload;
    split; [discriminate|intros [[=] _]|intros [= -> ->]; auto|intros [[= ->] ->]; reflexivity].
Qed.

(** The style setters throw what [updateCurrentStyle] throws, with the world
    as it was (no notification), and notify once otherwise. *)
Lemma setter_outcome styleSet w :
  bind (updateCurrentStyle styleSet) (fun _ => notifyDecoderChanged) w
  = match updateCurrentStyle styleSet w with
    | (Return _, w') => (Return tt, log_event DecoderChanged w')
    | (Throw e, w') => (Throw e, w')
    end.
Proof. unfold bind. destruct (updateCurrentStyle styleSet w) as [[[]|e] w']; reflexivity. Qed.

(** C7, amended: style installation fails exactly as [installation_error]
    says, through the constructors and through the style setters (which then
    leave the decoder as it was and do not notify): a style text or project
    the front-end rejects, or an XML document whose processing fails, gives
    a parse error that carries the parser's message; an XML asset that does
    not read as a document gives a parse error without one; an empty asset
    name or a null style source gives an invalid-argument error; an asset
    that does not load gives the asset error; and a loaded asset whose name
    ends in neither ".xml" nor ".json" gives the format error. *)
Theorem style_installation_errors (w : World) (styleSet : StyleSet) (e : Exception) :
  ((exists kind, installation_error false styleSet kind e)
   <-> construct styleSet = Throw e)
  /\ ((exists kind,
         installation_error (_cartoCSSLayerNamesIgnored (this w)) styleSet kind e)
      <-> setStyleSet styleSet w = (Throw e, w))
  /\ (forall ignored kind,
        installation_error ignored styleSet kind e -> taxonomy e = Some kind)
  /\ new_from_CompiledStyleSet None = Throw (NullArgumentException "Null compiledStyleSet")
  /\ new_from_CartoCSSStyleSet None = Throw (NullArgumentException "Null cartoCSSStyleSet")
  /\ setCompiledStyleSet None w = (Throw (NullArgumentException "Null styleSet"), w)
  /\ setCartoCSSStyleSet None w = (Throw (NullArgumentException "Null styleSet"), w)
  /\ (forall msg, taxonomy (NullArgumentException msg) = Some InvalidConfigError).
Proof.
  split; [|split; [|split]].
  - rewrite construct_throws. split.
    + intros [kind Herr]. eapply installation_error_thrown, Herr.
    + apply thrown_installation_error.
  - replace (setStyleSet styleSet w)
      with (bind (updateCurrentStyle styleSet) (fun _ => notifyDecoderChanged) w)
      by (destruct styleSet; reflexivity).
    rewrite setter_outcome. split.
    + intros [kind Herr]. apply installation_error_thrown in Herr.
      assert (Hupd : updateCurrentStyle styleSet w = (Throw e, w))
        by (apply updateCurrentStyle_throws; auto).
      rewrite Hupd. reflexivity.
    + destruct (updateCurrentStyle styleSet w) as [[[]|e'] w'] eqn:Hupd; [discriminate|].
      intros [= -> ->]. apply updateCurrentStyle_throws in Hupd.
      apply thrown_installation_error, Hupd.
  - intros ignored kind. apply installation_error_taxonomy.
  - repeat split; reflexivity.
Qed.

End InstallationErrors.

(** C7 (as the code has it): an XML style asset that does not read as a
    document raises a parse error that carries no parser message, and an
    asset name ending in ".txt" whose asset does not load raises the asset
    error, not the format error. *)
Lemma installation_errors_outside_the_taxonomy :
  new_from_CompiledStyleSet (FE := Fixture.front_ends) (FU := Fixture.file_utils)
    (Some Fixture.broken_xml_style)
  = Throw (ParseException "Style element XML parsing failed" "")
  /\ new_from_CompiledStyleSet (FE := Fixture.front_ends) (FU := Fixture.file_utils)
       (Some Fixture.missing_txt_style)
     = Throw (GenericException "Failed to load style description asset").
Proof. split; vm_compute; reflexivity. Qed.

(** ** The decoder cache, one caller *)

Section Decoding.
Context {TC : TileCodec}.

Lemma cachedDecoder_cases (tileData : shared_ptr BinaryData) (w : World) :
  (exists decoder,
      cache_lookup tileData w = (Return (Some decoder), w)
      /\ cachedDecoder tileData w = (Return decoder, w))
  \/ (exists parsed,
      cache_lookup tileData w = (Return None, w)
      /\ new_MBVTFeatureDecoder (pointee tileData) = Return parsed
      /\ cachedDecoder tileData w
         = (Return (fresh_decoder parsed w),
            installed tileData (fresh_decoder parsed w) (allocated w)))
  \/ (exists ex,
      cache_lookup tileData w = (Return None, w)
      /\ new_MBVTFeatureDecoder (pointee tileData) = Throw ex
      /\ cachedDecoder tileData w = (Throw ex, w)).
Proof.
  unfold cachedDecoder, bind.
  assert (Hlookup : exists hit, cache_lookup tileData w = (Return hit, w)).
  { unfold cache_lookup, bind, get_this. simpl.
    destruct (_cachedFeatureDecoder (this w)) as [[data decoder]|]; [|eauto].
    destruct (Nat.eqb (address data) (address tileData)); eauto. }
  destruct Hlookup as [[decoder|] Hlookup]; rewrite Hlookup.
  - left. eauto.
  - right. unfold cache_parse, bind, lift.
    destruct (new_MBVTFeatureDecoder (pointee tileData)) as [parsed|ex].
    + left. exists parsed. auto.
    + right. exists ex. auto.
Qed.

Lemma cachedDecoder_frame (tileData : shared_ptr BinaryData) w :
  same_but_cache (this (cachedDecoder tileData w).2) (this w)
  /\ trace (cachedDecoder tileData w).2 = trace w.
Proof.
  destruct (cachedDecoder_cases tileData w)
    as [(decoder & _ & ->)|[(parsed & _ & _ & ->)|(ex & _ & _ & ->)]];
    split; reflexivity.
Qed.

(** After the cache block, the rest of the [try] block of [decodeFeature]
    changes nothing. *)
Lemma decodeFeature_try_world id (tileData : shared_ptr BinaryData) tileBounds w :
  (decodeFeature_try id tileData tileBounds w).2 = (cachedDecoder tileData w).2.
Proof.
  unfold decodeFeature_try, bind, lift.
  destruct (cachedDecoder tileData w) as [[decoder|ex] w1]; [|reflexivity].
  destruct (getFeature (pointee decoder) id) as [[[layer feature]|]|ex]; try reflexivity.
  destruct (new_Feature _ _); reflexivity.
Qed.

Lemma decodeFeature_caught id tile (tileData : shared_ptr BinaryData) tileBounds w :
  pointee tileData <> [] ->
  decodeFeature id tile (Some tileData) tileBounds w
  = match decodeFeature_try id tileData tileBounds w with
    | (Return r, w') => (Return r, w')
    | (Throw ex, w') =>
        (Return None,
         log_event
           (LogError ("MBVectorTileDecoder::decodeFeature: Exception while decoding: "
                      +:+ what ex)) w')
    end.
Proof.
  intros Hdata. unfold decodeFeature.
  destruct (pointee tileData) as [|b data]; [done|].
  unfold try_catch. destruct (decodeFeature_try id tileData tileBounds w) as [[r|ex] w'];
    reflexivity.
Qed.

Lemma decodeTile_try_world tile targetTile (tileData : shared_ptr BinaryData) map ctx
    buffer idOverride name w :
  (decodeTile_try tile targetTile tileData map ctx buffer idOverride name w).2 = w.
Proof.
  unfold decodeTile_try, bind, lift.
  destruct (new_MBVTFeatureDecoder (pointee tileData)) as [decoder|ex]; [|reflexivity].
  destruct (readTile _ _ _ _ _) as [[read|]|ex]; reflexivity.
Qed.

(** C4, amended: [decodeFeature] and [decodeTile] always return and never
    throw; a null or empty payload gives an absent result and leaves the
    decoder as it was; an exception thrown inside the [try] block is logged
    and turned into an absent result; [decodeTile] leaves the decoder as it
    was, and [decodeFeature] leaves every field as it was except the
    feature-decoder cache, which a miss that parsed has already replaced
    when a later step throws. *)
Theorem decode_never_throws (id : Z) (tile targetTile : TileId)
    (tileData : option (shared_ptr BinaryData)) (tileBounds : MapBounds) (w : World) :
  (exists r w',
      decodeFeature id tile tileData tileBounds w = (Return r, w')
      /\ same_but_cache (this w') (this w)
      /\ (this w' = this w
          \/ exists data parsed,
               tileData = Some data
               /\ new_MBVTFeatureDecoder (pointee data) = Return parsed
               /\ this w'
                  = set_cachedFeatureDecoder (Some (data, fresh_decoder parsed w)) (this w))
      /\ ((tileData = None \/ exists data, tileData = Some data /\ pointee data = [])
          -> r = None /\ this w' = this w)
      /\ (forall data ex w1,
            tileData = Some data -> pointee data <> [] ->
            decodeFeature_try id data tileBounds w = (Throw ex, w1) ->
            r = None
            /\ trace w' = (trace w ++ [LogError ("MBVectorTileDecoder::decodeFeature: Exception while decoding: " +:+ what ex)])%list))
  /\ (exists r w',
      decodeTile tile targetTile tileData w = (Return r, w')
      /\ this w' = this w
      /\ ((tileData = None \/ exists data, tileData = Some data /\ pointee data = [])
          -> r = None)
      /\ (forall data ex w1,
            tileData = Some data -> pointee data <> [] ->
            decodeTile_try tile targetTile data (_map (this w))
              (_symbolizerContext (this w)) (_buffer (this w))
              (_featureIdOverride (this w)) (_layerNameOverride (this w)) w
            = (Throw ex, w1) ->
            r = None
            /\ trace w' = (trace w ++ [LogError ("MBVectorTileDecoder::decodeTile: Exception while decoding: " +:+ what ex)])%list)).
Proof.
  split.
  - destruct tileData as [data|].
    + destruct (pointee data) as [|b bytes] eqn:Hdata.
      * exists None, w. unfold decodeFeature. rewrite Hdata.
        split; [reflexivity|]. split; [reflexivity|]. split; [auto|]. split; [auto|].
        intros data' ex w1 [= <-] Hne. congruence.
      * assert (Hne : pointee data <> []) by (rewrite Hdata; discriminate).
        rewrite (decodeFeature_caught _ _ _ _ _ Hne).
        pose proof (decodeFeature_try_world id data tileBounds w) as Hworld.
        destruct (cachedDecoder_frame data w) as [Hframe Htrace].
        assert (Hcache : this (cachedDecoder data w).2 = this w
                         \/ exists parsed,
                              new_MBVTFeatureDecoder (pointee data) = Return parsed
                              /\ this (cachedDecoder data w).2
                                 = set_cachedFeatureDecoder
                                     (Some (data, fresh_decoder parsed w)) (this w)).
        { destruct (cachedDecoder_cases data w)
            as [(decoder & _ & ->)|[(parsed & _ & Hparsed & ->)|(ex & _ & _ & ->)]];
            [left; reflexivity|right; exists parsed; auto|left; reflexivity]. }
        rewrite <- Hworld in Hframe, Htrace, Hcache.
        assert (Hcache' : this (decodeFeature_try id data tileBounds w).2 = this w
                          \/ exists data' parsed,
                               Some data = Some data'
                               /\ new_MBVTFeatureDecoder (pointee data') = Return parsed
                               /\ this (decodeFeature_try id data tileBounds w).2
                                  = set_cachedFeatureDecoder
                                      (Some (data', fresh_decoder parsed w)) (this w)).
        { destruct Hcache as [Hsame|(parsed & Hparsed & Hset)]; [left; exact Hsame|].
          right. exists data, parsed. auto. }
        clear Hcache.
        destruct (decodeFeature_try id data tileBounds w) as [[r|ex] w1] eqn:Htry;
          cbn [snd] in *.
        -- exists r, w1. split; [reflexivity|]. split; [exact Hframe|].
           split; [exact Hcache'|]. split.
           ++ intros [[=]|(data' & [= <-] & Hempty)]. congruence.
           ++ intros data' ex w2 [= <-] _ Hthrow. congruence.
        -- eexists None, _. split; [reflexivity|]. split; [exact Hframe|].
           split; [exact Hcache'|]. split.
           ++ intros [[=]|(data' & [= <-] & Hempty)]. congruence.
           ++ intros data' ex' w2 [= <-] _ Hthrow.
              rewrite Htry in Hthrow. injection Hthrow as <- <-. split; [reflexivity|].
              simpl. rewrite Htrace. reflexivity.
    + eexists None, _. split; [reflexivity|]. split; [reflexivity|].
      split; [left; reflexivity|]. split; [auto|].
      intros data ex w1 [=].
  - destruct tileData as [data|].
    + destruct (pointee data) as [|b bytes] eqn:Hdata.
      * exists None, w. unfold decodeTile. rewrite Hdata.
        split; [reflexivity|]. split; [reflexivity|]. split; [auto|].
        intros data' ex w1 [= <-] Hne. congruence.
      * unfold decodeTile. rewrite Hdata. unfold bind, get_this, try_catch.
        pose proof (decodeTile_try_world tile targetTile data (_map (this w))
                      (_symbolizerContext (this w)) (_buffer (this w))
                      (_featureIdOverride (this w)) (_layerNameOverride (this w)) w)
          as Hworld.
        destruct (decodeTile_try _ _ _ _ _ _ _ _ _) as [[r|ex] w1] eqn:Htry;
          cbn [snd] in Hworld; subst w1.
        -- exists r, w. split; [reflexivity|]. split; [reflexivity|]. split.
           ++ intros [[=]|(data' & [= <-] & Hempty)]. congruence.
           ++ intros data' ex w2 [= <-] _ Hthrow. congruence.
        -- eexists None, _. split; [reflexivity|]. split; [reflexivity|]. split.
           ++ intros _. reflexivity.
           ++ intros data' ex' w2 [= <-] _ Hthrow.
              rewrite Htry in Hthrow. injection Hthrow as <- <-. split; reflexivity.
    + eexists None, _. split; [reflexivity|]. split; [reflexivity|]. split; [auto|].
      intros data ex w1 [=].
Qed.

End Decoding.

(** C4 (as the code has it): a miss parses the payload and installs the new
    decoder; when the feature lookup then throws, the call returns absent,
    yet the cache no longer is what it was. *)
Lemma decodeFeature_failure_moves_cache :
  (decodeFeature (TC := Fixture.codec) 3 Fixture.tile (Some Fixture.payload)
     Fixture.bounds Fixture.world).1 = Return None
  /\ _cachedFeatureDecoder
       (this (decodeFeature (TC := Fixture.codec) 3 Fixture.tile (Some Fixture.payload)
                Fixture.bounds Fixture.world).2)
     = Some (Fixture.payload, Fixture.decoder_at 0)
  /\ _cachedFeatureDecoder (this Fixture.world) = None.
Proof. vm_compute. repeat split; reflexivity. Qed.

(** ** The geometry a feature comes back with *)

Lemma convertGeometry_type (convert : PointConversionFunction) (g : mvt_Geometry)
    (k : WireType) :
  wire_type g = Some k ->
  exists geometry,
    convertGeometry convert g = Some geometry
    /\ geometry_type geometry
       = if Nat.eqb (wire_parts g) 1 then singular k else multi k.
Proof.
  destruct g as [vertices|verticesList|polygonList|]; simpl; intros [= <-].
  - destruct vertices as [|v [|v' vertices]]; simpl; eexists; split; reflexivity.
  - destruct verticesList as [|v [|v' verticesList]]; simpl; eexists; split; reflexivity.
  - destruct polygonList as [|v [|v' polygonList]]; simpl; eexists; split; reflexivity.
Qed.

(** ** Concurrent callers and the cache *)

Section Concurrency.
Context {TC : TileCodec}.

(** A caller that arrives when the cache holds a decoder for its payload
    takes that decoder and parses nothing. *)
Lemma entering_hit (callers : list Caller) (w : World) (i : nat)
    (tileData data : shared_ptr BinaryData) (cached : shared_ptr MBVTFeatureDecoder) :
  callers !! i = Some (Entering tileData) ->
  _cachedFeatureDecoder (this w) = Some (data, cached) ->
  address data = address tileData ->
  thread_step i (callers, w) = (<[i := Holding cached]> callers, w).
Proof.
  intros Hi Hcache Haddr. unfold thread_step. cbn [fst snd]. rewrite Hi.
  unfold caller_step, cache_lookup, bind, get_this. simpl.
  rewrite Hcache, Haddr, Nat.eqb_refl. reflexivity.
Qed.

(** The thread model read back as the method: a caller on its own goes
    through the cache block exactly as [cachedDecoder] does. *)
Lemma single_caller_is_cachedDecoder (tileData : shared_ptr BinaryData) (w : World) :
  run_schedule [0; 0; 0]%nat ([Entering tileData], w)
  = match cachedDecoder tileData w with
    | (Return decoder, w') => ([Holding decoder], w')
    | (Throw ex, w') => ([Caught ex], w')
    end.
Proof.
  unfold run_schedule, thread_step, caller_step, cachedDecoder, bind, try_catch.
  cbn [fold_left fst snd lookup list_lookup].
  assert (Hlookup : exists hit, cache_lookup tileData w = (Return hit, w)).
  { unfold cache_lookup, bind, get_this. simpl.
    destruct (_cachedFeatureDecoder (this w)) as [[data decoder]|]; [|eauto].
    destruct (Nat.eqb (address data) (address tileData)); eauto. }
  destruct Hlookup as [[decoder|] ->]; cbn; [reflexivity|].
  unfold cache_parse, bind, lift.
  destruct (new_MBVTFeatureDecoder (pointee tileData)) as [parsed|ex]; reflexivity.
Qed.

Lemma thread_step_other (i j : nat) (cfg : list Caller * World) :
  i <> j -> (thread_step j cfg).1 !! i = cfg.1 !! i.
Proof.
  intros Hne. unfold thread_step.
  destruct (cfg.1 !! j) as [c|]; [|reflexivity].
  destruct (caller_step c cfg.2) as [[c'|ex] w']; [|reflexivity].
  cbn [fst]. apply list_lookup_insert_ne. congruence.
Qed.

(** What the other threads do leaves a thread where it stands. *)
Lemma run_schedule_other (i : nat) (schedule : list nat) :
  Forall (fun j => j <> i) schedule ->
  forall cfg, (run_schedule schedule cfg).1 !! i = cfg.1 !! i.
Proof.
  unfold run_schedule. induction 1 as [|j schedule Hj _ IH]; intros cfg; [reflexivity|].
  cbn [fold_left]. rewrite IH. apply thread_step_other. congruence.
Qed.

(** C3, amended: a caller that has parsed its payload with the lock released
    installs its own decoder when it gets the lock back, whatever the other
    callers did to the cache in between (there is no second look at the
    cache); it goes on with its own decoder, and nothing but the cache
    changes. *)
Theorem install_replaces_cached_decoder (callers : list Caller) (w : World) (i : nat)
    (tileData : shared_ptr BinaryData) (decoder : shared_ptr MBVTFeatureDecoder)
    (others : list nat) :
  callers !! i = Some (Installing tileData decoder) ->
  Forall (fun j => j <> i) others ->
  exists callers' w',
    run_schedule others (callers, w) = (callers', w')
    /\ thread_step i (callers', w')
       = (<[i := Holding decoder]> callers', installed tileData decoder w')
    /\ _cachedFeatureDecoder (this (installed tileData decoder w'))
       = Some (tileData, decoder)
    /\ same_but_cache (this (installed tileData decoder w')) (this w').
Proof.
  intros Hi Hothers.
  pose proof (run_schedule_other i others Hothers (callers, w)) as Hstill.
  destruct (run_schedule others (callers, w)) as [callers' w'].
  cbn [fst] in Hstill. rewrite Hi in Hstill.
  exists callers', w'. split; [reflexivity|]. split; [|split; reflexivity].
  unfold thread_step. cbn [fst snd]. rewrite Hstill. reflexivity.
Qed.

End Concurrency.

(** C3 (as the code has it): two callers miss on the same payload and both
    parse; the first installs its decoder (address 0); the second, back
    under the lock, finds it installed for the same payload, and replaces
    it with its own (address 1).  The callers end up holding different
    decoders. *)
Lemma second_installer_overwrites :
  run_schedule (TC := Fixture.codec) [0; 1; 0; 1; 0]%nat
    ([Entering Fixture.payload; Entering Fixture.payload], Fixture.world)
  = ([Holding (Fixture.decoder_at 0);
      Installing Fixture.payload (Fixture.decoder_at 1)],
     Fixture.world_caching 2 (Fixture.decoder_at 0))
  /\ run_schedule (TC := Fixture.codec) [0; 1; 0; 1; 0; 1]%nat
       ([Entering Fixture.payload; Entering Fixture.payload], Fixture.world)
     = ([Holding (Fixture.decoder_at 0); Holding (Fixture.decoder_at 1)],
        Fixture.world_caching 2 (Fixture.decoder_at 1)).
Proof. split; vm_compute; reflexivity. Qed.

(** Both callers have parsed; the second installs first, then the first
    installs over it. *)
Lemma install_replaces_cached_decoder_witness :
  exists callers' w',
    run_schedule (TC := Fixture.codec) [1%nat]
      ([Installing Fixture.payload (Fixture.decoder_at 0);
        Installing Fixture.payload (Fixture.decoder_at 1)],
       Fixture.world)
    = (callers', w')
    /\ thread_step (TC := Fixture.codec) 0 (callers', w')
       = (<[0%nat := Holding (Fixture.decoder_at 0)]> callers',
          installed Fixture.payload (Fixture.decoder_at 0) w')
    /\ _cachedFeatureDecoder
         (this (installed Fixture.payload (Fixture.decoder_at 0) w'))
       = Some (Fixture.payload, Fixture.decoder_at 0)
    /\ same_but_cache
         (this (installed Fixture.payload (Fixture.decoder_at 0) w')) (this w').
Proof.
  apply (install_replaces_cached_decoder (TC := Fixture.codec)
           [Installing Fixture.payload (Fixture.decoder_at 0);
            Installing Fixture.payload (Fixture.decoder_at 1)]
           Fixture.world 0 Fixture.payload (Fixture.decoder_at 0) [1%nat]).
  - reflexivity.
  - repeat constructor. discriminate.
Defined.

(** ** The coordinate conversion, in double arithmetic *)

Module double_facts.







End double_facts.




(** The origin needs finite extents: between the least and the greatest
    finite double the extent overflows to infinity, 0 times infinity is NaN,
    and (0,0) maps to NaN. *)
Example origin_needs_finite_extent :
  not_nan (getX (getMin Fixture.wide_bounds)) = true
  /\ is_finite (getX (getMax Fixture.wide_bounds)
                - getX (getMin Fixture.wide_bounds))%float = false
  /\ not_nan (getX (convertFn Fixture.wide_bounds (0, 0)%float)) = false.
Proof. repeat split; vm_compute; reflexivity. Qed.

(** ** Further properties of setStyleParameter *)

Section Refusals.
Context {LC : LexicalCastDouble}.

(** X1: a refused assignment (unknown name, or a label the enum does not
    have) returns false, leaves the decoder as it was, logs one line and sends no
    notification. *)
Theorem setStyleParameter_refused (param value : string) (w : World) :
  (getNutiParameterMap (_map (this w)) !! param = None
   \/ exists nutiParam,
       getNutiParameterMap (_map (this w)) !! param = Some nutiParam
       /\ getEnumMap nutiParam <> []
       /\ enum_find value (getEnumMap nutiParam) = None) ->
  exists msg w',
    setStyleParameter param value w = (Return false, w')
    /\ this w' = this w
    /\ trace w' = (trace w ++ [LogInfo msg])%list.
Proof.
  intros [Hunknown|(nutiParam & Hdecl & Henum & Hfind)].
  - rewrite (setStyleParameter_unknown _ _ _ Hunknown). eexists _, _. auto.
  - rewrite (setStyleParameter_enum_miss _ _ _ _ Hdecl Henum Hfind). eexists _, _. auto.
Qed.

(** X2: whenever [setStyleParameter] throws, the world is as it was;
    whenever it returns true, exactly one notification was sent and nothing
    was logged; whenever it returns false, the decoder is as it was. *)
Theorem setStyleParameter_effects (param value : string) (w : World) :
  match setStyleParameter param value w with
  | (Throw _, w') => w' = w
  | (Return true, w') => trace w' = (trace w ++ [DecoderChanged])%list
  | (Return false, w') => this w' = this w
  end.
Proof.
  destruct (getNutiParameterMap (_map (this w)) !! param) as [nutiParam|] eqn:Hdecl.
  - destruct (getEnumMap nutiParam) as [|e m] eqn:Henum.
    + destruct (parseStyleValue (getDefaultValue nutiParam) value) as [val|ex] eqn:Hparse.
      * rewrite (setStyleParameter_scalar _ _ _ _ _ Hdecl Henum Hparse). reflexivity.
      * rewrite (setStyleParameter_scalar_throws _ _ _ _ _ Hdecl Henum Hparse). reflexivity.
    + assert (Hne : getEnumMap nutiParam <> []) by (rewrite Henum; discriminate).
      destruct (enum_find value (getEnumMap nutiParam)) as [val|] eqn:Hfind.
      * rewrite (setStyleParameter_enum_hit _ _ _ _ _ Hdecl Hne Hfind). reflexivity.
      * rewrite (setStyleParameter_enum_miss _ _ _ _ Hdecl Hne Hfind). reflexivity.
  - rewrite (setStyleParameter_unknown _ _ _ Hdecl). reflexivity.
Qed.

End Refusals.

Lemma setStyleParameter_refused_witness :
  exists msg w',
    setStyleParameter (LC := Fixture.coarse_double_codec) "theme" "blue" Fixture.world
    = (Return false, w')
    /\ this w' = this Fixture.world
    /\ trace w' = (trace Fixture.world ++ [LogInfo msg])%list.
Proof.
  apply (setStyleParameter_refused (LC := Fixture.coarse_double_codec)
           "theme" "blue" Fixture.world).
  right. exists Fixture.theme. split; [vm_compute; reflexivity|].
  split; [discriminate|vm_compute; reflexivity].
Defined.

(** X3: the enum scenario: "theme" with labels dark = 1 and light = 0,
    default 0, reads "light"; set to "dark" it reads "dark"; "blue" is
    refused and changes nothing. *)
Lemma theme_scenario :
  getStyleParameter (LC := Fixture.coarse_double_codec) Fixture.decoder "theme"
  = Return "light"
  /\ (setStyleParameter (LC := Fixture.coarse_double_codec) "theme" "dark"
        Fixture.world).1 = Return true
  /\ getStyleParameter (LC := Fixture.coarse_double_codec)
       (this (setStyleParameter (LC := Fixture.coarse_double_codec) "theme" "dark"
                Fixture.world).2) "theme"
     = Return "dark"
  /\ (setStyleParameter (LC := Fixture.coarse_double_codec) "theme" "blue"
        Fixture.world).1 = Return false
  /\ getStyleParameter (LC := Fixture.coarse_double_codec)
       (this (setStyleParameter (LC := Fixture.coarse_double_codec) "theme" "blue"
                Fixture.world).2) "theme"
     = Return "light".
Proof. vm_compute. repeat split; reflexivity. Qed.

(** ** Installation starts every parameter at its default *)

Section Defaults.
Context {FE : StyleFrontEnds} {FU : FileUtils}.

(** X4: after construction, and after a style setter that returned, the
    parameter value map holds exactly the declared parameters, each at its
    declared default. *)
Theorem installation_sets_defaults (styleSet : StyleSet) (w : World) (name : string) :
  (forall d, construct styleSet = Return d ->
             _parameterValueMap d !! name
             = getDefaultValue <$> getNutiParameterMap (_map d) !! name)
  /\ (forall w', setStyleSet styleSet w = (Return tt, w') ->
                 _parameterValueMap (this w') !! name
                 = getDefaultValue <$> getNutiParameterMap (_map (this w')) !! name).
Proof.
  split.
  - intros d Hnew. rewrite (construct_values _ _ Hnew).
    apply defaultParameterValueMap_lookup.
  - intros w'.
    replace (setStyleSet styleSet w)
      with (bind (updateCurrentStyle styleSet) (fun _ => notifyDecoderChanged) w)
      by (destruct styleSet; reflexivity).
    unfold bind.
    destruct (updateCurrentStyle_cases styleSet w)
      as [(cs & Hload & w1 & -> & Hmap & Hvalues & _)|(e & _ & ->)]; [|discriminate].
    intros [= <-]. cbn [this notifyDecoderChanged emit snd].
    rewrite Hvalues, Hmap, (loadCurrentStyle_values _ _ _ Hload).
    apply defaultParameterValueMap_lookup.
Qed.

End Defaults.

(** ** The plain settings *)

(** Whatever reads only the style state reads the same after a change that
    leaves the style state alone. *)
Lemma style_state_fields (d d' : MBVectorTileDecoder) :
  style_state d = style_state d' ->
  _map d = _map d' /\ _parameterValueMap d = _parameterValueMap d'
  /\ _backgroundPattern d = _backgroundPattern d'
  /\ _symbolizerContext d = _symbolizerContext d' /\ _styleSet d = _styleSet d'.
Proof. unfold style_state. intros [= -> -> -> -> ->]. repeat split. Qed.

Lemma style_state_readings {LC : LexicalCastDouble} (d d' : MBVectorTileDecoder) :
  style_state d = style_state d' ->
  (forall param, getStyleParameter d param = getStyleParameter d' param)
  /\ getStyleParameters d = getStyleParameters d'
  /\ getBackgroundColor d = getBackgroundColor d'
  /\ getBackgroundPattern d = getBackgroundPattern d'
  /\ getCompiledStyleSet d = getCompiledStyleSet d'
  /\ getCartoCSSStyleSet d = getCartoCSSStyleSet d'.
Proof.
  intros H. destruct (style_state_fields _ _ H) as (Hm & Hv & Hp & Hc & Hs).
  unfold getStyleParameter, getStyleParameters, getBackgroundColor,
    getBackgroundPattern, getCompiledStyleSet, getCartoCSSStyleSet.
  rewrite Hm, Hv, Hp, Hs. repeat split.
Qed.

Section PlainSettings.
Context {LC : LexicalCastDouble}.

(** X6: each of the four plain setters (setBuffering, setFeatureIdOverride,
    setCartoCSSLayerNamesIgnored, setLayerNameOverride) returns normally,
    makes its getter read the value just set, leaves the three other
    settings, the style state, the decoder cache and the allocation counter
    as they were, and sends exactly one decoder-changed notification; and
    no reading of the style (parameters, their names, background, style
    set) changes with it. *)
Theorem plain_setters_round_trip (w : World) (buffer : float)
    (idOverride ignore : bool) (name : string) :
  (exists w',
      setBuffering buffer w = (Return tt, w')
      /\ getBuffering (this w') = buffer
      /\ isFeatureIdOverride (this w') = isFeatureIdOverride (this w)
      /\ isCartoCSSLayerNamesIgnored (this w') = isCartoCSSLayerNamesIgnored (this w)
      /\ getLayerNameOverride (this w') = getLayerNameOverride (this w)
      /\ style_state (this w') = style_state (this w)
      /\ _cachedFeatureDecoder (this w') = _cachedFeatureDecoder (this w)
      /\ trace w' = (trace w ++ [DecoderChanged])%list
      /\ next_address w' = next_address w)
  /\ (exists w',
      setFeatureIdOverride idOverride w = (Return tt, w')
      /\ getBuffering (this w') = getBuffering (this w)
      /\ isFeatureIdOverride (this w') = idOverride
      /\ isCartoCSSLayerNamesIgnored (this w') = isCartoCSSLayerNamesIgnored (this w)
      /\ getLayerNameOverride (this w') = getLayerNameOverride (this w)
      /\ style_state (this w') = style_state (this w)
      /\ _cachedFeatureDecoder (this w') = _cachedFeatureDecoder (this w)
      /\ trace w' = (trace w ++ [DecoderChanged])%list
      /\ next_address w' = next_address w)
  /\ (exists w',
      setCartoCSSLayerNamesIgnored ignore w = (Return tt, w')
      /\ getBuffering (this w') = getBuffering (this w)
      /\ isFeatureIdOverride (this w') = isFeatureIdOverride (this w)
      /\ isCartoCSSLayerNamesIgnored (this w') = ignore
      /\ getLayerNameOverride (this w') = getLayerNameOverride (this w)
      /\ style_state (this w') = style_state (this w)
      /\ _cachedFeatureDecoder (this w') = _cachedFeatureDecoder (this w)
      /\ trace w' = (trace w ++ [DecoderChanged])%list
      /\ next_address w' = next_address w)
  /\ (exists w',
      setLayerNameOverride name w = (Return tt, w')
      /\ getBuffering (this w') = getBuffering (this w)
      /\ isFeatureIdOverride (this w') = isFeatureIdOverride (this w)
      /\ isCartoCSSLayerNamesIgnored (this w') = isCartoCSSLayerNamesIgnored (this w)
      /\ getLayerNameOverride (this w') = name
      /\ style_state (this w') = style_state (this w)
      /\ _cachedFeatureDecoder (this w') = _cachedFeatureDecoder (this w)
      /\ trace w' = (trace w ++ [DecoderChanged])%list
      /\ next_address w' = next_address w)
  /\ (forall d',
        style_state d' = style_state (this w) ->
        (forall param, getStyleParameter d' param = getStyleParameter (this w) param)
        /\ getStyleParameters d' = getStyleParameters (this w)
        /\ getBackgroundColor d' = getBackgroundColor (this w)
        /\ getBackgroundPattern d' = getBackgroundPattern (this w)
        /\ getCompiledStyleSet d' = getCompiledStyleSet (this w)
        /\ getCartoCSSStyleSet d' = getCartoCSSStyleSet (this w)).
Proof.
  split; [|split; [|split; [|split]]].
  - eexists. split; [reflexivity|]. cbn. repeat split.
  - eexists. split; [reflexivity|]. cbn. repeat split.
  - eexists. split; [reflexivity|]. cbn. repeat split.
  - eexists. split; [reflexivity|]. cbn. repeat split.
  - intros d' H. apply style_state_readings, H.
Qed.

End PlainSettings.

(** ** The layer-names flag and the style-set getters *)

Section StyleSetGetters.
Context {FE : StyleFrontEnds} {FU : FileUtils}.

Lemma updateCurrentStyle_returns styleSet w cs :
  loadCurrentStyle (_cartoCSSLayerNamesIgnored (this w)) styleSet = Return cs ->
  exists w',
    updateCurrentStyle styleSet w = (Return tt, w')
    /\ style_state (this w')
       = (cs_map cs, cs_parameterValueMap cs, cs_backgroundPattern cs,
          cs_symbolizerContext cs, styleSet)
    /\ plain_settings (this w') = plain_settings (this w)
    /\ _cachedFeatureDecoder (this w') = _cachedFeatureDecoder (this w)
    /\ trace w' = trace w
    /\ next_address w' = next_address w.
Proof.
  intros Hload. unfold updateCurrentStyle, bind, get_this, lift, put_this.
  rewrite Hload. eexists. split; [reflexivity|]. cbn. repeat split.
Qed.

Lemma setStyleSet_outcome styleSet w :
  setStyleSet styleSet w
  = match updateCurrentStyle styleSet w with
    | (Return _, w') => (Return tt, log_event DecoderChanged w')
    | (Throw e, w') => (Throw e, w')
    end.
Proof.
  destruct styleSet; cbn [setStyleSet setCompiledStyleSet setCartoCSSStyleSet];
    apply setter_outcome.
Qed.

Lemma setStyleSet_returns styleSet w cs :
  loadCurrentStyle (_cartoCSSLayerNamesIgnored (this w)) styleSet = Return cs ->
  exists w',
    setStyleSet styleSet w = (Return tt, w')
    /\ style_state (this w')
       = (cs_map cs, cs_parameterValueMap cs, cs_backgroundPattern cs,
          cs_symbolizerContext cs, styleSet)
    /\ plain_settings (this w') = plain_settings (this w)
    /\ _cachedFeatureDecoder (this w') = _cachedFeatureDecoder (this w)
    /\ trace w' = (trace w ++ [DecoderChanged])%list
    /\ next_address w' = next_address w.
Proof.
  intros Hload.
  destruct (updateCurrentStyle_returns _ _ _ Hload) as (w' & Hup & Hs & Hp & Hc & Ht & Hn).
  rewrite setStyleSet_outcome, Hup. eexists. split; [reflexivity|].
  cbn [log_event this trace next_address]. rewrite Ht. repeat split; assumption.
Qed.

Lemma setStyleSet_throws styleSet w e :
  loadCurrentStyle (_cartoCSSLayerNamesIgnored (this w)) styleSet = Throw e ->
  setStyleSet styleSet w = (Throw e, w).
Proof.
  intros Hload. rewrite setStyleSet_outcome.
  unfold updateCurrentStyle, bind, get_this, lift. rewrite Hload. reflexivity.
Qed.

(** Either a style loads, and the setter installs it, or loading throws and
    the setter throws the same and changes nothing. *)
Lemma setStyleSet_cases styleSet w :
  (exists cs w',
      loadCurrentStyle (_cartoCSSLayerNamesIgnored (this w)) styleSet = Return cs
      /\ setStyleSet styleSet w = (Return tt, w')
      /\ style_state (this w')
         = (cs_map cs, cs_parameterValueMap cs, cs_backgroundPattern cs,
            cs_symbolizerContext cs, styleSet)
      /\ plain_settings (this w') = plain_settings (this w)
      /\ _cachedFeatureDecoder (this w') = _cachedFeatureDecoder (this w)
      /\ trace w' = (trace w ++ [DecoderChanged])%list
      /\ next_address w' = next_address w)
  \/ (exists e,
      loadCurrentStyle (_cartoCSSLayerNamesIgnored (this w)) styleSet = Throw e
      /\ setStyleSet styleSet w = (Throw e, w)).
Proof.
  destruct (loadCurrentStyle (_cartoCSSLayerNamesIgnored (this w)) styleSet)
    as [cs|e] eqn:Hload.
  - left. destruct (setStyleSet_returns _ _ _ Hload) as (w' & H). eauto.
  - right. exists e. split; [reflexivity|]. apply setStyleSet_throws, Hload.
Qed.

(** X7: setCartoCSSLayerNamesIgnored stores the flag without reloading the
    style: the style model, the parameter values and the style set stay as
    they were.  The flag takes effect at the next style-set setter, which
    loads the style with the flag as last set (and keeps the flag), while a
    constructor always loads with the flag off. *)
Theorem layer_names_flag_applies_at_next_installation (ignore : bool)
    (styleSet : StyleSet) (w : World) :
  style_state (this (setCartoCSSLayerNamesIgnored ignore w).2) = style_state (this w)
  /\ (forall cs,
        loadCurrentStyle ignore styleSet = Return cs ->
        exists w',
          setStyleSet styleSet (setCartoCSSLayerNamesIgnored ignore w).2
          = (Return tt, w')
          /\ _map (this w') = cs_map cs
          /\ isCartoCSSLayerNamesIgnored (this w') = ignore)
  /\ (forall e,
        loadCurrentStyle ignore styleSet = Throw e ->
        setStyleSet styleSet (setCartoCSSLayerNamesIgnored ignore w).2
        = (Throw e, (setCartoCSSLayerNamesIgnored ignore w).2))
  /\ (forall d,
        construct styleSet = Return d ->
        isCartoCSSLayerNamesIgnored d = false
        /\ exists cs, loadCurrentStyle false styleSet = Return cs /\ _map d = cs_map cs).
Proof.
  split; [reflexivity|]. split; [|split].
  - intros cs Hload.
    destruct (setStyleSet_returns styleSet (setCartoCSSLayerNamesIgnored ignore w).2 cs)
      as (w' & Hset & Hs & Hp & _); [exact Hload|].
    exists w'. split; [exact Hset|].
    unfold style_state in Hs. injection Hs as Hm _ _ _ _.
    unfold plain_settings in Hp. injection Hp as _ _ Hi _.
    split; [exact Hm|]. exact Hi.
  - intros e Hload. apply setStyleSet_throws. exact Hload.
  - intros d. unfold construct.
    destruct (loadCurrentStyle false styleSet) as [cs|e]; [|discriminate].
    intros [= <-]. split; [reflexivity|]. exists cs. split; reflexivity.
Qed.

End StyleSetGetters.

Section StyleSetGetters2.
Context {FE : StyleFrontEnds} {FU : FileUtils}.

(** X8: the two style-set getters.  Exactly one of them is non-null.  After
    a constructor or a style-set setter that returned, the getter of the
    kind installed returns the style set just given and the other returns
    null; a new decoder has buffering 0, both flags off, no layer-name
    override and an empty decoder cache, and a setter keeps the four plain
    settings and the decoder cache.
    After a setter that threw (also on a null argument) both getters return
    what they returned before. *)
Theorem style_set_getters (w : World) :
  (forall d, (getCompiledStyleSet d = None <-> getCartoCSSStyleSet d <> None))
  /\ (forall compiled d,
        new_from_CompiledStyleSet (Some compiled) = Return d ->
        getCompiledStyleSet d = Some compiled /\ getCartoCSSStyleSet d = None
        /\ plain_settings d = (0%float, false, false, "")
        /\ _cachedFeatureDecoder d = None)
  /\ (forall cartoCSS d,
        new_from_CartoCSSStyleSet (Some cartoCSS) = Return d ->
        getCartoCSSStyleSet d = Some cartoCSS /\ getCompiledStyleSet d = None
        /\ plain_settings d = (0%float, false, false, "")
        /\ _cachedFeatureDecoder d = None)
  /\ (forall compiled w',
        setCompiledStyleSet (Some compiled) w = (Return tt, w') ->
        getCompiledStyleSet (this w') = Some compiled
        /\ getCartoCSSStyleSet (this w') = None
        /\ plain_settings (this w') = plain_settings (this w)
        /\ _cachedFeatureDecoder (this w') = _cachedFeatureDecoder (this w))
  /\ (forall cartoCSS w',
        setCartoCSSStyleSet (Some cartoCSS) w = (Return tt, w') ->
        getCartoCSSStyleSet (this w') = Some cartoCSS
        /\ getCompiledStyleSet (this w') = None
        /\ plain_settings (this w') = plain_settings (this w)
        /\ _cachedFeatureDecoder (this w') = _cachedFeatureDecoder (this w))
  /\ (forall compiled e w',
        setCompiledStyleSet compiled w = (Throw e, w') ->
        getCompiledStyleSet (this w') = getCompiledStyleSet (this w)
        /\ getCartoCSSStyleSet (this w') = getCartoCSSStyleSet (this w))
  /\ (forall cartoCSS e w',
        setCartoCSSStyleSet cartoCSS w = (Throw e, w') ->
        getCompiledStyleSet (this w') = getCompiledStyleSet (this w)
        /\ getCartoCSSStyleSet (this w') = getCartoCSSStyleSet (this w)).
Proof.
  assert (Hset : forall styleSet w',
             setStyleSet styleSet w = (Return tt, w') ->
             _styleSet (this w') = styleSet
             /\ plain_settings (this w') = plain_settings (this w)
             /\ _cachedFeatureDecoder (this w') = _cachedFeatureDecoder (this w)).
  { intros styleSet w' H.
    destruct (setStyleSet_cases styleSet w)
      as [(cs & w1 & _ & Hret & Hs & Hp & Hc & _)|(e & _ & Hthrow)].
    - rewrite Hret in H. injection H as <-.
      unfold style_state in Hs. injection Hs as _ _ _ _ Hs. auto.
    - rewrite Hthrow in H. discriminate. }
  assert (Hthrow : forall styleSet e w',
             setStyleSet styleSet w = (Throw e, w') -> w' = w).
  { intros styleSet e w' H.
    destruct (setStyleSet_cases styleSet w)
      as [(cs & w1 & _ & Hret & _)|(e' & _ & Hthrow)].
    - rewrite Hret in H. discriminate.
    - rewrite Hthrow in H. injection H as _ <-. reflexivity. }
  assert (Hnew : forall styleSet d,
             construct styleSet = Return d ->
             _styleSet d = styleSet
             /\ plain_settings d = (0%float, false, false, "")
             /\ _cachedFeatureDecoder d = None).
  { intros styleSet d. unfold construct.
    destruct (loadCurrentStyle false styleSet); [|discriminate].
    intros [= <-]. repeat split. }
  split; [|split; [|split; [|split; [|split; [|split]]]]].
  - intros d. unfold getCompiledStyleSet, getCartoCSSStyleSet.
    destruct (_styleSet d); split; intros H; try discriminate; try reflexivity.
    exfalso. apply H. reflexivity.
  - intros compiled d H. apply Hnew in H as (Hs & Hp & Hc).
    unfold getCompiledStyleSet, getCartoCSSStyleSet. rewrite Hs. auto.
  - intros cartoCSS d H. apply Hnew in H as (Hs & Hp & Hc).
    unfold getCompiledStyleSet, getCartoCSSStyleSet. rewrite Hs. auto.
  - intros compiled w' H. apply (Hset (Compiled compiled)) in H as (Hs & Hp & Hc).
    unfold getCompiledStyleSet, getCartoCSSStyleSet. rewrite Hs. auto.
  - intros cartoCSS w' H. apply (Hset (CartoCSS cartoCSS)) in H as (Hs & Hp & Hc).
    unfold getCompiledStyleSet, getCartoCSSStyleSet. rewrite Hs. auto.
  - intros [compiled|] e w' H.
    + apply (Hthrow (Compiled compiled)) in H as ->. auto.
    + cbn in H. injection H as _ <-. auto.
  - intros [cartoCSS|] e w' H.
    + apply (Hthrow (CartoCSS cartoCSS)) in H as ->. auto.
    + cbn in H. injection H as _ <-. auto.
Qed.

End StyleSetGetters2.

(** ** The list of style parameters *)

Module keys_facts.

Lemma ltb_of_leb (a b : string) : String.leb a b = true -> a <> b -> String.ltb a b = true.
Proof.
  unfold String.leb, String.ltb. destruct (String.compare a b) eqn:Hcmp; try done.
  intros _ Hne. apply String.compare_eq_iff in Hcmp. contradiction.
Qed.

Lemma Sorted_strict (l : list string) :
  Sorted (fun a b => is_true (String.leb a b)) l -> List.NoDup l ->
  Sorted (fun a b => String.ltb a b = true) l.
Proof.
  induction 1 as [|a l Hsorted IH Hhd]; intros Hnodup; [constructor|].
  inversion Hnodup as [|? ? Hnotin Hnodup']; subst.
  constructor; [auto|].
  destruct Hhd as [|b l Hab]; constructor.
  apply ltb_of_leb; [exact Hab|]. intros ->. apply Hnotin. left. reflexivity.
Qed.

Lemma In_keys_in_order {A} (m : gmap string A) (name : string) :
  In name (keys_in_order m) <-> exists a, m !! name = Some a.
Proof.
  unfold keys_in_order.
  assert (Hperm := StringSort.Permuted_sort (List.map fst (map_to_list m))).
  split.
  - intros Hin. apply (Permutation.Permutation_in _ (Permutation.Permutation_sym Hperm)) in Hin.
    apply in_map_iff in Hin as ([k a] & Hk & Hin). cbn in Hk. subst k.
    apply list_elem_of_In, elem_of_map_to_list in Hin. eauto.
  - intros [a Ha]. apply (Permutation.Permutation_in _ Hperm).
    apply in_map_iff. exists (name, a). split; [reflexivity|].
    apply list_elem_of_In, elem_of_map_to_list, Ha.
Qed.

Lemma NoDup_keys_in_order {A} (m : gmap string A) : List.NoDup (keys_in_order m).
Proof.
  unfold keys_in_order.
  eapply Permutation.Permutation_NoDup; [apply StringSort.Permuted_sort|].
  apply NoDup_ListNoDup, (NoDup_fst_map_to_list m).
Qed.

Lemma Sorted_keys_in_order {A} (m : gmap string A) :
  Sorted (fun a b => String.ltb a b = true) (keys_in_order m).
Proof.
  apply Sorted_strict; [|apply NoDup_keys_in_order].
  apply StringSort.Sorted_sort.
Qed.

Lemma length_keys_in_order {A} (m : gmap string A) :
  length (keys_in_order m) = size m.
Proof.
  unfold keys_in_order.
  rewrite <- (Permutation.Permutation_length
                (StringSort.Permuted_sort (List.map fst (map_to_list m)))).
  rewrite length_map. apply length_map_to_list.
Qed.

End keys_facts.

Section StyleParameterNames.
Context {LC : LexicalCastDouble}.

Lemma getStyleParameter_returns_iff (d : MBVectorTileDecoder) (name : string) :
  (exists text, getStyleParameter d name = Return text)
  <-> exists nutiParam, getNutiParameterMap (_map d) !! name = Some nutiParam.
Proof.
  unfold getStyleParameter.
  destruct (getNutiParameterMap (_map d) !! name) as [nutiParam|].
  - split; [eauto|]. intros _.
    destruct (getEnumMap nutiParam); [eauto|].
    match goal with |- context [find ?f ?l] => destruct (find f l) end; eauto.
  - split; intros [? H]; discriminate.
Qed.

(** X9: getStyleParameters lists exactly the names on which
    getStyleParameter returns (rather than throws), which are the names
    setStyleParameter does not refuse as unknown; each once, in strictly
    ascending order, as many as the style declares.  No call of
    setStyleParameter changes the list. *)
Theorem getStyleParameters_lists_declared (w : World) :
  (forall name,
      In name (getStyleParameters (this w))
      <-> exists text, getStyleParameter (this w) name = Return text)
  /\ (forall name,
        ~ In name (getStyleParameters (this w))
        <-> getStyleParameter (this w) name
            = Throw (InvalidArgumentException "Could not find parameter"))
  /\ List.NoDup (getStyleParameters (this w))
  /\ Sorted (fun a b => String.ltb a b = true) (getStyleParameters (this w))
  /\ length (getStyleParameters (this w)) = size (getNutiParameterMap (_map (this w)))
  /\ (forall param value,
        getStyleParameters (this (setStyleParameter param value w).2)
        = getStyleParameters (this w)).
Proof.
  split; [|split; [|split; [|split; [|split]]]].
  - intros name. rewrite getStyleParameter_returns_iff.
    apply keys_facts.In_keys_in_order.
  - intros name. unfold getStyleParameters.
    rewrite keys_facts.In_keys_in_order. unfold getStyleParameter.
    destruct (getNutiParameterMap (_map (this w)) !! name) as [nutiParam|].
    + split.
      * intros H. exfalso. apply H. eauto.
      * destruct (getEnumMap nutiParam); [discriminate|].
        match goal with |- context [find ?f ?l] => destruct (find f l) end;
          discriminate.
    + split; [reflexivity|]. intros _ [? H]. discriminate.
  - apply keys_facts.NoDup_keys_in_order.
  - apply keys_facts.Sorted_keys_in_order.
  - apply keys_facts.length_keys_in_order.
  - intros param value. unfold getStyleParameters.
    destruct (setStyleParameter_cases param value w)
      as [(msg & ->)|[(ex & ->)|(nutiParam & val & _ & _ & ->)]];
      cbn [snd]; [reflexivity|reflexivity|].
    rewrite assigned_map. reflexivity.
Qed.

End StyleParameterNames.

(** ** What setStyleParameter stores, and where *)

Section Stored.
Context {LC : LexicalCastDouble}.

Lemma assigned_this param val w : this (assigned param val w) = stored param val (this w).
Proof. reflexivity. Qed.

Lemma assigned_next_address param val w :
  next_address (assigned param val w) = next_address w.
Proof. reflexivity. Qed.

Lemma stored_fields param val d :
  _map (stored param val d) = _map d
  /\ _parameterValueMap (stored param val d) = <[param := val]> (_parameterValueMap d)
  /\ _backgroundPattern (stored param val d) = _backgroundPattern d
  /\ _styleSet (stored param val d) = _styleSet d
  /\ _cachedFeatureDecoder (stored param val d) = _cachedFeatureDecoder d
  /\ plain_settings (stored param val d) = plain_settings d
  /\ getBitmapManager (_symbolizerContext (stored param val d))
     = getBitmapManager (_symbolizerContext d)
  /\ getFontManager (_symbolizerContext (stored param val d))
     = getFontManager (_symbolizerContext d)
  /\ getStrokeMap (_symbolizerContext (stored param val d))
     = getStrokeMap (_symbolizerContext d)
  /\ getGlyphMap (_symbolizerContext (stored param val d))
     = getGlyphMap (_symbolizerContext d)
  /\ getSettings_ctx (_symbolizerContext (stored param val d))
     = {| tileSize := DEFAULT_TILE_SIZE;
          nutiParameterValueMap := <[param := val]> (_parameterValueMap d) |}.
Proof. repeat split. Qed.

Lemma stored_stored param val val' d :
  stored param val (stored param val' d) = stored param val d.
Proof.
  unfold stored, storeStyleValue, bind, get_this, put_this. cbn.
  unfold set_symbolizerContext, set_parameterValueMap. cbn.
  rewrite !insert_insert_eq. reflexivity.
Qed.

Lemma stored_commute param1 val1 param2 val2 d :
  param1 <> param2 ->
  stored param2 val2 (stored param1 val1 d) = stored param1 val1 (stored param2 val2 d).
Proof.
  intros Hne. unfold stored, storeStyleValue, bind, get_this, put_this. cbn.
  unfold set_symbolizerContext, set_parameterValueMap. cbn.
  rewrite (insert_insert_ne (_parameterValueMap d) param2 param1) by congruence.
  reflexivity.
Qed.

(** The three ways a call of [setStyleParameter] ends, by what it asks to
    store. *)
Lemma setStyleParameter_requested param value w :
  match requestedValue (_map (this w)) param value with
  | Throw ex => setStyleParameter param value w = (Throw ex, w)
  | Return None =>
      exists msg, setStyleParameter param value w = (Return false, log_event (LogInfo msg) w)
  | Return (Some val) => setStyleParameter param value w = (Return true, assigned param val w)
  end.
Proof.
  unfold requestedValue.
  destruct (getNutiParameterMap (_map (this w)) !! param) as [nutiParam|] eqn:Hparam.
  - destruct (getEnumMap nutiParam) as [|entry entries] eqn:Henum.
    + destruct (parseStyleValue (getDefaultValue nutiParam) value) as [val|ex] eqn:Hparse.
      * eapply setStyleParameter_scalar; eauto.
      * eapply setStyleParameter_scalar_throws; eauto.
    + rewrite <- Henum.
      destruct (enum_find value (getEnumMap nutiParam)) as [val|] eqn:Hfind.
      * eapply setStyleParameter_enum_hit; eauto. rewrite Henum. discriminate.
      * eexists. eapply setStyleParameter_enum_miss; eauto. rewrite Henum. discriminate.
  - eexists. apply setStyleParameter_unknown, Hparam.
Qed.

Lemma setStyleParameter_this param value w :
  this (setStyleParameter param value w).2
  = match requestedValue (_map (this w)) param value with
    | Return (Some val) => stored param val (this w)
    | _ => this w
    end.
Proof.
  assert (H := setStyleParameter_requested param value w).
  destruct (requestedValue (_map (this w)) param value) as [[val|]|ex].
  - rewrite H. reflexivity.
  - destruct H as [msg ->]. reflexivity.
  - rewrite H. reflexivity.
Qed.

Lemma setStyleParameter_outcome param value w :
  (setStyleParameter param value w).1
  = match requestedValue (_map (this w)) param value with
    | Return (Some _) => Return true
    | Return None => Return false
    | Throw ex => Throw ex
    end.
Proof.
  assert (H := setStyleParameter_requested param value w).
  destruct (requestedValue (_map (this w)) param value) as [[val|]|ex].
  - rewrite H. reflexivity.
  - destruct H as [msg ->]. reflexivity.
  - rewrite H. reflexivity.
Qed.

Lemma setStyleParameter_map param value w :
  _map (this (setStyleParameter param value w).2) = _map (this w).
Proof.
  rewrite setStyleParameter_this.
  destruct (requestedValue (_map (this w)) param value) as [[val|]|ex]; reflexivity.
Qed.

Lemma setStyleParameter_next_address param value w :
  next_address (setStyleParameter param value w).2 = next_address w.
Proof.
  assert (H := setStyleParameter_requested param value w).
  destruct (requestedValue (_map (this w)) param value) as [[val|]|ex].
  - rewrite H. reflexivity.
  - destruct H as [msg ->]. reflexivity.
  - rewrite H. reflexivity.
Qed.

(** X11: setStyleParameter, whatever its arguments and however it ends,
    touches nothing but the value of the named parameter and the settings
    of the symbolizer context: the style model, the background pattern, the
    style set, the decoder cache, the four plain settings, the bitmap, font,
    stroke and glyph managers and the allocation counter stay as they were,
    and every other parameter reads as before. *)
Theorem setStyleParameter_frame (param value : string) (w : World) :
  _map (this (setStyleParameter param value w).2) = _map (this w)
  /\ getBackgroundPattern (this (setStyleParameter param value w).2)
     = getBackgroundPattern (this w)
  /\ getBackgroundColor (this (setStyleParameter param value w).2)
     = getBackgroundColor (this w)
  /\ _styleSet (this (setStyleParameter param value w).2) = _styleSet (this w)
  /\ _cachedFeatureDecoder (this (setStyleParameter param value w).2)
     = _cachedFeatureDecoder (this w)
  /\ plain_settings (this (setStyleParameter param value w).2) = plain_settings (this w)
  /\ getBitmapManager (_symbolizerContext (this (setStyleParameter param value w).2))
     = getBitmapManager (_symbolizerContext (this w))
  /\ getFontManager (_symbolizerContext (this (setStyleParameter param value w).2))
     = getFontManager (_symbolizerContext (this w))
  /\ getStrokeMap (_symbolizerContext (this (setStyleParameter param value w).2))
     = getStrokeMap (_symbolizerContext (this w))
  /\ getGlyphMap (_symbolizerContext (this (setStyleParameter param value w).2))
     = getGlyphMap (_symbolizerContext (this w))
  /\ next_address (setStyleParameter param value w).2 = next_address w
  /\ (forall other,
        other <> param ->
        _parameterValueMap (this (setStyleParameter param value w).2) !! other
        = _parameterValueMap (this w) !! other)
  /\ (forall other,
        other <> param ->
        getStyleParameter (this (setStyleParameter param value w).2) other
        = getStyleParameter (this w) other).
Proof.
  assert (Hvalues : forall other,
             other <> param ->
             _parameterValueMap (this (setStyleParameter param value w).2) !! other
             = _parameterValueMap (this w) !! other).
  { intros other Hne. rewrite setStyleParameter_this.
    destruct (requestedValue (_map (this w)) param value) as [[val|]|ex];
      try reflexivity.
    destruct (stored_fields param val (this w)) as (_ & -> & _).
    apply lookup_insert_ne. congruence. }
  split; [apply setStyleParameter_map|].
  repeat match goal with
         | |- _ /\ _ => split
         end;
    try (rewrite setStyleParameter_this;
         destruct (requestedValue (_map (this w)) param value) as [[val|]|ex];
         reflexivity).
  - apply setStyleParameter_next_address.
  - exact Hvalues.
  - intros other Hne. unfold getStyleParameter.
    rewrite setStyleParameter_map, (Hvalues other Hne). reflexivity.
Qed.

(** X12: setStyleParameter is idempotent on the decoder, not on its
    observers: repeating a call that returned true returns true again and
    leaves the decoder exactly as the first call left it, yet sends a second
    decoder-changed notification. *)
Theorem setStyleParameter_idempotent (param value : string) (w w1 : World) :
  setStyleParameter param value w = (Return true, w1) ->
  exists w2,
    setStyleParameter param value w1 = (Return true, w2)
    /\ this w2 = this w1
    /\ trace w2 = (trace w1 ++ [DecoderChanged])%list
    /\ trace w1 = (trace w ++ [DecoderChanged])%list.
Proof.
  intros Hfirst.
  assert (H := setStyleParameter_requested param value w).
  destruct (requestedValue (_map (this w)) param value) as [[val|]|ex] eqn:Hreq.
  - rewrite H in Hfirst. injection Hfirst as <-.
    assert (H1 := setStyleParameter_requested param value (assigned param val w)).
    rewrite assigned_map, Hreq in H1.
    exists (assigned param val (assigned param val w)).
    split; [exact H1|]. split; [|split].
    + rewrite !assigned_this. apply stored_stored.
    + apply assigned_trace.
    + apply assigned_trace.
  - destruct H as [msg H]. rewrite H in Hfirst. discriminate.
  - rewrite H in Hfirst. discriminate.
Qed.

(** X13: calls of setStyleParameter on two different parameters commute:
    in either order they end with the same decoder, and each call ends the
    same way (true, false or the exception) whether it runs first or
    second.  How a call ends never depends on the calls before it. *)
Theorem setStyleParameter_commutes (param1 value1 param2 value2 : string) (w : World) :
  param1 <> param2 ->
  this (setStyleParameter param2 value2 (setStyleParameter param1 value1 w).2).2
  = this (setStyleParameter param1 value1 (setStyleParameter param2 value2 w).2).2
  /\ (setStyleParameter param2 value2 (setStyleParameter param1 value1 w).2).1
     = (setStyleParameter param2 value2 w).1
  /\ (setStyleParameter param1 value1 (setStyleParameter param2 value2 w).2).1
     = (setStyleParameter param1 value1 w).1.
Proof.
  intros Hne. split; [|split].
  - rewrite (setStyleParameter_this param2), (setStyleParameter_this param1 value1 (_ _ w).2).
    rewrite !setStyleParameter_map, !setStyleParameter_this.
    destruct (requestedValue (_map (this w)) param1 value1) as [[val1|]|ex1];
      destruct (requestedValue (_map (this w)) param2 value2) as [[val2|]|ex2];
      try reflexivity.
    apply stored_commute, Hne.
  - rewrite !setStyleParameter_outcome, setStyleParameter_map. reflexivity.
  - rewrite !setStyleParameter_outcome, setStyleParameter_map. reflexivity.
Qed.

(** X14: writing then reading a scalar (non-enum) parameter.  If the text
    parses against the declared kind, setStyleParameter returns true and
    getStyleParameter then returns the stored value printed, so a text
    parameter reads back exactly the text given, while an integer reads
    back in canonical decimal form and a boolean as "1" or "0", and a
    parameter declared without a default value accepts every text and
    still reads as the empty text; if the text does not parse the call
    throws and nothing changes. *)
Theorem scalar_set_then_get (param text : string) (nutiParam : NutiParameter) (w : World) :
  getNutiParameterMap (_map (this w)) !! param = Some nutiParam ->
  getEnumMap nutiParam = [] ->
  match parseStyleValue (getDefaultValue nutiParam) text with
  | Return val =>
      exists w',
        setStyleParameter param text w = (Return true, w')
        /\ getStyleParameter (this w') param = Return (printStyleValue val)
  | Throw ex => setStyleParameter param text w = (Throw ex, w)
  end
  /\ (forall default,
        getDefaultValue nutiParam = VString default ->
        getStyleParameter (this (setStyleParameter param text w).2) param = Return text)
  /\ (forall default n,
        getDefaultValue nutiParam = VLongLong default ->
        lexical_cast.to_long_long text = Some n ->
        getStyleParameter (this (setStyleParameter param text w).2) param
        = Return (lexical_cast.string_of_long_long n))
  /\ (getDefaultValue nutiParam = blank ->
      getStyleParameter (this (setStyleParameter param text w).2) param = Return "")
  /\ (forall default,
        getDefaultValue nutiParam = VBool default ->
        (text = "true" \/ text = "1" ->
         getStyleParameter (this (setStyleParameter param text w).2) param = Return "1")
        /\ (text = "false" \/ text = "0" ->
            getStyleParameter (this (setStyleParameter param text w).2) param
            = Return "0")).
Proof.
  intros Hparam Henum.
  assert (Hget : forall val,
             parseStyleValue (getDefaultValue nutiParam) text = Return val ->
             setStyleParameter param text w = (Return true, assigned param val w)
             /\ getStyleParameter (this (assigned param val w)) param
                = Return (printStyleValue val)).
  { intros val Hparse. split.
    - eapply setStyleParameter_scalar; eauto.
    - rewrite (getStyleParameter_declared _ param nutiParam)
        by (rewrite assigned_map; exact Hparam).
      rewrite Henum, currentValue_assigned. reflexivity. }
  assert (Hafter : forall val,
             parseStyleValue (getDefaultValue nutiParam) text = Return val ->
             getStyleParameter (this (setStyleParameter param text w).2) param
             = Return (printStyleValue val)).
  { intros val Hparse. destruct (Hget val Hparse) as [-> H]. exact H. }
  split; [|split; [|split; [|split]]].
  - destruct (parseStyleValue (getDefaultValue nutiParam) text) as [val|ex] eqn:Hparse.
    + destruct (Hget val eq_refl) as [Hset Hread]. eauto.
    + eapply setStyleParameter_scalar_throws; eauto.
  - intros default Hdefault. apply (Hafter (VString text)).
    rewrite Hdefault. reflexivity.
  - intros default n Hdefault Hcast. apply (Hafter (VLongLong n)).
    rewrite Hdefault. cbn. rewrite Hcast. reflexivity.
  - intros Hdefault. apply (Hafter blank). rewrite Hdefault. reflexivity.
  - intros default Hdefault. split.
    + intros [-> | ->]; apply (Hafter (VBool true)); rewrite Hdefault; reflexivity.
    + intros [-> | ->]; apply (Hafter (VBool false)); rewrite Hdefault; reflexivity.
Qed.

(** X15: writing then reading an enum parameter.  setStyleParameter with a
    label of the enum returns true, and getStyleParameter then returns a
    label of the enum whose value equals the value of the label given (the
    first such in the enum's order): the label given when no other label
    stands for an equal value, possibly another one otherwise. *)
Theorem enum_set_then_get (param label : string) (nutiParam : NutiParameter)
    (val : Value) (w : World) :
  getNutiParameterMap (_map (this w)) !! param = Some nutiParam ->
  enum_find label (getEnumMap nutiParam) = Some val ->
  Value_eqb val val = true ->
  exists w' label' val',
    setStyleParameter param label w = (Return true, w')
    /\ getStyleParameter (this w') param = Return label'
    /\ In (label', val') (getEnumMap nutiParam)
    /\ Value_eqb val' val = true
    /\ ((forall l v, In (l, v) (getEnumMap nutiParam) -> Value_eqb v val = true -> l = label)
        -> label' = label).
Proof.
  intros Hparam Hfind Hself.
  assert (Hne : getEnumMap nutiParam <> []).
  { intros Hnil. rewrite Hnil in Hfind. discriminate. }
  exists (assigned param val w).
  assert (Hread := getStyleParameter_declared (this (assigned param val w)) param nutiParam).
  rewrite assigned_map in Hread. specialize (Hread Hparam).
  rewrite currentValue_assigned in Hread.
  destruct (getEnumMap nutiParam) as [|entry entries] eqn:Henum; [contradiction|].
  rewrite <- Henum in *.
  destruct (find (fun e => Value_eqb e.2 val) (getEnumMap nutiParam))
    as [[label' val']|] eqn:Hfirst.
  - apply find_some in Hfirst as [Hin Heq]. cbn in Heq.
    exists label', val'. split; [|split; [|split; [|split]]].
    + eapply setStyleParameter_enum_hit; eauto.
    + exact Hread.
    + exact Hin.
    + exact Heq.
    + intros Hunique. eapply Hunique; eauto.
  - exfalso. apply enum_find_In in Hfind.
    apply (find_none _ _ Hfirst) in Hfind. cbn in Hfind. congruence.
Qed.

End Stored.

Lemma setStyleParameter_idempotent_witness :
  exists w2,
    setStyleParameter (LC := Fixture.coarse_double_codec) "lang" "et"
      (assigned "lang" (VString "et") Bundle.world) = (Return true, w2)
    /\ this w2 = this (assigned "lang" (VString "et") Bundle.world)
    /\ trace w2 = [DecoderChanged; DecoderChanged]
    /\ trace (assigned "lang" (VString "et") Bundle.world) = [DecoderChanged].
Proof.
  apply (setStyleParameter_idempotent (LC := Fixture.coarse_double_codec)
           "lang" "et" Bundle.world).
  reflexivity.
Defined.

Lemma setStyleParameter_commutes_witness :
  this (setStyleParameter (LC := Fixture.coarse_double_codec) "units" "imperial"
          (setStyleParameter (LC := Fixture.coarse_double_codec) "lang" "et"
             Bundle.world).2).2
  = this (setStyleParameter (LC := Fixture.coarse_double_codec) "lang" "et"
            (setStyleParameter (LC := Fixture.coarse_double_codec) "units" "imperial"
               Bundle.world).2).2
  /\ (setStyleParameter (LC := Fixture.coarse_double_codec) "units" "imperial"
        (setStyleParameter (LC := Fixture.coarse_double_codec) "lang" "et"
           Bundle.world).2).1
     = (setStyleParameter (LC := Fixture.coarse_double_codec) "units" "imperial"
          Bundle.world).1
  /\ (setStyleParameter (LC := Fixture.coarse_double_codec) "lang" "et"
        (setStyleParameter (LC := Fixture.coarse_double_codec) "units" "imperial"
           Bundle.world).2).1
     = (setStyleParameter (LC := Fixture.coarse_double_codec) "lang" "et"
          Bundle.world).1.
Proof.
  apply (setStyleParameter_commutes (LC := Fixture.coarse_double_codec)
           "lang" "et" "units" "imperial" Bundle.world).
  discriminate.
Defined.

Lemma scalar_set_then_get_witness :
  (exists w',
      setStyleParameter (LC := Fixture.coarse_double_codec) "lang" "et" Bundle.world
      = (Return true, w')
      /\ getStyleParameter (LC := Fixture.coarse_double_codec) (this w') "lang"
         = Return "et")
  /\ getStyleParameter (LC := Fixture.coarse_double_codec)
       (this (setStyleParameter (LC := Fixture.coarse_double_codec) "lang" "et"
                Bundle.world).2) "lang"
     = Return "et".
Proof.
  destruct (scalar_set_then_get (LC := Fixture.coarse_double_codec) "lang" "et"
              Bundle.lang Bundle.world)
    as (Hset & Hstring & _); [reflexivity|reflexivity|].
  split; [exact Hset|]. apply (Hstring "en"). reflexivity.
Defined.

(** "si" and "metric" stand for the same value: what is written as "si"
    reads back as "metric". *)
Lemma enum_set_then_get_witness :
  exists w' label' val',
    setStyleParameter (LC := Fixture.coarse_double_codec) "units" "si" Bundle.world
    = (Return true, w')
    /\ getStyleParameter (LC := Fixture.coarse_double_codec) (this w') "units"
       = Return label'
    /\ In (label', val') (getEnumMap Bundle.units)
    /\ Value_eqb val' (VLongLong 0) = true
    /\ ((forall l v, In (l, v) (getEnumMap Bundle.units) ->
                     Value_eqb v (VLongLong 0) = true -> l = "si")
        -> label' = "si").
Proof.
  apply (enum_set_then_get (LC := Fixture.coarse_double_codec) "units" "si"
           Bundle.units (VLongLong 0) Bundle.world); reflexivity.
Defined.

Example si_reads_back_as_metric :
  getStyleParameter (LC := Fixture.coarse_double_codec)
    (this (setStyleParameter (LC := Fixture.coarse_double_codec) "units" "si"
             Bundle.world).2) "units"
  = Return "metric".
Proof. reflexivity. Qed.

(** ** Decoding and the rest of the object *)

Section DecodingFrame.
Context {TC : TileCodec}.

Lemma same_but_cache_fields (d d' : MBVectorTileDecoder) :
  same_but_cache d d' ->
  style_state d = style_state d' /\ plain_settings d = plain_settings d'.
Proof.
  unfold same_but_cache, set_cachedFeatureDecoder, style_state, plain_settings,
    getBuffering, isFeatureIdOverride, isCartoCSSLayerNamesIgnored, getLayerNameOverride.
  intros [= -> -> -> -> -> -> -> -> ->]. split; reflexivity.
Qed.

Lemma decodeFeature_state id tile (tileData : shared_ptr BinaryData) tileBounds w :
  pointee tileData <> [] ->
  this (decodeFeature id tile (Some tileData) tileBounds w).2
  = this (cachedDecoder tileData w).2
  /\ next_address (decodeFeature id tile (Some tileData) tileBounds w).2
     = next_address (cachedDecoder tileData w).2.
Proof.
  intros Hne. rewrite (decodeFeature_caught _ _ _ _ _ Hne).
  rewrite <- (decodeFeature_try_world id tileData tileBounds w).
  destruct (decodeFeature_try id tileData tileBounds w) as [[r|ex] w']; split; reflexivity.
Qed.

Lemma decodeFeature_frame id tile tileData tileBounds w :
  same_but_cache (this (decodeFeature id tile tileData tileBounds w).2) (this w).
Proof.
  destruct tileData as [tileData|]; [|reflexivity].
  destruct (pointee tileData) as [|b bs] eqn:Hdata.
  - unfold decodeFeature. rewrite Hdata. reflexivity.
  - assert (Hne : pointee tileData <> []) by (rewrite Hdata; discriminate).
    destruct (decodeFeature_state id tile tileData tileBounds w Hne) as [-> _].
    apply cachedDecoder_frame.
Qed.

Lemma decodeTile_state tile targetTile tileData w :
  this (decodeTile tile targetTile tileData w).2 = this w
  /\ next_address (decodeTile tile targetTile tileData w).2 = next_address w.
Proof.
  destruct tileData as [tileData|]; [|split; reflexivity].
  unfold decodeTile. destruct (pointee tileData) as [|b bs]; [split; reflexivity|].
  unfold bind, get_this, try_catch.
  match goal with
  | |- context [decodeTile_try ?a ?b ?c ?d ?e ?f ?g ?h w] =>
      assert (Hw := decodeTile_try_world a b c d e f g h w);
      destruct (decodeTile_try a b c d e f g h w) as [[r|ex] w']
  end; cbn in Hw; subst w'; split; reflexivity.
Qed.

Lemma decodeFeature_try_outcome id (tileData : shared_ptr BinaryData) tileBounds w :
  decodeFeature_try id tileData tileBounds w
  = match cachedDecoder tileData w with
    | (Return decoder, w') => (decodeFeature_rest (pointee decoder) id tileBounds, w')
    | (Throw ex, w') => (Throw ex, w')
    end.
Proof.
  unfold decodeFeature_try, decodeFeature_rest, bind, lift.
  destruct (cachedDecoder tileData w) as [[decoder|ex] w']; [|reflexivity].
  destruct (getFeature (pointee decoder) id) as [[[layer mvtFeature]|]|ex];
    try reflexivity.
  destruct (new_Feature _ _); reflexivity.
Qed.

Lemma cache_lookup_result (tileData : shared_ptr BinaryData) w :
  cache_lookup tileData w
  = (Return match _cachedFeatureDecoder (this w) with
            | Some (data, decoder) =>
                if Nat.eqb (address data) (address tileData) then Some decoder else None
            | None => None
            end, w).
Proof.
  unfold cache_lookup, bind, get_this.
  destruct (_cachedFeatureDecoder (this w)) as [[data decoder]|]; [|reflexivity].
  destruct (Nat.eqb (address data) (address tileData)); reflexivity.
Qed.

Lemma cachedDecoder_outcome (tileData : shared_ptr BinaryData) w :
  cachedDecoder tileData w
  = match (cache_lookup tileData w).1 with
    | Return (Some decoder) => (Return decoder, w)
    | Return None =>
        match new_MBVTFeatureDecoder (pointee tileData) with
        | Return parsed =>
            (Return (fresh_decoder parsed w),
             installed tileData (fresh_decoder parsed w) (allocated w))
        | Throw ex => (Throw ex, w)
        end
    | Throw ex => (Throw ex, w)
    end.
Proof.
  destruct (cachedDecoder_cases tileData w)
    as [(decoder & Hlook & ->)|[(parsed & Hlook & Hparse & ->)|(ex & Hlook & Hparse & ->)]];
    rewrite Hlook; cbn [fst]; try rewrite Hparse; reflexivity.
Qed.

Lemma cachedDecoder_next_address (tileData : shared_ptr BinaryData) w :
  (next_address (cachedDecoder tileData w).2 <= S (next_address w))%nat.
Proof.
  rewrite cachedDecoder_outcome.
  destruct (cache_lookup tileData w).1 as [[decoder|]|ex]; cbn; try lia.
  destruct (new_MBVTFeatureDecoder (pointee tileData)); cbn; lia.
Qed.

(** Once a payload has parsed, the cache is keyed on it. *)
Lemma cachedDecoder_keyed (tileData : shared_ptr BinaryData) parsed w :
  new_MBVTFeatureDecoder (pointee tileData) = Return parsed ->
  exists cached decoder,
    _cachedFeatureDecoder (this (cachedDecoder tileData w).2) = Some (cached, decoder)
    /\ address cached = address tileData.
Proof.
  intros Hparse. rewrite cachedDecoder_outcome, cache_lookup_result, Hparse. cbn [fst].
  destruct (_cachedFeatureDecoder (this w)) as [[data decoder]|] eqn:Hcache.
  - destruct (Nat.eqb (address data) (address tileData)) eqn:Haddr.
    + cbn [snd]. rewrite Hcache. exists data, decoder.
      split; [reflexivity|]. apply Nat.eqb_eq, Haddr.
    + cbn. eauto.
  - cbn. eauto.
Qed.

(** A second run of the cache block for the same payload changes nothing. *)
Lemma cachedDecoder_twice (tileData : shared_ptr BinaryData) w w1 :
  this w1 = this (cachedDecoder tileData w).2 ->
  cachedDecoder tileData w1 = ((cachedDecoder tileData w1).1, w1).
Proof.
  intros Hthis.
  rewrite (cachedDecoder_outcome tileData w1), (cache_lookup_result tileData w1).
  cbn [fst]. rewrite Hthis.
  rewrite (cachedDecoder_outcome tileData w), (cache_lookup_result tileData w).
  cbn [fst].
  destruct (_cachedFeatureDecoder (this w)) as [[data decoder]|] eqn:Hcache.
  - destruct (Nat.eqb (address data) (address tileData)) eqn:Haddr.
    + cbn [snd]. rewrite Hcache, Haddr. reflexivity.
    + destruct (new_MBVTFeatureDecoder (pointee tileData)) as [parsed|ex] eqn:Hparse.
      * cbn [snd this installed set_cachedFeatureDecoder _cachedFeatureDecoder].
        rewrite Nat.eqb_refl. reflexivity.
      * cbn [snd]. rewrite Hcache, Haddr. reflexivity.
  - destruct (new_MBVTFeatureDecoder (pointee tileData)) as [parsed|ex] eqn:Hparse.
    + cbn [snd this installed set_cachedFeatureDecoder _cachedFeatureDecoder].
      rewrite Nat.eqb_refl. reflexivity.
    + cbn [snd]. rewrite Hcache. reflexivity.
Qed.

(** X19: looking features up in the same payload twice in a row parses at
    most once: whatever the first call of decodeFeature did, a second call
    with the same payload (and any feature id and bounds) leaves the decoder
    object and the allocation counter exactly as the first call left them;
    a call allocates at most one decoder; and once a payload has parsed it
    is the cached one. *)
Theorem decodeFeature_second_lookup (id1 id2 : Z) (tile1 tile2 : TileId)
    (tileData : option (shared_ptr BinaryData)) (bounds1 bounds2 : MapBounds) (w : World) :
  this (decodeFeature id2 tile2 tileData bounds2
          (decodeFeature id1 tile1 tileData bounds1 w).2).2
  = this (decodeFeature id1 tile1 tileData bounds1 w).2
  /\ next_address (decodeFeature id2 tile2 tileData bounds2
                     (decodeFeature id1 tile1 tileData bounds1 w).2).2
     = next_address (decodeFeature id1 tile1 tileData bounds1 w).2
  /\ (next_address (decodeFeature id1 tile1 tileData bounds1 w).2 <= S (next_address w))%nat
  /\ (forall data parsed,
        tileData = Some data -> pointee data <> [] ->
        new_MBVTFeatureDecoder (pointee data) = Return parsed ->
        exists cached decoder,
          _cachedFeatureDecoder (this (decodeFeature id1 tile1 tileData bounds1 w).2)
          = Some (cached, decoder)
          /\ address cached = address data).
Proof.
  destruct tileData as [tileData|];
    [|split; [reflexivity|split; [reflexivity|split; [cbn; lia|discriminate]]]].
  destruct (pointee tileData) as [|b bs] eqn:Hdata.
  { unfold decodeFeature. rewrite Hdata. cbn.
    split; [reflexivity|split; [reflexivity|split; [lia|]]].
    intros data parsed [= <-] Hne. rewrite Hdata in Hne. contradiction. }
  assert (Hne : pointee tileData <> []) by (rewrite Hdata; discriminate).
  destruct (decodeFeature_state id1 tile1 tileData bounds1 w Hne) as [Hthis Hnext].
  destruct (decodeFeature_state id2 tile2 tileData bounds2
              (decodeFeature id1 tile1 (Some tileData) bounds1 w).2 Hne) as [-> ->].
  rewrite (cachedDecoder_twice tileData w _ Hthis). cbn [snd].
  split; [reflexivity|split; [reflexivity|split]].
  - rewrite Hnext. apply cachedDecoder_next_address.
  - intros data parsed [= <-] _ Hparse. rewrite Hthis.
    eapply cachedDecoder_keyed, Hparse.
Qed.

End DecodingFrame.

(** ** The settings of the symbolizer context *)

Section SettingsInSync.
Context {LC : LexicalCastDouble} {FE : StyleFrontEnds} {FU : FileUtils} {TC : TileCodec}.

Lemma loadCurrentStyle_in_sync ignored styleSet cs :
  loadCurrentStyle ignored styleSet = Return cs ->
  getSettings_ctx (cs_symbolizerContext cs)
  = {| tileSize := DEFAULT_TILE_SIZE; nutiParameterValueMap := cs_parameterValueMap cs |}.
Proof.
  unfold loadCurrentStyle.
  destruct (loadStyleMap ignored styleSet) as [[[name package] map]|e]; [|discriminate].
  intros [= <-]. reflexivity.
Qed.

Lemma settings_in_sync_style_state d d' :
  style_state d = style_state d' -> settings_in_sync d' -> settings_in_sync d.
Proof.
  intros H. destruct (style_state_fields _ _ H) as (_ & Hv & _ & Hc & _).
  unfold settings_in_sync. rewrite Hv, Hc. auto.
Qed.

Lemma setStyleSet_in_sync styleSet w :
  settings_in_sync (this w) -> settings_in_sync (this (setStyleSet styleSet w).2).
Proof.
  intros Hsync.
  destruct (setStyleSet_cases styleSet w)
    as [(cs & w' & Hload & -> & Hs & _)|(e & _ & ->)]; [|exact Hsync].
  cbn [snd]. unfold style_state in Hs. injection Hs as _ Hv _ Hc _.
  unfold settings_in_sync. rewrite Hv, Hc. eapply loadCurrentStyle_in_sync, Hload.
Qed.

(** X10: the settings inside the symbolizer context never go stale.  Every
    constructor leaves them built from the tile size 256 and the parameter
    values of the object, and every method of the class keeps them so: the
    style-set setters, setStyleParameter, the four plain setters,
    decodeFeature and decodeTile. *)
Theorem symbolizer_settings_in_sync (w : World) :
  settings_in_sync (this w) ->
  (forall compiled d, new_from_CompiledStyleSet compiled = Return d -> settings_in_sync d)
  /\ (forall cartoCSS d, new_from_CartoCSSStyleSet cartoCSS = Return d -> settings_in_sync d)
  /\ (forall compiled, settings_in_sync (this (setCompiledStyleSet compiled w).2))
  /\ (forall cartoCSS, settings_in_sync (this (setCartoCSSStyleSet cartoCSS w).2))
  /\ (forall param value, settings_in_sync (this (setStyleParameter param value w).2))
  /\ (forall buffer, settings_in_sync (this (setBuffering buffer w).2))
  /\ (forall idOverride, settings_in_sync (this (setFeatureIdOverride idOverride w).2))
  /\ (forall ignore, settings_in_sync (this (setCartoCSSLayerNamesIgnored ignore w).2))
  /\ (forall name, settings_in_sync (this (setLayerNameOverride name w).2))
  /\ (forall id tile tileData tileBounds,
        settings_in_sync (this (decodeFeature id tile tileData tileBounds w).2))
  /\ (forall tile targetTile tileData,
        settings_in_sync (this (decodeTile tile targetTile tileData w).2)).
Proof.
  intros Hsync.
  assert (Hnew : forall styleSet d, construct styleSet = Return d -> settings_in_sync d).
  { intros styleSet d. unfold construct.
    destruct (loadCurrentStyle false styleSet) as [cs|e] eqn:Hload; [|discriminate].
    intros [= <-]. unfold settings_in_sync. cbn.
    eapply loadCurrentStyle_in_sync, Hload. }
  repeat match goal with |- _ /\ _ => split end.
  - intros [compiled|] d; [apply Hnew|discriminate].
  - intros [cartoCSS|] d; [apply Hnew|discriminate].
  - intros [compiled|]; [|exact Hsync].
    apply (setStyleSet_in_sync (Compiled compiled)), Hsync.
  - intros [cartoCSS|]; [|exact Hsync].
    apply (setStyleSet_in_sync (CartoCSS cartoCSS)), Hsync.
  - intros param value. rewrite setStyleParameter_this.
    destruct (requestedValue (_map (this w)) param value) as [[val|]|ex];
      try exact Hsync.
    reflexivity.
  - intros buffer. exact Hsync.
  - intros idOverride. exact Hsync.
  - intros ignore. exact Hsync.
  - intros name. exact Hsync.
  - intros id tile tileData tileBounds.
    eapply settings_in_sync_style_state; [|exact Hsync].
    apply same_but_cache_fields, decodeFeature_frame.
  - intros tile targetTile tileData.
    destruct (decodeTile_state tile targetTile tileData w) as [-> _]. exact Hsync.
Qed.

End SettingsInSync.

Lemma symbolizer_settings_in_sync_witness :
  settings_in_sync (this Bundle.world)
  /\ settings_in_sync
       (this (setStyleParameter (LC := Fixture.coarse_double_codec) "lang" "et"
                Bundle.world).2)
  /\ settings_in_sync
       (this (decodeFeature (TC := Fixture.codec) 1 Fixture.tile (Some Fixture.payload)
                Fixture.bounds Bundle.world).2).
Proof.
  assert (Hsync : settings_in_sync (this Bundle.world)) by reflexivity.
  destruct (symbolizer_settings_in_sync (LC := Fixture.coarse_double_codec)
              (FE := Fixture.front_ends) (FU := Fixture.file_utils)
              (TC := Fixture.codec) Bundle.world Hsync)
    as (_ & _ & _ & _ & Hparam & _ & _ & _ & _ & Hfeature & _).
  split; [exact Hsync|]. split; [apply Hparam|apply Hfeature].
Defined.

(** ** What decoding depends on *)

Section DecodingDependencies.
Context {LC : LexicalCastDouble} {FE : StyleFrontEnds} {FU : FileUtils} {TC : TileCodec}.

Lemma decodeFeature_outcome id tile (tileData : shared_ptr BinaryData) tileBounds w :
  pointee tileData <> [] ->
  (decodeFeature id tile (Some tileData) tileBounds w).1
  = Return
      match (cachedDecoder tileData w).1 with
      | Return decoder =>
          match decodeFeature_rest (pointee decoder) id tileBounds with
          | Return r => r
          | Throw _ => None
          end
      | Throw _ => None
      end.
Proof.
  intros Hne. rewrite (decodeFeature_caught _ _ _ _ _ Hne), decodeFeature_try_outcome.
  destruct (cachedDecoder tileData w) as [[decoder|ex] w']; [|reflexivity].
  cbn [fst]. destruct (decodeFeature_rest (pointee decoder) id tileBounds); reflexivity.
Qed.

Lemma cachedDecoder_pointee (tileData : shared_ptr BinaryData) w :
  pointee <$> match (cachedDecoder tileData w).1 with
              | Return decoder => Some decoder
              | Throw _ => None
              end
  = match _cachedFeatureDecoder (this w) with
    | Some (data, decoder) =>
        if Nat.eqb (address data) (address tileData) then Some (pointee decoder)
        else match new_MBVTFeatureDecoder (pointee tileData) with
             | Return parsed => Some parsed
             | Throw _ => None
             end
    | None =>
        match new_MBVTFeatureDecoder (pointee tileData) with
        | Return parsed => Some parsed
        | Throw _ => None
        end
    end.
Proof.
  rewrite cachedDecoder_outcome, cache_lookup_result. cbn [fst].
  destruct (_cachedFeatureDecoder (this w)) as [[data decoder]|].
  - destruct (Nat.eqb (address data) (address tileData)); [reflexivity|].
    destruct (new_MBVTFeatureDecoder (pointee tileData)); reflexivity.
  - destruct (new_MBVTFeatureDecoder (pointee tileData)); reflexivity.
Qed.

Lemma decodeFeature_depends_on_cache id tile tileData tileBounds w w' :
  _cachedFeatureDecoder (this w) = _cachedFeatureDecoder (this w') ->
  (decodeFeature id tile tileData tileBounds w).1
  = (decodeFeature id tile tileData tileBounds w').1.
Proof.
  intros Hcache. destruct tileData as [tileData|]; [|reflexivity].
  destruct (pointee tileData) as [|b bs] eqn:Hdata.
  { unfold decodeFeature. rewrite Hdata. reflexivity. }
  assert (Hne : pointee tileData <> []) by (rewrite Hdata; discriminate).
  rewrite !(decodeFeature_outcome _ _ _ _ _ Hne). f_equal.
  assert (H := cachedDecoder_pointee tileData w).
  assert (H' := cachedDecoder_pointee tileData w').
  rewrite <- Hcache, <- H in H'.
  destruct (cachedDecoder tileData w).1 as [decoder|ex];
    destruct (cachedDecoder tileData w').1 as [decoder'|ex']; cbn in H';
    try discriminate; [|reflexivity].
  injection H' as ->. reflexivity.
Qed.

Lemma decodeTile_try_outcome tile targetTile (tileData : shared_ptr BinaryData) map ctx
    buffer idOverride name w w' :
  (decodeTile_try tile targetTile tileData map ctx buffer idOverride name w).1
  = (decodeTile_try tile targetTile tileData map ctx buffer idOverride name w').1.
Proof.
  unfold decodeTile_try, bind, lift.
  destruct (new_MBVTFeatureDecoder (pointee tileData)) as [decoder|ex]; [|reflexivity].
  match goal with |- context [readTile ?a ?b ?c ?d ?e] => destruct (readTile a b c d e) as [[t|]|ex] end;
    reflexivity.
Qed.

Lemma decodeTile_depends_on_settings tile targetTile tileData w w' :
  same_but_cache (this w) (this w') ->
  (decodeTile tile targetTile tileData w).1 = (decodeTile tile targetTile tileData w').1.
Proof.
  intros Hsame. destruct tileData as [tileData|]; [|reflexivity].
  unfold decodeTile. destruct (pointee tileData) as [|b bs]; [reflexivity|].
  destruct (same_but_cache_fields _ _ Hsame) as [Hstyle Hplain].
  destruct (style_state_fields _ _ Hstyle) as (Hm & _ & _ & Hc & _).
  unfold plain_settings, getBuffering, isFeatureIdOverride, getLayerNameOverride in Hplain.
  injection Hplain as Hb Hi _ Hn.
  unfold bind, get_this, try_catch. rewrite Hm, Hc, Hb, Hi, Hn.
  match goal with
  | |- context [decodeTile_try ?a ?b ?c ?d ?e ?f ?g ?h w] =>
      assert (H := decodeTile_try_outcome a b c d e f g h w w');
      destruct (decodeTile_try a b c d e f g h w) as [[r|ex] w1];
      destruct (decodeTile_try a b c d e f g h w') as [[r'|ex'] w1']
  end; cbn in H; try discriminate; [|reflexivity].
  injection H as ->. reflexivity.
Qed.

(** X20: what the two decoding methods depend on.  The result of
    decodeFeature depends on the object through the decoder cache alone, so
    no style-set setter, setStyleParameter or plain setter changes what it
    returns; the result of decodeTile depends on everything but the cache,
    so no call of decodeFeature changes what it returns. *)
Theorem decoding_dependencies (id : Z) (tile targetTile : TileId)
    (tileData : option (shared_ptr BinaryData)) (tileBounds : MapBounds) (w : World) :
  (forall w',
      _cachedFeatureDecoder (this w') = _cachedFeatureDecoder (this w) ->
      (decodeFeature id tile tileData tileBounds w').1
      = (decodeFeature id tile tileData tileBounds w).1)
  /\ (forall w',
        same_but_cache (this w') (this w) ->
        (decodeTile tile targetTile tileData w').1
        = (decodeTile tile targetTile tileData w).1)
  /\ (forall styleSet,
        (decodeFeature id tile tileData tileBounds (setStyleSet styleSet w).2).1
        = (decodeFeature id tile tileData tileBounds w).1)
  /\ (forall param value,
        (decodeFeature id tile tileData tileBounds (setStyleParameter param value w).2).1
        = (decodeFeature id tile tileData tileBounds w).1)
  /\ (forall buffer idOverride ignore name,
        (decodeFeature id tile tileData tileBounds (setBuffering buffer w).2).1
        = (decodeFeature id tile tileData tileBounds w).1
        /\ (decodeFeature id tile tileData tileBounds (setFeatureIdOverride idOverride w).2).1
           = (decodeFeature id tile tileData tileBounds w).1
        /\ (decodeFeature id tile tileData tileBounds
              (setCartoCSSLayerNamesIgnored ignore w).2).1
           = (decodeFeature id tile tileData tileBounds w).1
        /\ (decodeFeature id tile tileData tileBounds (setLayerNameOverride name w).2).1
           = (decodeFeature id tile tileData tileBounds w).1)
  /\ (forall id' tile' tileData' tileBounds',
        (decodeTile tile targetTile tileData
           (decodeFeature id' tile' tileData' tileBounds' w).2).1
        = (decodeTile tile targetTile tileData w).1).
Proof.
  split; [|split; [|split; [|split; [|split]]]].
  - intros w' H. apply decodeFeature_depends_on_cache, H.
  - intros w' H. apply decodeTile_depends_on_settings, H.
  - intros styleSet. apply decodeFeature_depends_on_cache.
    destruct (setStyleSet_cases styleSet w)
      as [(cs & w' & _ & -> & _ & _ & Hc & _)|(e & _ & ->)]; [exact Hc|reflexivity].
  - intros param value. apply decodeFeature_depends_on_cache.
    rewrite setStyleParameter_this.
    destruct (requestedValue (_map (this w)) param value) as [[val|]|ex]; reflexivity.
  - intros buffer idOverride ignore name.
    repeat split; apply decodeFeature_depends_on_cache; reflexivity.
  - intros id' tile' tileData' tileBounds'. apply decodeTile_depends_on_settings.
    apply decodeFeature_frame.
Qed.

(** Every method keeps the cached decoder the parse of the cached payload. *)
Lemma cachedDecoder_coherent (tileData : shared_ptr BinaryData) w :
  cache_coherent (this w) -> cache_coherent (this (cachedDecoder tileData w).2).
Proof.
  intros Hcoherent. rewrite cachedDecoder_outcome.
  destruct (cache_lookup tileData w).1 as [[decoder|]|ex]; try exact Hcoherent.
  destruct (new_MBVTFeatureDecoder (pointee tileData)) as [parsed|ex] eqn:Hparse;
    [|exact Hcoherent].
  intros data decoder. cbn. intros [= <- <-]. exact Hparse.
Qed.

(** X21: the decoder cache does not change what decodeFeature returns.
    When the cached decoder is the parse of the cached payload, and a
    payload pointer equal to the cached one points to the cached bytes,
    decodeFeature returns exactly what it returns with nothing cached: the
    feature decoded from a fresh parse of the payload, or null for an empty
    payload or after any exception.  The first condition holds after every
    constructor and is kept by decodeFeature. *)
Theorem decoder_cache_is_transparent (id : Z) (tile : TileId)
    (tileData : shared_ptr BinaryData) (tileBounds : MapBounds) (w : World) :
  cache_coherent (this w) ->
  same_payload_object (this w) tileData ->
  (decodeFeature id tile (Some tileData) tileBounds w).1
  = Return (decodeFeature_uncached id (pointee tileData) tileBounds)
  /\ cache_coherent (this (decodeFeature id tile (Some tileData) tileBounds w).2)
  /\ (forall styleSet d, construct styleSet = Return d -> cache_coherent d).
Proof.
  intros Hcoherent Hsame. split; [|split].
  - unfold decodeFeature_uncached.
    destruct (pointee tileData) as [|b bs] eqn:Hdata.
    { unfold decodeFeature. rewrite Hdata. reflexivity. }
    assert (Hne : pointee tileData <> []) by (rewrite Hdata; discriminate).
    rewrite (decodeFeature_outcome _ _ _ _ _ Hne). f_equal.
    assert (H := cachedDecoder_pointee tileData w). rewrite <- Hdata.
    destruct (_cachedFeatureDecoder (this w)) as [[data decoder]|] eqn:Hcache.
    + destruct (Nat.eqb (address data) (address tileData)) eqn:Haddr.
      * apply Nat.eqb_eq in Haddr.
        rewrite <- (Hsame _ _ Hcache Haddr), (Hcoherent _ _ Hcache).
        destruct (cachedDecoder tileData w).1 as [decoder'|ex]; [|discriminate].
        cbn in H. injection H as ->. reflexivity.
      * destruct (new_MBVTFeatureDecoder (pointee tileData)) as [parsed|ex];
          destruct (cachedDecoder tileData w).1 as [decoder'|ex']; cbn in H;
          try discriminate; [|reflexivity].
        injection H as ->. reflexivity.
    + destruct (new_MBVTFeatureDecoder (pointee tileData)) as [parsed|ex];
        destruct (cachedDecoder tileData w).1 as [decoder'|ex']; cbn in H;
        try discriminate; [|reflexivity].
      injection H as ->. reflexivity.
  - destruct (pointee tileData) as [|b bs] eqn:Hdata.
    { unfold decodeFeature. rewrite Hdata. exact Hcoherent. }
    assert (Hne : pointee tileData <> []) by (rewrite Hdata; discriminate).
    destruct (decodeFeature_state id tile tileData tileBounds w Hne) as [-> _].
    apply cachedDecoder_coherent, Hcoherent.
  - intros styleSet d. unfold construct.
    destruct (loadCurrentStyle false styleSet); [|discriminate].
    intros [= <-] data decoder. discriminate.
Qed.

End DecodingDependencies.

Lemma decoder_cache_is_transparent_witness :
  (decodeFeature (TC := Fixture.codec) 2 Fixture.tile (Some Fixture.payload)
     Fixture.bounds (Fixture.world_caching 1 (Fixture.decoder_at 0))).1
  = Return (decodeFeature_uncached (TC := Fixture.codec) 2 (pointee Fixture.payload)
              Fixture.bounds)
  /\ cache_coherent (TC := Fixture.codec)
       (this (decodeFeature (TC := Fixture.codec) 2 Fixture.tile (Some Fixture.payload)
                Fixture.bounds (Fixture.world_caching 1 (Fixture.decoder_at 0))).2).
Proof.
  destruct (decoder_cache_is_transparent (FE := Fixture.front_ends)
              (FU := Fixture.file_utils) (TC := Fixture.codec)
              2 Fixture.tile Fixture.payload Fixture.bounds
              (Fixture.world_caching 1 (Fixture.decoder_at 0)))
    as (Hresult & Hcoherent & _).
  - intros data decoder [= <- <-]. reflexivity.
  - intros data decoder [= <- <-] _. reflexivity.
  - split; [exact Hresult|exact Hcoherent].
Defined.

(** ** The geometry a feature comes back with *)

Section FeatureGeometry.
Context {FE : StyleFrontEnds} {FU : FileUtils} {TC : TileCodec}.

(** The cache block yields the parse of the payload it is given, whether it
    finds it cached or parses it. *)
Lemma cachedDecoder_yields_parse (tileData : shared_ptr BinaryData) (w : World) :
  cache_coherent (this w) ->
  same_payload_object (this w) tileData ->
  match new_MBVTFeatureDecoder (pointee tileData) with
  | Return parsed =>
      exists decoder,
        cachedDecoder tileData w = (Return decoder, (cachedDecoder tileData w).2)
        /\ pointee decoder = parsed
  | Throw ex => cachedDecoder tileData w = (Throw ex, w)
  end.
Proof.
  intros Hcoherent Hsame.
  rewrite (cachedDecoder_outcome tileData w), (cache_lookup_result tileData w). cbn [fst].
  destruct (_cachedFeatureDecoder (this w)) as [[data decoder]|] eqn:Hcache.
  - destruct (Nat.eqb (address data) (address tileData)) eqn:Haddr.
    + apply Nat.eqb_eq in Haddr.
      rewrite <- (Hsame _ _ Hcache Haddr), (Hcoherent _ _ Hcache). eauto.
    + destruct (new_MBVTFeatureDecoder (pointee tileData)) as [parsed|ex];
        [|reflexivity].
      eexists. split; reflexivity.
  - destruct (new_MBVTFeatureDecoder (pointee tileData)) as [parsed|ex]; [|reflexivity].
    eexists. split; reflexivity.
Qed.

(** C6: for a non-null, non-empty payload, [decodeFeature] answers from the
    parse of that payload.  It returns absent when the payload does not
    parse or its parse has no feature with the id; when the parse has one
    with a point, line or polygon wire geometry, the feature returned
    carries its id and layer name and a geometry of the singular type if the
    wire geometry has exactly one part, and of the multi type otherwise.
    This holds in every state in which the cached decoder is the parse of
    the cached payload (and a pointer equal to the cached one points to the
    cached bytes): the state after a constructor, and a state that
    [decodeFeature] keeps. *)
Theorem decodeFeature_geometry_type (id : Z) (tile : TileId)
    (tileData : shared_ptr BinaryData) (tileBounds : MapBounds) (w : World) :
  pointee tileData <> [] ->
  cache_coherent (this w) ->
  same_payload_object (this w) tileData ->
  (forall ex,
      new_MBVTFeatureDecoder (pointee tileData) = Throw ex ->
      (decodeFeature id tile (Some tileData) tileBounds w).1 = Return None)
  /\ (forall parsed,
        new_MBVTFeatureDecoder (pointee tileData) = Return parsed ->
        (getFeature parsed id = Return None ->
         decodeFeature id tile (Some tileData) tileBounds w
         = (Return None, (cachedDecoder tileData w).2))
        /\ (forall layer mvtFeature k,
              getFeature parsed id = Return (Some (layer, mvtFeature)) ->
              wire_type (mvt_getGeometry mvtFeature) = Some k ->
              exists feature,
                decodeFeature id tile (Some tileData) tileBounds w
                = (Return (Some feature), (cachedDecoder tileData w).2)
                /\ getId feature = mvt_getId mvtFeature
                /\ getLayerName feature = layer
                /\ geometry_type (getGeometry (getFeature_ feature))
                   = if Nat.eqb (wire_parts (mvt_getGeometry mvtFeature)) 1
                     then singular k else multi k))
  /\ cache_coherent (this (decodeFeature id tile (Some tileData) tileBounds w).2)
  /\ (forall styleSet d,
        construct styleSet = Return d ->
        cache_coherent d /\ forall data, same_payload_object d data).
Proof.
  intros Hdata Hcoherent Hsame.
  assert (Hyield := cachedDecoder_yields_parse tileData w Hcoherent Hsame).
  split; [|split; [|split]].
  - intros ex Hparse. rewrite Hparse in Hyield.
    rewrite (decodeFeature_caught _ _ _ _ _ Hdata), decodeFeature_try_outcome, Hyield.
    reflexivity.
  - intros parsed Hparse. rewrite Hparse in Hyield.
    destruct Hyield as (decoder & Hcached & Hpointee).
    rewrite (decodeFeature_caught _ _ _ _ _ Hdata), decodeFeature_try_outcome, Hcached.
    unfold decodeFeature_rest. rewrite Hpointee. split.
    + intros ->. reflexivity.
    + intros layer mvtFeature k -> Hwire.
      destruct (convertGeometry_type (convertFn tileBounds) _ _ Hwire)
        as (geometry & -> & Htype).
      cbn [new_Feature]. eexists. split; [reflexivity|]. cbn. auto.
  - destruct (decodeFeature_state id tile tileData tileBounds w Hdata) as [-> _].
    apply cachedDecoder_coherent, Hcoherent.
  - intros styleSet d. unfold construct.
    destruct (loadCurrentStyle false styleSet); [|discriminate].
    intros [= <-]. split; intros data decoder; discriminate.
Qed.

End FeatureGeometry.

(** The cache holds the decoder of the payload with one point; asked about
    the payload with two points, [decodeFeature] finds feature 2, a
    multi-point, and no feature 1. *)
Lemma decodeFeature_geometry_type_witness :
  _cachedFeatureDecoder (this Bundle.world_after_one_point)
  = Some (Bundle.one_point,
          {| address := 0;
             pointee := {| decoder_data := pointee Bundle.one_point;
                           decoder_transform := [];
                           decoder_buffer := 0;
                           decoder_globalIdOverride := (false, 0) |} |})
  /\ decodeFeature (TC := Bundle.codec) 1 Fixture.tile (Some Bundle.two_points)
       Fixture.bounds Bundle.world_after_one_point
     = (Return None,
        (cachedDecoder (TC := Bundle.codec) Bundle.two_points
           Bundle.world_after_one_point).2)
  /\ exists feature,
      decodeFeature (TC := Bundle.codec) 2 Fixture.tile (Some Bundle.two_points)
        Fixture.bounds Bundle.world_after_one_point
      = (Return (Some feature),
         (cachedDecoder (TC := Bundle.codec) Bundle.two_points
            Bundle.world_after_one_point).2)
      /\ getId feature = 2
      /\ getLayerName feature = "points"
      /\ geometry_type (getGeometry (getFeature_ feature)) = MultiPointType.
Proof.
  split; [reflexivity|].
  assert (Hcoherent : cache_coherent (TC := Bundle.codec)
                        (this Bundle.world_after_one_point)).
  { intros data decoder [= <- <-]. reflexivity. }
  assert (Hsame : same_payload_object (this Bundle.world_after_one_point)
                    Bundle.two_points).
  { intros data decoder [= <- <-]. discriminate. }
  split.
  - destruct (decodeFeature_geometry_type (FE := Fixture.front_ends)
                (FU := Fixture.file_utils) (TC := Bundle.codec) 1 Fixture.tile
                Bundle.two_points Fixture.bounds Bundle.world_after_one_point)
      as (_ & Hparsed & _); [discriminate|exact Hcoherent|exact Hsame|].
    destruct (Hparsed _ eq_refl) as [Habsent _]. apply Habsent. reflexivity.
  - destruct (decodeFeature_geometry_type (FE := Fixture.front_ends)
                (FU := Fixture.file_utils) (TC := Bundle.codec) 2 Fixture.tile
                Bundle.two_points Fixture.bounds Bundle.world_after_one_point)
      as (_ & Hparsed & _); [discriminate|exact Hcoherent|exact Hsame|].
    destruct (Hparsed _ eq_refl) as [_ Hpresent].
    destruct (Hpresent "points" _ WirePoint eq_refl eq_refl)
      as (feature & Hdecode & Hid & Hlayer & Htype).
    exists feature. auto.
Defined.

(** ** The shape and the attributes of decoded features *)

Lemma convertGeometry_shape (convert : PointConversionFunction) (g : mvt_Geometry) :
  match convertGeometry convert g with
  | Some geometry =>
      geometry_structure geometry = List.map (List.map (List.map convert)) (wire_structure g)
  | None => g = mvt_NoGeometry
  end.
Proof.
  destruct g as [vertices|verticesList|polygonList|];
    cbn [convertGeometry wire_structure]; [| | |reflexivity].
  - unfold convertPoints. destruct vertices as [|v [|v' vs]]; try reflexivity.
    cbn [List.map geometry_structure]. rewrite !List.map_map. reflexivity.
  - unfold convertPointsList, convertPoints.
    destruct verticesList as [|v [|v' vs]]; try reflexivity.
    cbn [List.map geometry_structure]. rewrite !List.map_map. reflexivity.
  - unfold convertPointsLists, convertPointsList, convertPoints.
    destruct polygonList as [|v [|v' vs]]; try reflexivity.
    cbn [List.map geometry_structure]. rewrite !List.map_map. reflexivity.
Qed.

(** X16: convertGeometry (with convertPoints, convertPointsList and
    convertPointsLists) keeps the shape of the wire geometry: the geometry
    returned has the same parts, in the same order, each with the same
    rings, each with the same number of vertices, and every vertex is the
    image of the wire vertex in its place; only a wire geometry of none of
    the three kinds gives the null pointer.  With the conversion of
    decodeFeature every vertex has z = 0. *)
Theorem convertGeometry_keeps_shape (convert : PointConversionFunction)
    (tileBounds : MapBounds) (g : mvt_Geometry) :
  match convertGeometry convert g with
  | Some geometry =>
      geometry_structure geometry = List.map (List.map (List.map convert)) (wire_structure g)
  | None => g = mvt_NoGeometry
  end
  /\ (forall geometry,
        convertGeometry (convertFn tileBounds) g = Some geometry ->
        List.Forall (fun pos => getZ pos = 0%float) (geometry_vertices geometry)).
Proof.
  split; [apply convertGeometry_shape|].
  intros geometry Hgeometry.
  assert (Hshape := convertGeometry_shape (convertFn tileBounds) g).
  rewrite Hgeometry in Hshape. unfold geometry_vertices. rewrite Hshape.
  apply List.Forall_forall. intros pos Hin.
  apply in_concat in Hin as (ring & Hring & Hin).
  apply in_concat in Hring as (part & Hpart & Hring).
  apply in_map_iff in Hpart as (part' & <- & _).
  apply in_map_iff in Hring as (ring' & <- & _).
  apply in_map_iff in Hin as (v & <- & _). reflexivity.
Qed.

Lemma ValueConverter_inj (a b : Value) : ValueConverter a = ValueConverter b -> a = b.
Proof. destruct a, b; cbn; congruence. Qed.

Lemma attribute_loop_lookup (data : mvt_FeatureData) (name : string) :
  forall (names : list string) (acc : gmap string Variant),
    fold_left
      (fun featureData varName =>
         let mvtValue :=
           match getVariable data varName with
           | Some v => v
           | None => blank
           end in
         <[varName := ValueConverter mvtValue]> featureData)
      names acc !! name
    = if decide (name ∈ names)
      then Some (ValueConverter (default blank (getVariable data name)))
      else acc !! name.
Proof.
  induction names as [|n names IH]; intros acc.
  - cbn. destruct (decide (name ∈ [])) as [Hin|]; [|reflexivity].
    apply elem_of_nil in Hin. contradiction.
  - cbn [fold_left]. rewrite IH.
    destruct (decide (name ∈ names)) as [Hin|Hnotin].
    + rewrite decide_True by (right; exact Hin). reflexivity.
    + destruct (decide (name = n)) as [->|Hne].
      * rewrite decide_True by left. rewrite lookup_insert_eq.
        destruct (getVariable data n); reflexivity.
      * rewrite decide_False by (intros [->|H]%elem_of_cons; contradiction).
        apply lookup_insert_ne. congruence.
Qed.

(** X17: the attributes of a decoded feature.  The attribute map has
    exactly the variable names of the wire feature as its keys (a name
    listed twice gives one key), and under each name the wire value with
    its alternative kept: null for boost::blank or for a name the feature
    data does not resolve, else the same boolean, integer, double or text;
    two different wire values never give the same attribute.  A feature
    without feature data has no attributes. *)
Theorem convertFeatureData_attributes (data : mvt_FeatureData) (name : string) :
  (In name (getVariableNames data) ->
   convertFeatureData (Some data) !! name
   = Some (ValueConverter (default blank (getVariable data name))))
  /\ (~ In name (getVariableNames data) -> convertFeatureData (Some data) !! name = None)
  /\ convertFeatureData None = ∅
  /\ (forall a b, ValueConverter a = ValueConverter b -> a = b)
  /\ ValueConverter blank = VariantNull.
Proof.
  unfold convertFeatureData. split; [|split; [|split; [|split]]].
  - intros Hin. rewrite attribute_loop_lookup, decide_True; [reflexivity|].
    apply list_elem_of_In, Hin.
  - intros Hnotin. rewrite attribute_loop_lookup, decide_False; [apply lookup_empty|].
    intros Hin. apply Hnotin, list_elem_of_In, Hin.
  - reflexivity.
  - apply ValueConverter_inj.
  - reflexivity.
Qed.

Section FeatureSoundness.
Context {TC : TileCodec}.

(** X18: every feature decodeFeature returns is a feature of the wire
    format: the payload was not empty, and the decoder the cache block
    yielded for it holds, under the id asked for, a wire feature with the
    returned id, layer name, shape (vertex by vertex through the tile
    bounds) and attributes. *)
Theorem decodeFeature_returns_wire_feature (id : Z) (tile : TileId)
    (tileData : option (shared_ptr BinaryData)) (tileBounds : MapBounds)
    (w w' : World) (feature : TileFeature) :
  decodeFeature id tile tileData tileBounds w = (Return (Some feature), w') ->
  exists data decoder layer mvtFeature,
    tileData = Some data
    /\ pointee data <> []
    /\ cachedDecoder data w = (Return decoder, w')
    /\ getFeature (pointee decoder) id = Return (Some (layer, mvtFeature))
    /\ getId feature = mvt_getId mvtFeature
    /\ getLayerName feature = layer
    /\ geometry_structure (getGeometry (getFeature_ feature))
       = List.map (List.map (List.map (convertFn tileBounds)))
           (wire_structure (mvt_getGeometry mvtFeature))
    /\ getProperties (getFeature_ feature)
       = convertFeatureData (mvt_getFeatureData mvtFeature).
Proof.
  intros Hdecode. destruct tileData as [data|]; [|discriminate].
  destruct (pointee data) as [|b bs] eqn:Hdata.
  { unfold decodeFeature in Hdecode. rewrite Hdata in Hdecode. discriminate. }
  assert (Hne : pointee data <> []) by (rewrite Hdata; discriminate).
  rewrite (decodeFeature_caught _ _ _ _ _ Hne), decodeFeature_try_outcome in Hdecode.
  destruct (cachedDecoder data w) as [[decoder|ex] w1] eqn:Hcached; [|discriminate].
  unfold decodeFeature_rest in Hdecode.
  destruct (getFeature (pointee decoder) id) as [[[layer mvtFeature]|]|ex] eqn:Hfeature;
    try discriminate.
  assert (Hshape := convertGeometry_shape (convertFn tileBounds)
                      (mvt_getGeometry mvtFeature)).
  destruct (convertGeometry (convertFn tileBounds) (mvt_getGeometry mvtFeature))
    as [geometry|]; [|discriminate].
  cbn in Hdecode. injection Hdecode as <- <-.
  exists data, decoder, layer, mvtFeature. rewrite Hdata. repeat split; try assumption.
  discriminate.
Qed.

End FeatureSoundness.

Lemma decodeFeature_returns_wire_feature_witness :
  exists feature data decoder layer mvtFeature,
    decodeFeature (TC := Fixture.codec) 2 Fixture.tile (Some Fixture.payload)
      Fixture.bounds Fixture.world
    = (Return (Some feature), Fixture.world_caching 1 (Fixture.decoder_at 0))
    /\ Some Fixture.payload = Some data
    /\ getFeature (TileCodec := Fixture.codec) (pointee decoder) 2
       = Return (Some (layer, mvtFeature))
    /\ getLayerName feature = layer
    /\ geometry_structure (getGeometry (getFeature_ feature))
       = List.map (List.map (List.map (convertFn Fixture.bounds)))
           (wire_structure (mvt_getGeometry mvtFeature))
    /\ getProperties (getFeature_ feature)
       = convertFeatureData (mvt_getFeatureData mvtFeature).
Proof.
  eexists.
  assert (Hdecode : decodeFeature (TC := Fixture.codec) 2 Fixture.tile
                      (Some Fixture.payload) Fixture.bounds Fixture.world
                    = (Return (Some _), Fixture.world_caching 1 (Fixture.decoder_at 0)))
    by reflexivity.
  destruct (decodeFeature_returns_wire_feature (TC := Fixture.codec) _ _ _ _ _ _ _ Hdecode)
    as (data & decoder & layer & mvtFeature & Hdata & _ & _ & Hfeature & _ & Hlayer
        & Hshape & Hprops).
  exists data, decoder, layer, mvtFeature. repeat split; assumption.
Defined.

(** ** Fonts, bitmaps and the background pattern *)

Module prefix_facts.

Lemma length_append (p r : string) :
  String.length (p +:+ r) = (String.length p + String.length r)%nat.
Proof. induction p as [|c p IH]; simpl; [reflexivity|]. f_equal. exact IH. Qed.

Lemma substring_append (p r : string) : substring 0 (String.length p) (p +:+ r) = p.
Proof.
  induction p as [|c p IH]; simpl.
  - destruct r; reflexivity.
  - f_equal. exact IH.
Qed.

Lemma substring_prefix (p : string) :
  forall s, substring 0 (String.length p) s = p -> exists r, s = p +:+ r.
Proof.
  induction p as [|c p IH]; intros s Hsub.
  - exists s. reflexivity.
  - destruct s as [|c' s]; [discriminate|]. simpl in Hsub. injection Hsub as -> Hsub.
    destruct (IH s Hsub) as [r ->]. exists r. reflexivity.
Qed.

(** The test of the font loop: the asset name is the prefix followed by
    something. *)
Lemma strictly_under (p s : string) :
  (String.length p <? String.length s)%nat
  && String.eqb (substring 0 (String.length p) s) p = true
  <-> exists r, s = p +:+ r /\ r <> "".
Proof.
  rewrite andb_true_iff, Nat.ltb_lt, String.eqb_eq. split.
  - intros [Hlen Hsub]. destruct (substring_prefix p s Hsub) as [r ->].
    exists r. split; [reflexivity|]. intros ->.
    rewrite length_append in Hlen. simpl in Hlen. lia.
  - intros (r & -> & Hr). split.
    + rewrite length_append. destruct r; [contradiction|]. simpl. lia.
    + apply substring_append.
Qed.

End prefix_facts.

Lemma font_asset_Some (prefix : string) (package : AssetPackage) (name : string)
    (data : BinaryData) :
  font_asset prefix package name = Some data
  <-> (exists rest, name = prefix +:+ rest /\ rest <> "")
      /\ loadAsset package name = Some data.
Proof.
  unfold font_asset.
  destruct ((String.length prefix <? String.length name)%nat
            && String.eqb (substring 0 (String.length prefix) name) prefix) eqn:Htest.
  - apply prefix_facts.strictly_under in Htest. tauto.
  - split; [discriminate|]. intros [Hunder _].
    apply prefix_facts.strictly_under in Hunder. congruence.
Qed.

Lemma loadFonts_data (prefix : string) (package : AssetPackage) (fontManager : FontManager) :
  loadedFontData (loadFonts prefix package fontManager)
  = (loadedFontData fontManager
     ++ omap (font_asset prefix package) (getAssetNames package))%list
  /\ font_maxGlyphMapWidth (loadFonts prefix package fontManager)
     = font_maxGlyphMapWidth fontManager
  /\ font_maxGlyphMapHeight (loadFonts prefix package fontManager)
     = font_maxGlyphMapHeight fontManager.
Proof.
  unfold loadFonts. revert fontManager.
  induction (getAssetNames package) as [|name names IH]; intros fontManager.
  - cbn. rewrite app_nil_r. auto.
  - cbn [fold_left omap list_omap]. fold (font_asset prefix package name).
    unfold font_asset at 1 2 3.
    destruct ((String.length prefix <? String.length name)%nat
              && String.eqb (substring 0 (String.length prefix) name) prefix).
    + destruct (loadAsset package name) as [fontData|].
      * destruct (IH {| font_maxGlyphMapWidth := font_maxGlyphMapWidth fontManager;
                        font_maxGlyphMapHeight := font_maxGlyphMapHeight fontManager;
                        loadedFontData := loadedFontData fontManager ++ [fontData] |})
          as (-> & -> & ->).
        cbn. rewrite <- app_assoc. auto.
      * apply IH.
    + apply IH.
Qed.

Section Resources.
Context {FE : StyleFrontEnds} {FU : FileUtils}.

Lemma loadStyleMap_names ignored styleSet name package map :
  loadStyleMap ignored styleSet = Return (name, package, map) ->
  name = styleAssetName styleSet /\ package = getAssetPackage styleSet.
Proof.
  destruct styleSet as [compiled|cartoCSS]; cbn [loadStyleMap styleAssetName getAssetPackage].
  - destruct (String.eqb (getStyleAssetName compiled) ""); [discriminate|].
    destruct (styleAsset compiled) as [styleData|]; [|discriminate].
    match goal with |- match ?loaded with _ => _ end = _ -> _ => destruct loaded end;
      [|discriminate].
    intros [= <- <- <-]. auto.
  - match goal with |- match ?loaded with _ => _ end = _ -> _ => destruct loaded end;
      [|discriminate].
    intros [= <- <- <-]. auto.
Qed.

Lemma loadCurrentStyle_resources ignored styleSet cs d :
  loadCurrentStyle ignored styleSet = Return cs ->
  _map d = cs_map cs ->
  _backgroundPattern d = cs_backgroundPattern cs ->
  _symbolizerContext d = cs_symbolizerContext cs ->
  installed_resources styleSet d.
Proof.
  unfold loadCurrentStyle, installed_resources, getBackgroundPattern, fontPrefix.
  destruct (loadStyleMap ignored styleSet) as [[[name package] map]|e] eqn:Hload;
    [|discriminate].
  apply loadStyleMap_names in Hload as [-> ->].
  intros [= <-] -> -> ->. cbn.
  repeat split.
  - destruct (getAssetPackage styleSet) as [package|]; [|reflexivity].
    match goal with |- context [loadFonts ?p ?k ?f] =>
      destruct (loadFonts_data p k f) as (_ & -> & _) end. reflexivity.
  - destruct (getAssetPackage styleSet) as [package|]; [|reflexivity].
    match goal with |- context [loadFonts ?p ?k ?f] =>
      destruct (loadFonts_data p k f) as (_ & _ & ->) end. reflexivity.
  - destruct (getAssetPackage styleSet) as [package|]; [|reflexivity].
    match goal with |- context [loadFonts ?p ?k ?f] =>
      destruct (loadFonts_data p k f) as (-> & _ & _) end. reflexivity.
Qed.

(** X22: the resources of an installed style.  After a constructor or a
    style-set setter that returned, the symbolizer context holds a bitmap
    loader on the directory of the style asset and the style set's package,
    stroke and glyph maps of sizes 512 and 2048, and a font manager of
    glyph-map size 2048 that was given, in the package's order, exactly the
    assets that load and whose name is the font prefix followed by at least
    one more character (none without a package); the background pattern is
    null when the style names no background image and otherwise what the
    bitmap manager loads for the image at scale 1. *)
Theorem installation_resources (styleSet : StyleSet) (w : World) :
  (forall d, construct styleSet = Return d -> installed_resources styleSet d)
  /\ (forall w',
        setStyleSet styleSet w = (Return tt, w') -> installed_resources styleSet (this w'))
  /\ (forall prefix package name data,
        font_asset prefix package name = Some data
        <-> (exists rest, name = prefix +:+ rest /\ rest <> "")
            /\ loadAsset package name = Some data)
  /\ (forall d data package,
        installed_resources styleSet d ->
        getAssetPackage styleSet = Some package ->
        In data (loadedFontData (getFontManager (_symbolizerContext d))) ->
        exists name rest,
          In name (getAssetNames package)
          /\ name = fontPrefix styleSet (_map d) +:+ rest /\ rest <> ""
          /\ loadAsset package name = Some data).
Proof.
  split; [|split; [|split]].
  - intros d. unfold construct.
    destruct (loadCurrentStyle false styleSet) as [cs|e] eqn:Hload; [|discriminate].
    intros [= <-]. eapply loadCurrentStyle_resources; eauto.
  - intros w' Hset.
    destruct (setStyleSet_cases styleSet w)
      as [(cs & w1 & Hload & Hret & Hs & _)|(e & _ & Hthrow)].
    + rewrite Hret in Hset. injection Hset as <-.
      unfold style_state in Hs. injection Hs as Hm _ Hp Hc _.
      eapply loadCurrentStyle_resources; eauto.
    + rewrite Hthrow in Hset. discriminate.
  - apply font_asset_Some.
  - intros d data package (_ & _ & _ & _ & _ & Hfonts & _) Hpackage Hin.
    rewrite Hfonts, Hpackage in Hin.
    apply list_elem_of_In, list_elem_of_omap in Hin as (name & Hname & Hfont).
    apply font_asset_Some in Hfont as [(rest & Hrest & Hne) Hload].
    exists name, rest. repeat split; try assumption.
    apply list_elem_of_In, Hname.
Qed.

End Resources.

(** Of the six assets of the sample package only "fonts/regular.ttf" is a
    font: "fonts/" is not strictly under the prefix, "fonts/broken.ttf" does
    not load, and the others are elsewhere. *)
Example bundle_fonts :
  match construct (FE := Fixture.front_ends) (FU := Fixture.file_utils)
          (Compiled Bundle.style) with
  | Return d =>
      loadedFontData (getFontManager (_symbolizerContext d)) = [[Byte.x00; Byte.x01]]
      /\ getBackgroundPattern d = None
      /\ getCompiledStyleSet d = Some Bundle.style
  | Throw _ => False
  end.
Proof. cbn. repeat split. Qed.

(** ** Progress of concurrent callers *)

Section Progress.
Context {TC : TileCodec}.

Lemma caller_step_returns (c : Caller) (w : World) :
  exists c' w',
    caller_step c w = (Return c', w')
    /\ (steps_left c' <= pred (steps_left c))%nat
    /\ (finished c = true -> c' = c).
Proof.
  destruct c as [tileData|tileData|tileData decoder|decoder|ex]; cbn [caller_step].
  - unfold bind. rewrite cache_lookup_result.
    match goal with |- context [match ?hit with Some _ => _ | None => _ end w] =>
      destruct hit end;
      eexists _, _; (split; [reflexivity|]); cbn; (split; [lia|discriminate]).
  - unfold try_catch, bind, cache_parse, lift.
    destruct (new_MBVTFeatureDecoder (pointee tileData));
      eexists _, _; (split; [reflexivity|]); cbn; (split; [lia|discriminate]).
  - eexists _, _. split; [reflexivity|]. cbn. split; [lia|discriminate].
  - eexists _, _. split; [reflexivity|]. cbn. split; [lia|reflexivity].
  - eexists _, _. split; [reflexivity|]. cbn. split; [lia|reflexivity].
Qed.

Lemma thread_step_self (i : nat) (callers : list Caller) (w : World) (c : Caller) :
  callers !! i = Some c ->
  exists c',
    (thread_step i (callers, w)).1 !! i = Some c'
    /\ (steps_left c' <= pred (steps_left c))%nat
    /\ (finished c = true -> c' = c).
Proof.
  intros Hc. unfold thread_step. cbn [fst snd]. rewrite Hc.
  destruct (caller_step_returns c w) as (c' & w' & -> & Hleft & Hfinished).
  exists c'. cbn [fst]. split; [|auto].
  apply list_lookup_insert_eq. eapply lookup_lt_Some, Hc.
Qed.

Lemma finished_stays (schedule : list nat) (i : nat) (c : Caller) :
  finished c = true ->
  forall cfg, cfg.1 !! i = Some c -> (run_schedule schedule cfg).1 !! i = Some c.
Proof.
  intros Hfinished. unfold run_schedule.
  induction schedule as [|j schedule IH]; intros cfg Hc; [exact Hc|].
  cbn [fold_left]. apply IH.
  destruct (Nat.eq_dec j i) as [->|Hne].
  - destruct cfg as [callers w]. cbn in Hc.
    destruct (thread_step_self i callers w c Hc) as (c' & Hc' & _ & Hsame).
    rewrite Hc', (Hsame Hfinished). reflexivity.
  - rewrite thread_step_other by congruence. exact Hc.
Qed.

(** X23: no caller of decodeFeature waits for another.  In the thread model
    of the cache block a caller needs at most three stretches of its own
    (look up, parse, install), however the other threads are scheduled in
    between: after any schedule in which it ran as many times as it had
    stretches left, it holds a decoder or has caught the parse error, and
    from then on nothing another thread does changes what it holds. *)
Theorem caller_finishes_within_three_steps (schedule later : list nat)
    (callers : list Caller) (w : World) (i : nat) (c : Caller) :
  callers !! i = Some c ->
  (steps_left c <= count_occ Nat.eq_dec schedule i)%nat ->
  (steps_left c <= 3)%nat
  /\ exists c',
      (run_schedule schedule (callers, w)).1 !! i = Some c'
      /\ finished c' = true
      /\ (run_schedule later (run_schedule schedule (callers, w))).1 !! i = Some c'.
Proof.
  intros Hc Hcount. split; [destruct c; cbn; lia|].
  assert (Hrun : exists c',
             (run_schedule schedule (callers, w)).1 !! i = Some c' /\ finished c' = true).
  { revert callers w c Hc Hcount. unfold run_schedule.
    induction schedule as [|j schedule IH]; intros callers w c Hc Hcount.
    - exists c. split; [exact Hc|]. cbn in Hcount. destruct c; cbn in *; try lia; reflexivity.
    - cbn [fold_left].
      destruct (Nat.eq_dec j i) as [->|Hne].
      + rewrite count_occ_cons_eq in Hcount by reflexivity.
        destruct (thread_step_self i callers w c Hc) as (c' & Hc' & Hleft & _).
        destruct (thread_step i (callers, w)) as [callers' w'].
        apply (IH callers' w' c' Hc'). lia.
      + rewrite count_occ_cons_neq in Hcount by exact Hne.
        assert (Hc' := thread_step_other i j (callers, w) (not_eq_sym Hne)).
        destruct (thread_step j (callers, w)) as [callers' w'].
        apply (IH callers' w' c); [|exact Hcount].
        cbn in Hc'. rewrite Hc'. exact Hc. }
  destruct Hrun as (c' & Hc' & Hfinished).
  exists c'. split; [exact Hc'|]. split; [exact Hfinished|].
  apply finished_stays; assumption.
Qed.

End Progress.

Lemma caller_finishes_within_three_steps_witness :
  exists c',
    (run_schedule (TC := Fixture.codec) [0; 1; 0; 1; 0]%nat
       ([Entering Fixture.payload; Entering Fixture.payload], Fixture.world)).1
    !! 0%nat = Some c'
    /\ finished c' = true
    /\ (run_schedule (TC := Fixture.codec) [1%nat]
          (run_schedule (TC := Fixture.codec) [0; 1; 0; 1; 0]%nat
             ([Entering Fixture.payload; Entering Fixture.payload], Fixture.world))).1
       !! 0%nat = Some c'.
Proof.
  apply (caller_finishes_within_three_steps (TC := Fixture.codec) [0; 1; 0; 1; 0]%nat
           [1%nat] [Entering Fixture.payload; Entering Fixture.payload] Fixture.world
           0%nat (Entering Fixture.payload)).
  - reflexivity.
  - cbn. lia.
Defined.

(** ** Notifications *)

Section Notifications.
Context {LC : LexicalCastDouble} {FE : StyleFrontEnds} {FU : FileUtils} {TC : TileCodec}.

Lemma decodeFeature_trace id tile tileData tileBounds w :
  exists log,
    trace (decodeFeature id tile tileData tileBounds w).2 = (trace w ++ log)%list
    /\ (log = [] \/ exists msg, log = [LogWarn msg] \/ log = [LogError msg]).
Proof.
  destruct tileData as [tileData|].
  - destruct (pointee tileData) as [|b bs] eqn:Hdata.
    + unfold decodeFeature. rewrite Hdata. exists []. cbn. rewrite app_nil_r. auto.
    + assert (Hne : pointee tileData <> []) by (rewrite Hdata; discriminate).
      rewrite (decodeFeature_caught _ _ _ _ _ Hne).
      assert (Htrace : trace (decodeFeature_try id tileData tileBounds w).2 = trace w).
      { rewrite decodeFeature_try_world. apply cachedDecoder_frame. }
      destruct (decodeFeature_try id tileData tileBounds w) as [[r|ex] w']; cbn in *.
      * exists []. rewrite app_nil_r. auto.
      * rewrite Htrace. eexists. split; [reflexivity|]. right. eauto.
  - cbn. eexists. split; [reflexivity|]. right. eauto.
Qed.

Lemma decodeTile_trace tile targetTile tileData w :
  exists log,
    trace (decodeTile tile targetTile tileData w).2 = (trace w ++ log)%list
    /\ (log = [] \/ exists msg, log = [LogWarn msg] \/ log = [LogError msg]).
Proof.
  destruct tileData as [tileData|].
  - unfold decodeTile. destruct (pointee tileData) as [|b bs].
    + exists []. cbn. rewrite app_nil_r. auto.
    + unfold bind, get_this, try_catch.
      match goal with
      | |- context [decodeTile_try ?a ?b ?c ?d ?e ?f ?g ?h w] =>
          assert (Hw := decodeTile_try_world a b c d e f g h w);
          destruct (decodeTile_try a b c d e f g h w) as [[r|ex] w']
      end; cbn in Hw; subst w'; cbn.
      * exists []. rewrite app_nil_r. auto.
      * eexists. split; [reflexivity|]. right. eauto.
  - cbn. eexists. split; [reflexivity|]. right. eauto.
Qed.

(** X24: observers hear of every change, and of nothing else.  Each of the
    seven setters either leaves the decoder object exactly as it was or
    appends exactly one decoder-changed notification to the trace and
    nothing more; a setter that throws appends nothing at all.  The two
    decoding methods never notify: they append nothing, or one warning or
    error line. *)
Theorem observers_hear_of_every_change (w : World) :
  (forall styleSet,
      this (setStyleSet styleSet w).2 = this w
      \/ trace (setStyleSet styleSet w).2 = (trace w ++ [DecoderChanged])%list)
  /\ (forall param value,
        this (setStyleParameter param value w).2 = this w
        \/ trace (setStyleParameter param value w).2 = (trace w ++ [DecoderChanged])%list)
  /\ (forall buffer idOverride ignore name,
        trace (setBuffering buffer w).2 = (trace w ++ [DecoderChanged])%list
        /\ trace (setFeatureIdOverride idOverride w).2 = (trace w ++ [DecoderChanged])%list
        /\ trace (setCartoCSSLayerNamesIgnored ignore w).2
           = (trace w ++ [DecoderChanged])%list
        /\ trace (setLayerNameOverride name w).2 = (trace w ++ [DecoderChanged])%list)
  /\ (forall compiled cartoCSS param value e w',
        setCompiledStyleSet compiled w = (Throw e, w')
        \/ setCartoCSSStyleSet cartoCSS w = (Throw e, w')
        \/ setStyleParameter param value w = (Throw e, w') ->
        w' = w)
  /\ (forall id tile tileData tileBounds,
        exists log,
          trace (decodeFeature id tile tileData tileBounds w).2 = (trace w ++ log)%list
          /\ (log = [] \/ exists msg, log = [LogWarn msg] \/ log = [LogError msg]))
  /\ (forall tile targetTile tileData,
        exists log,
          trace (decodeTile tile targetTile tileData w).2 = (trace w ++ log)%list
          /\ (log = [] \/ exists msg, log = [LogWarn msg] \/ log = [LogError msg])).
Proof.
  assert (Hstyle : forall styleSet e w', setStyleSet styleSet w = (Throw e, w') -> w' = w).
  { intros styleSet e w' H.
    destruct (setStyleSet_cases styleSet w)
      as [(cs & w1 & _ & Hret & _)|(e' & _ & Hthrow)].
    - rewrite Hret in H. discriminate.
    - rewrite Hthrow in H. injection H as _ <-. reflexivity. }
  split; [|split; [|split; [|split; [|split]]]].
  - intros styleSet.
    destruct (setStyleSet_cases styleSet w)
      as [(cs & w' & _ & -> & _ & _ & _ & Htrace & _)|(e & _ & ->)]; auto.
  - intros param value.
    assert (H := setStyleParameter_requested param value w).
    destruct (requestedValue (_map (this w)) param value) as [[val|]|ex].
    + rewrite H. right. apply assigned_trace.
    + destruct H as [msg ->]. left. reflexivity.
    + rewrite H. left. reflexivity.
  - intros buffer idOverride ignore name. repeat split.
  - intros compiled cartoCSS param value e w' [H|[H|H]].
    + destruct compiled as [compiled|].
      * apply (Hstyle (Compiled compiled) e w' H).
      * cbn in H. injection H as _ <-. reflexivity.
    + destruct cartoCSS as [cartoCSS|].
      * apply (Hstyle (CartoCSS cartoCSS) e w' H).
      * cbn in H. injection H as _ <-. reflexivity.
    + assert (H' := setStyleParameter_requested param value w).
      destruct (requestedValue (_map (this w)) param value) as [[val|]|ex].
      * rewrite H' in H. discriminate.
      * destruct H' as [msg H']. rewrite H' in H. discriminate.
      * rewrite H' in H. injection H as _ <-. reflexivity.
  - intros. apply decodeFeature_trace.
  - intros. apply decodeTile_trace.
Qed.

(** X25: every tile map decodeTile returns holds, under the one key 0, the
    tile that the reader read from a fresh parse of the (non-empty) payload,
    with the style model and symbolizer context of the decoder and with the
    buffering, the feature-id override and the layer-name override that the
    setters stored last; the call leaves the world untouched. *)
Theorem decodeTile_returns_read_tile (tile targetTile : TileId)
    (tileData : option (shared_ptr BinaryData)) (w w' : World)
    (tiles : gmap Z vt_Tile) :
  decodeTile tile targetTile tileData w = (Return (Some tiles), w') ->
  exists data parsed read,
    tileData = Some data
    /\ pointee data <> []
    /\ new_MBVTFeatureDecoder (pointee data) = Return parsed
    /\ readTile (_map (this w)) (_symbolizerContext (this w))
         {| decoder_data := decoder_data parsed;
            decoder_transform := calculateTileTransform tile targetTile;
            decoder_buffer := getBuffering (this w);
            decoder_globalIdOverride :=
              (isFeatureIdOverride (this w),
               MapTile_getTileId (x tile) (y tile) (zoom tile) 0) |}
         (getLayerNameOverride (this w)) targetTile
       = Return (Some read)
    /\ tiles = {[ 0 := read ]}
    /\ w' = w.
Proof.
  intros Hdecode. destruct tileData as [data|]; [|discriminate].
  unfold decodeTile in Hdecode.
  destruct (pointee data) as [|b bs] eqn:Hdata; [discriminate|].
  unfold try_catch, decodeTile_try, bind, get_this, lift in Hdecode.
  destruct (new_MBVTFeatureDecoder (pointee data)) as [parsed|ex] eqn:Hparse;
    [|discriminate].
  match type of Hdecode with
  | context [readTile ?a ?b ?c ?d ?e] => destruct (readTile a b c d e) as [[read|]|ex] eqn:Hread
  end; try discriminate.
  cbn in Hdecode. injection Hdecode as <- <-.
  exists data, parsed, read. repeat split; try assumption.
  rewrite Hdata. discriminate.
Qed.

End Notifications.

Lemma decodeTile_returns_read_tile_witness :
  exists data parsed read,
    Some Fixture.payload = Some data
    /\ pointee data <> []
    /\ new_MBVTFeatureDecoder (TileCodec := Fixture.codec) (pointee data) = Return parsed
    /\ readTile (TileCodec := Fixture.codec) (_map (this Fixture.world))
         (_symbolizerContext (this Fixture.world))
         {| decoder_data := decoder_data parsed;
            decoder_transform :=
              calculateTileTransform (TileCodec := Fixture.codec) Fixture.tile Fixture.tile;
            decoder_buffer := getBuffering (this Fixture.world);
            decoder_globalIdOverride :=
              (isFeatureIdOverride (this Fixture.world),
               MapTile_getTileId (TileCodec := Fixture.codec) (x Fixture.tile)
                 (y Fixture.tile) (zoom Fixture.tile) 0) |}
         (getLayerNameOverride (this Fixture.world)) Fixture.tile
       = Return (Some read)
    /\ ({[ 0 := tt ]} : gmap Z unit) = {[ 0 := read ]}
    /\ Fixture.world = Fixture.world.
Proof.
  apply (decodeTile_returns_read_tile (TC := Fixture.codec) Fixture.tile Fixture.tile
           (Some Fixture.payload) Fixture.world Fixture.world {[ 0 := tt ]}).
  reflexivity.
Defined.

(** ** Which front-end reads a style *)

Module suffix_facts.

Lemma substring_all (t : string) : substring 0 (String.length t) t = t.
Proof. induction t as [|c t IH]; simpl; [reflexivity|]. f_equal. exact IH. Qed.

Lemma substring_skip (p t : string) (m : nat) :
  substring (String.length p) m (p +:+ t) = substring 0 m t.
Proof. induction p as [|c p IH]; simpl; [reflexivity|]. exact IH. Qed.

Lemma split_at (k : nat) :
  forall s, (k <= String.length s)%nat ->
            exists p r, s = p +:+ r /\ String.length p = k.
Proof.
  induction k as [|k IH]; intros s Hk.
  - exists "", s. split; reflexivity.
  - destruct s as [|c s]; [simpl in Hk; lia|]. simpl in Hk.
    destruct (IH s) as (p & r & -> & Hp); [lia|].
    exists (String c p), r. split; [reflexivity|]. simpl. rewrite Hp. reflexivity.
Qed.

(** [ends_with] holds exactly of the strings that end in the test string. *)
Lemma ends_with_iff (s t : string) : ends_with s t = true <-> exists p, s = p +:+ t.
Proof.
  unfold ends_with. rewrite andb_true_iff, Nat.leb_le, String.eqb_eq. split.
  - intros [Hlen Hsub].
    destruct (split_at (String.length s - String.length t) s) as (p & r & -> & Hp); [lia|].
    rewrite <- Hp, substring_skip in Hsub.
    rewrite prefix_facts.length_append in Hlen, Hp.
    assert (Hr : String.length r = String.length t) by lia.
    rewrite <- Hr, substring_all in Hsub. subst r. eauto.
  - intros [p ->]. rewrite prefix_facts.length_append. split; [lia|].
    replace (String.length p + String.length t - String.length t)%nat
      with (String.length p) by lia.
    rewrite substring_skip. apply substring_all.
Qed.

End suffix_facts.

Section FrontEnds.
Context {FE : StyleFrontEnds} {FU : FileUtils}.

Lemma loadCurrentStyle_map ignored styleSet cs :
  loadCurrentStyle ignored styleSet = Return cs ->
  exists name package, loadStyleMap ignored styleSet = Return (name, package, cs_map cs).
Proof.
  unfold loadCurrentStyle.
  destruct (loadStyleMap ignored styleSet) as [[[name package] map]|e]; [|discriminate].
  intros [= <-]. eauto.
Qed.

Lemma rethrow_returns msg o map :
  rethrow_as_parse_error msg o = Return map -> o = Return map.
Proof. destruct o; cbn; congruence. Qed.

Lemma loadStyleMap_front_end ignored styleSet name package map :
  loadStyleMap ignored styleSet = Return (name, package, map) ->
  match styleSet with
  | CartoCSS cartoCSS =>
      loadMap "" (cartocss_getAssetPackage cartoCSS) ignored (getCartoCSS cartoCSS)
      = Return map
  | Compiled compiled =>
      getStyleAssetName compiled <> ""
      /\ exists styleData,
          styleAsset compiled = Some styleData
          /\ ((exists base doc,
                  getStyleAssetName compiled = base +:+ ".xml"
                  /\ load_buffer styleData = Some doc
                  /\ parseMap doc = Return map)
              \/ (exists base,
                     getStyleAssetName compiled = base +:+ ".json"
                     /\ loadMapProject (GetFilePath (getStyleAssetName compiled))
                          (compiled_getAssetPackage compiled) ignored
                          (getStyleAssetName compiled)
                        = Return map))
  end.
Proof.
  destruct styleSet as [compiled|cartoCSS]; cbn [loadStyleMap].
  - destruct (String.eqb (getStyleAssetName compiled) "") eqn:Hname; [discriminate|].
    apply String.eqb_neq in Hname.
    destruct (styleAsset compiled) as [styleData|]; [|discriminate].
    destruct (ends_with (getStyleAssetName compiled) ".xml") eqn:Hxml.
    + apply suffix_facts.ends_with_iff in Hxml as [base Hbase].
      destruct (load_buffer styleData) as [doc|] eqn:Hdoc; [|discriminate].
      destruct (rethrow_as_parse_error _ (parseMap doc)) as [map'|e] eqn:Hparse;
        [|discriminate].
      apply rethrow_returns in Hparse. intros [= _ _ <-].
      split; [exact Hname|]. exists styleData. split; [reflexivity|]. left. eauto.
    + destruct (ends_with (getStyleAssetName compiled) ".json") eqn:Hjson; [|discriminate].
      apply suffix_facts.ends_with_iff in Hjson as [base Hbase].
      destruct (rethrow_as_parse_error _ (loadMapProject _ _ _ _)) as [map'|e] eqn:Hload;
        [|discriminate].
      apply rethrow_returns in Hload. intros [= _ _ <-].
      split; [exact Hname|]. exists styleData. split; [reflexivity|]. right. eauto.
  - destruct (rethrow_as_parse_error _ (loadMap _ _ _ _)) as [map'|e] eqn:Hload;
      [|discriminate].
    apply rethrow_returns in Hload. intros [= _ _ <-]. exact Hload.
Qed.

(** X26: which front-end a style goes through.  The style model of a decoder
    that a constructor returned is what exactly one front-end returned: for
    CartoCSS text the CartoCSS map loader on the text; for a precompiled
    style whose (non-empty) asset name ends in ".xml" the XML map parser on
    the document read from the asset; for one whose name ends in ".json" the
    CartoCSS project loader on the asset name.  The suffix is compared after
    the asset has loaded, ".xml" first, and with case. *)
Theorem style_model_comes_from_one_front_end (styleSet : StyleSet) (d : MBVectorTileDecoder) :
  construct styleSet = Return d ->
  match styleSet with
  | CartoCSS cartoCSS =>
      loadMap "" (cartocss_getAssetPackage cartoCSS) false (getCartoCSS cartoCSS)
      = Return (_map d)
  | Compiled compiled =>
      getStyleAssetName compiled <> ""
      /\ exists styleData,
          styleAsset compiled = Some styleData
          /\ ((exists base doc,
                  getStyleAssetName compiled = base +:+ ".xml"
                  /\ load_buffer styleData = Some doc
                  /\ parseMap doc = Return (_map d))
              \/ (exists base,
                     getStyleAssetName compiled = base +:+ ".json"
                     /\ loadMapProject (GetFilePath (getStyleAssetName compiled))
                          (compiled_getAssetPackage compiled) false
                          (getStyleAssetName compiled)
                        = Return (_map d)))
  end
  /\ (forall input test, ends_with input test = true <-> exists base, input = base +:+ test).
Proof.
  unfold construct.
  destruct (loadCurrentStyle false styleSet) as [cs|e] eqn:Hload; [|discriminate].
  intros [= <-]. cbn [_map].
  destruct (loadCurrentStyle_map _ _ _ Hload) as (name & package & Hmap).
  split; [|apply suffix_facts.ends_with_iff].
  apply (loadStyleMap_front_end _ _ _ _ _ Hmap).
Qed.

End FrontEnds.

Lemma style_model_comes_from_one_front_end_witness :
  exists d,
    construct (FE := Fixture.front_ends) (FU := Fixture.file_utils)
      (Compiled Bundle.style) = Return d
    /\ exists styleData,
        styleAsset Bundle.style = Some styleData
        /\ ((exists base doc,
                getStyleAssetName Bundle.style = base +:+ ".xml"
                /\ load_buffer (StyleFrontEnds := Fixture.front_ends) styleData = Some doc
                /\ parseMap (StyleFrontEnds := Fixture.front_ends) doc = Return (_map d))
            \/ (exists base,
                   getStyleAssetName Bundle.style = base +:+ ".json"
                   /\ loadMapProject (StyleFrontEnds := Fixture.front_ends)
                        (GetFilePath (FileUtils := Fixture.file_utils)
                           (getStyleAssetName Bundle.style))
                        (compiled_getAssetPackage Bundle.style) false
                        (getStyleAssetName Bundle.style)
                      = Return (_map d))).
Proof.
  eexists. split; [reflexivity|].
  eapply (style_model_comes_from_one_front_end (FE := Fixture.front_ends)
            (FU := Fixture.file_utils) (Compiled Bundle.style)).
  reflexivity.
Defined.

(** ** The cache under concurrent callers *)

Section CoherentSchedules.
Context {TC : TileCodec}.

Lemma caller_step_coherent (c c' : Caller) (w w' : World) :
  caller_step c w = (Return c', w') ->
  cache_coherent (this w) ->
  (forall tileData decoder,
      c = Installing tileData decoder ->
      new_MBVTFeatureDecoder (pointee tileData) = Return (pointee decoder)) ->
  cache_coherent (this w')
  /\ (forall tileData decoder,
        c' = Installing tileData decoder ->
        new_MBVTFeatureDecoder (pointee tileData) = Return (pointee decoder)).
Proof.
  intros Hstep Hcache Hc.
  destruct c as [tileData|tileData|tileData decoder|decoder|ex]; cbn [caller_step] in Hstep.
  - unfold bind in Hstep. rewrite cache_lookup_result in Hstep.
    match type of Hstep with
    | context [match ?hit with Some _ => _ | None => _ end w] => destruct hit
    end; injection Hstep as <- <-; split; try exact Hcache; discriminate.
  - unfold try_catch, bind, cache_parse, lift in Hstep.
    destruct (new_MBVTFeatureDecoder (pointee tileData)) as [parsed|ex] eqn:Hparse;
      cbn in Hstep; injection Hstep as <- <-.
    + split; [exact Hcache|]. intros tileData' decoder' [= <- <-]. exact Hparse.
    + split; [exact Hcache|]. discriminate.
  - cbn in Hstep. injection Hstep as <- <-. split; [|discriminate].
    intros data decoder'. cbn. intros [= <- <-]. apply (Hc tileData decoder eq_refl).
  - injection Hstep as <- <-. split; [exact Hcache|discriminate].
  - injection Hstep as <- <-. split; [exact Hcache|discriminate].
Qed.

Lemma thread_step_coherent (i : nat) (callers : list Caller) (w : World) :
  cache_coherent (this w) -> callers_coherent callers ->
  cache_coherent (this (thread_step i (callers, w)).2)
  /\ callers_coherent (thread_step i (callers, w)).1.
Proof.
  intros Hcache Hcallers. unfold thread_step. cbn [fst snd].
  destruct (callers !! i) as [c|] eqn:Hc; [|split; assumption].
  destruct (caller_step_returns c w) as (c' & w' & Hstep & _).
  rewrite Hstep. cbn [fst snd].
  destruct (caller_step_coherent c c' w w' Hstep Hcache) as [Hcache' Hc'].
  { intros tileData decoder ->. apply (Hcallers i), Hc. }
  split; [exact Hcache'|].
  intros j tileData decoder Hj.
  destruct (Nat.eq_dec i j) as [<-|Hne].
  - rewrite list_lookup_insert_eq in Hj by (eapply lookup_lt_Some, Hc).
    injection Hj as Hj. apply Hc', Hj.
  - rewrite list_lookup_insert_ne in Hj by exact Hne. apply (Hcallers j), Hj.
Qed.

(** X27: the race between installers cannot corrupt the cache.  Whatever
    the schedule of the concurrent callers of decodeFeature, if the cached
    decoder was the parse of the cached payload before, it is so after, and
    every caller that has parsed but not yet installed holds the parse of
    its own payload: a later installer can replace the cached decoder only
    by another parse. *)
Theorem cache_stays_coherent_under_any_schedule (schedule : list nat)
    (callers : list Caller) (w : World) :
  cache_coherent (this w) ->
  callers_coherent callers ->
  cache_coherent (this (run_schedule schedule (callers, w)).2)
  /\ callers_coherent (run_schedule schedule (callers, w)).1.
Proof.
  unfold run_schedule. revert callers w.
  induction schedule as [|i schedule IH]; intros callers w Hcache Hcallers.
  - split; assumption.
  - cbn [fold_left].
    destruct (thread_step_coherent i callers w Hcache Hcallers) as [Hcache' Hcallers'].
    destruct (thread_step i (callers, w)) as [callers' w'].
    apply IH; assumption.
Qed.

End CoherentSchedules.

Lemma cache_stays_coherent_under_any_schedule_witness :
  cache_coherent (TC := Fixture.codec)
    (this (run_schedule (TC := Fixture.codec) [0; 1; 0; 1; 0; 1]%nat
             ([Entering Fixture.payload; Entering Fixture.payload], Fixture.world)).2)
  /\ callers_coherent (TC := Fixture.codec)
       (run_schedule (TC := Fixture.codec) [0; 1; 0; 1; 0; 1]%nat
          ([Entering Fixture.payload; Entering Fixture.payload], Fixture.world)).1.
Proof.
  apply (cache_stays_coherent_under_any_schedule (TC := Fixture.codec)
           [0; 1; 0; 1; 0; 1]%nat
           [Entering Fixture.payload; Entering Fixture.payload] Fixture.world).
  - intros data decoder. discriminate.
  - intros [|[|i]] tileData decoder; discriminate.
Defined.

(** ** An enum value without a label *)

Section Unlabelled.
Context {LC : LexicalCastDouble}.

Lemma find_all_false {A} (f : A -> bool) (l : list A) :
  (forall a, In a l -> f a = false) -> find f l = None.
Proof.
  induction l as [|a l IH]; intros H; [reflexivity|].
  cbn. rewrite (H a) by (left; reflexivity). apply IH. intros b Hb. apply H. right. exact Hb.
Qed.

(** X28: an enum parameter whose current value is the value of none of its
    labels reads as the empty text; this is what a new decoder returns for
    an enum whose declared default is not among its labels' values.  Writing
    back the text read is then refused (returns false) unless the empty
    text is itself a label, and the parameter keeps reading as the empty
    text. *)
Theorem unlabelled_enum_value_reads_empty (param : string) (nutiParam : NutiParameter)
    (w : World) :
  getNutiParameterMap (_map (this w)) !! param = Some nutiParam ->
  getEnumMap nutiParam <> [] ->
  (forall label v,
      In (label, v) (getEnumMap nutiParam) ->
      Value_eqb v (currentValue (this w) param nutiParam) = false) ->
  getStyleParameter (this w) param = Return ""
  /\ (enum_find "" (getEnumMap nutiParam) = None ->
      (setStyleParameter param "" w).1 = Return false
      /\ getStyleParameter (this (setStyleParameter param "" w).2) param = Return "").
Proof.
  intros Hparam Henum Hnone.
  assert (Hread : getStyleParameter (this w) param = Return "").
  { rewrite (getStyleParameter_declared _ _ _ Hparam).
    destruct (getEnumMap nutiParam) as [|entry entries] eqn:He; [contradiction|].
    rewrite find_all_false; [reflexivity|].
    intros [label v] Hin. apply (Hnone label v Hin). }
  split; [exact Hread|]. intros Hfind.
  rewrite (setStyleParameter_enum_miss _ _ _ _ Hparam Henum Hfind). cbn [fst snd].
  split; [reflexivity|exact Hread].
Qed.

End Unlabelled.

Lemma unlabelled_enum_value_reads_empty_witness :
  getStyleParameter (LC := Fixture.coarse_double_codec) (this Bundle.world) "mode"
  = Return ""
  /\ (setStyleParameter (LC := Fixture.coarse_double_codec) "mode" "" Bundle.world).1
     = Return false
  /\ getStyleParameter (LC := Fixture.coarse_double_codec)
       (this (setStyleParameter (LC := Fixture.coarse_double_codec) "mode" ""
                Bundle.world).2) "mode"
     = Return "".
Proof.
  destruct (unlabelled_enum_value_reads_empty (LC := Fixture.coarse_double_codec)
              "mode" Bundle.mode Bundle.world) as [Hread Hwrite].
  - reflexivity.
  - discriminate.
  - intros label v [[= <- <-]|[[= <- <-]|[]]]; reflexivity.
  - split; [exact Hread|]. apply Hwrite. reflexivity.
Defined.
